(** * A-Puzzle-A-Day calendar solver: a shallow embedding of
      [puzzle_solver.py] and the properties of its orientation generator,
      of its backtracking search, of its lookup tables and of its
      rendering. *)

From Stdlib Require Import ZArith Lia.
From stdpp Require Import base tactics option list sorting strings pretty relations.

Local Open Scope Z_scope.

(** ** Python outcomes *)

(** The exceptions the modelled code can raise. *)
Inductive exception : Type :=
| IndexError   (* a list or array index out of range *)
| KeyError     (* a missing dictionary key *)
| ValueError.  (* [min] of an empty sequence *)

(** What a call does: it returns a value, raises, or exhausts the
    nesting budget given to a recursive function. *)
Inductive outcome (A : Type) : Type :=
| Returns (a : A)
| Raises (e : exception)
| OutOfFuel.
Arguments Returns {A} a.
Arguments Raises {A} e.
Arguments OutOfFuel {A}.

Definition obind {A B} (x : outcome A) (k : A -> outcome B) : outcome B :=
  match x with
  | Returns a => k a
  | Raises e => Raises e
  | OutOfFuel => OutOfFuel
  end.

Notation "'let!' x ':=' e 'in' k" := (obind e (fun x => k))
  (at level 10, x pattern, e at level 100, k at level 200).

(** ** Cells and shapes *)

Abbreviation cell := (Z * Z)%type (only parsing).
Abbreviation shape := (list cell) (only parsing).

(** A Python [set], kept as the list of its distinct elements in the
    order they were first added. *)
Abbreviation pyset A := (list A) (only parsing).

Definition set_add {A} `{EqDecision A} (x : A) (s : pyset A) : pyset A :=
  if decide (x ∈ s) then s else s ++ [x].

Definition set_discard {A} `{EqDecision A} (x : A) (s : pyset A) : pyset A :=
  filter (fun y => y ≠ x) s.

(** The order in which Python iterates over a set is fixed by the hash
    table and not by the program; the model takes it as a parameter:
    any rearrangement of the elements. *)
Class SetIteration : Type := {
  set_iter : forall A : Type, pyset A -> list A;
  set_iter_perm : forall (A : Type) (s : pyset A), set_iter A s ≡ₚ s
}.
Arguments set_iter {_} {A} s.

(** Iteration in insertion order is one such order. *)
Definition insertion_order : SetIteration :=
  {| set_iter := fun A s => s; set_iter_perm := fun A s => reflexivity s |}.

(** ** Board geometry and lookup tables *)

Definition BOARD_ROWS : Z := 7.
Definition BOARD_COLS : Z := 7.

Definition BLOCKED : pyset cell :=
  [(0, 6); (1, 6); (6, 3); (6, 4); (6, 5); (6, 6)].

(** [range(a, b)] *)
Definition range (a b : Z) : list Z :=
  map (fun i => a + Z.of_nat i) (seq 0 (Z.to_nat (b - a))).

(** The coordinates visited by [for r in rows: for c in cols: ...]. *)
Definition grid (rows cols : list Z) : list cell :=
  r ← rows; c ← cols; [(r, c)].

(** A Python [dict], kept as its items in insertion order. *)
Abbreviation pydict K V := (list (K * V)) (only parsing).

Fixpoint dict_set {K V} `{EqDecision K} (k : K) (v : V) (d : pydict K V) : pydict K V :=
  match d with
  | [] => [(k, v)]
  | (k', v') :: d' => if decide (k = k') then (k, v) :: d' else (k', v') :: dict_set k v d'
  end.

Fixpoint dict_get {K V} `{EqDecision K} (k : K) (d : pydict K V) : outcome V :=
  match d with
  | [] => Raises KeyError
  | (k', v') :: d' => if decide (k = k') then Returns v' else dict_get k d'
  end.

(** [{v: k for k, v in d.items()}] *)
Definition dict_invert {K V} `{EqDecision V} (d : pydict K V) : pydict V K :=
  fold_left (fun acc kv => dict_set kv.2 kv.1 acc) d [].

(** [xs[i]] on a Python list: a negative index counts from the end. *)
Definition list_index {A} (xs : list A) (i : Z) : outcome A :=
  let n := Z.of_nat (length xs) in
  let j := if decide (i < 0) then i + n else i in
  if decide (0 <= j < n) then
    match xs !! Z.to_nat j with
    | Some x => Returns x
    | None => Raises IndexError
    end
  else Raises IndexError.

Definition MONTHS : pydict cell string :=
  [ ((0, 0), "Jan"); ((0, 1), "Feb"); ((0, 2), "Mär"); ((0, 3), "Apr");
    ((0, 4), "Mai"); ((0, 5), "Jun"); ((1, 0), "Jul"); ((1, 1), "Aug");
    ((1, 2), "Sep"); ((1, 3), "Okt"); ((1, 4), "Nov"); ((1, 5), "Dez") ]%string.

(** The module-level loop that numbers the day cells. *)
Definition DAYS : pydict cell Z :=
  fst (fold_left
         (fun '(days, day) rc =>
            if decide ((rc ∉ BLOCKED) /\ (day <= 31))
            then (dict_set rc day days, day + 1)
            else (days, day))
         (grid (range 2 7) (range 0 7))
         ([], 1)).

Definition MONTH_TO_POS : pydict string cell := dict_invert MONTHS.

Definition MONTH_NAMES : list string :=
  [ "Jan"; "Feb"; "Mär"; "Apr"; "Mai"; "Jun";
    "Jul"; "Aug"; "Sep"; "Okt"; "Nov"; "Dez" ]%string.

Definition DAY_TO_POS : pydict Z cell := dict_invert DAYS.

Definition get_all_valid_cells : pyset cell :=
  fold_left
    (fun cells rc => if decide (rc ∉ BLOCKED) then set_add rc cells else cells)
    (grid (range 0 BOARD_ROWS) (range 0 BOARD_COLS))
    [].

(** ** The eight pieces *)

Definition PIECES : list shape :=
  [ [(0, 0); (0, 1); (1, 0); (1, 1); (2, 0); (2, 1)];
    [(0, 0); (1, 0); (2, 0); (3, 0); (3, 1)];
    [(0, 0); (0, 1); (1, 1); (2, 1); (2, 2)];
    [(0, 0); (0, 2); (1, 0); (1, 1); (1, 2)];
    [(0, 1); (1, 0); (1, 1); (2, 0); (3, 0)];
    [(0, 0); (0, 1); (1, 0); (1, 1); (2, 0)];
    [(0, 1); (1, 0); (1, 1); (2, 1); (3, 1)];
    [(0, 0); (1, 0); (2, 0); (2, 1); (2, 2)] ].

(** [PIECE_COLORS], one colour per piece. *)
Definition PIECE_COLORS : list string :=
  [ "#E74C3C"; "#3498DB"; "#2ECC71"; "#F39C12";
    "#9B59B6"; "#1ABC9C"; "#E91E63"; "#00BCD4" ]%string.

(** ** Orientation generator *)

(** [min(xs)]: raises [ValueError] on an empty sequence. *)
Definition py_min (xs : list Z) : outcome Z :=
  match xs with
  | [] => Raises ValueError
  | x :: xs' => Returns (fold_left Z.min xs' x)
  end.

Definition rotate_piece (piece : shape) : outcome shape :=
  let rotated := map (fun '(r, c) => (c, - r)) piece in
  let! min_r := py_min (map fst rotated) in
  let! min_c := py_min (map snd rotated) in
  Returns (map (fun '(r, c) => (r - min_r, c - min_c)) rotated).

Definition flip_piece (piece : shape) : outcome shape :=
  let flipped := map (fun '(r, c) => (r, - c)) piece in
  let! min_r := py_min (map fst flipped) in
  let! min_c := py_min (map snd flipped) in
  Returns (map (fun '(r, c) => (r - min_r, c - min_c)) flipped).

(** Python compares tuples lexicographically. *)
Definition cell_le (a b : cell) : Prop :=
  a.1 < b.1 \/ (a.1 = b.1 /\ a.2 <= b.2).

Global Instance cell_le_dec : RelDecision cell_le.
Proof. intros a b. unfold cell_le. apply _. Defined.

(** [sorted(xs)] on a list of cells. *)
Definition sorted (xs : list cell) : list cell := merge_sort cell_le xs.

Definition normalize_piece (piece : shape) : outcome shape :=
  let! min_r := py_min (map fst piece) in
  let! min_c := py_min (map snd piece) in
  let normalized := map (fun '(r, c) => (r - min_r, c - min_c)) piece in
  Returns (sorted normalized).

(** The body of [for _ in range(4)], run [n] more times. *)
Fixpoint orientations_loop (n : nat) (orientations : pyset shape) (current : shape)
  : outcome (pyset shape) :=
  match n with
  | O => Returns orientations
  | S n' =>
      let! a := normalize_piece current in
      let orientations := set_add a orientations in
      let! flipped := flip_piece current in
      let! b := normalize_piece flipped in
      let orientations := set_add b orientations in
      let! current := rotate_piece current in
      orientations_loop n' orientations current
  end.

(** [rotate_piece] applied [n] times in succession. *)
Fixpoint rotate_times (n : nat) (piece : shape) : outcome shape :=
  match n with
  | O => Returns piece
  | S n' => let! rotated := rotate_piece piece in rotate_times n' rotated
  end.

(** The canonical form of [piece] after [k] quarter turns and, when
    [mirror] is set, a flip: the value the generator adds to its set in
    round [k]. *)
Definition canonical_form (k : nat) (mirror : bool) (piece : shape) : outcome shape :=
  let! turned := rotate_times k piece in
  if mirror then let! flipped := flip_piece turned in normalize_piece flipped
  else normalize_piece turned.

(** A shape has a symmetry when a turn or flip other than the identity
    maps it onto itself up to translation. *)
Definition has_symmetry (piece : shape) : Prop :=
  exists (k : nat) (mirror : bool) (e : shape),
    (k < 4)%nat /\ (k ≠ 0%nat \/ mirror = true) /\
    normalize_piece piece = Returns e /\
    canonical_form k mirror piece = Returns e.

Section Orientations.
Context `{SetIteration}.

Definition get_all_orientations (piece : shape) : outcome (list shape) :=
  let! orientations := orientations_loop 4 [] piece in
  Returns (set_iter orientations).

(** [[f(x) for x in xs]] where [f] may raise. *)
Fixpoint list_comprehension {A B} (f : A -> outcome B) (xs : list A) : outcome (list B) :=
  match xs with
  | [] => Returns []
  | x :: xs' =>
      let! y := f x in
      let! ys := list_comprehension f xs' in
      Returns (y :: ys)
  end.

Definition precompute_piece_orientations : outcome (list (list shape)) :=
  list_comprehension get_all_orientations PIECES.
End Orientations.

(** ** The board array *)

(** The numpy array of shape (BOARD_ROWS, BOARD_COLS), as its row-major
    data. A cell holds -2 (blocked or target), -1 (empty) or a piece id. *)
Abbreviation ndarray := (list Z) (only parsing).

(** How an index along one axis is resolved. [numpy_indexing] is what
    the program runs on: an index in [-n, 0) denotes [i + n].
    [checked_indexing] refuses every index outside [0, n); it is used to
    state that the wrap-around is never exercised. *)
Inductive indexing : Type := numpy_indexing | checked_indexing.

Definition axis_index (ix : indexing) (n i : Z) : outcome Z :=
  if decide (0 <= i < n) then Returns i
  else match ix with
       | numpy_indexing =>
           if decide (- n <= i < 0) then Returns (i + n) else Raises IndexError
       | checked_indexing => Raises IndexError
       end.

Definition flat_index (ix : indexing) (r c : Z) : outcome nat :=
  let! r' := axis_index ix BOARD_ROWS r in
  let! c' := axis_index ix BOARD_COLS c in
  Returns (Z.to_nat (r' * BOARD_COLS + c')).

(** [board[r, c]] *)
Definition board_get (ix : indexing) (board : ndarray) (r c : Z) : outcome Z :=
  let! i := flat_index ix r c in
  match board !! i with
  | Some v => Returns v
  | None => Raises IndexError
  end.

(** [board[r, c] = v] *)
Definition board_set (ix : indexing) (board : ndarray) (r c v : Z) : outcome ndarray :=
  let! i := flat_index ix r c in
  if decide (i < length board)%nat then Returns (<[i:=v]> board)
  else Raises IndexError.

(** [np.full((BOARD_ROWS, BOARD_COLS), v)] *)
Definition np_full (v : Z) : ndarray := replicate (Z.to_nat (BOARD_ROWS * BOARD_COLS)) v.

(** [xs[i] = v] on a Python list, for an index that is not negative. *)
Definition list_assign {A} (xs : list A) (i : nat) (v : A) : outcome (list A) :=
  if decide (i < length xs)%nat then Returns (<[i:=v]> xs) else Raises IndexError.

(** [xs[i]] for an index that is not negative. *)
Definition list_item {A} (xs : list A) (i : nat) : outcome A :=
  match xs !! i with
  | Some x => Returns x
  | None => Raises IndexError
  end.

(** ** The search *)

(** The two objects [solve] mutates in place and shares between all its
    recursive calls. *)
Record state : Type := { board : ndarray; used_pieces : list bool }.

Section Search.
Variable ix : indexing.

Fixpoint can_place_piece (board : ndarray) (piece : shape)
    (start_row start_col : Z) (valid_cells : pyset cell) : outcome bool :=
  match piece with
  | [] => Returns true
  | (dr, dc) :: piece' =>
      let r := start_row + dr in
      let c := start_col + dc in
      if decide ((r, c) ∉ valid_cells) then Returns false
      else
        let! v := board_get ix board r c in
        if decide (v ≠ -1) then Returns false
        else can_place_piece board piece' start_row start_col valid_cells
  end.

Fixpoint place_piece (board : ndarray) (piece : shape)
    (start_row start_col : Z) (piece_id : Z) : outcome ndarray :=
  match piece with
  | [] => Returns board
  | (dr, dc) :: piece' =>
      let! board := board_set ix board (start_row + dr) (start_col + dc) piece_id in
      place_piece board piece' start_row start_col piece_id
  end.

Fixpoint remove_piece (board : ndarray) (piece : shape)
    (start_row start_col : Z) : outcome ndarray :=
  match piece with
  | [] => Returns board
  | (dr, dc) :: piece' =>
      let! board := board_set ix board (start_row + dr) (start_col + dc) (-1) in
      remove_piece board piece' start_row start_col
  end.

(** The scan of [find_first_empty] over the coordinates still to visit. *)
Fixpoint first_empty_in (coords : list cell) (board : ndarray)
    (valid_cells : pyset cell) : outcome (option cell) :=
  match coords with
  | [] => Returns None
  | (r, c) :: coords' =>
      if decide ((r, c) ∈ valid_cells) then
        let! v := board_get ix board r c in
        if decide (v = -1) then Returns (Some (r, c))
        else first_empty_in coords' board valid_cells
      else first_empty_in coords' board valid_cells
  end.

Definition find_first_empty (board : ndarray) (valid_cells : pyset cell)
  : outcome (option cell) :=
  first_empty_in (grid (range 0 BOARD_ROWS) (range 0 BOARD_COLS)) board valid_cells.

Section Loops.
Variable valid_cells : pyset cell.
(** The recursive call [solve(board, pieces_orientations, used_pieces,
    valid_cells)]. *)
Variable rec : state -> outcome (bool * state).
Variables row col : Z.

(** [for dr, dc in piece: ...] over the offsets still to try. The
    result is [true] when [solve] returned True from inside the loop,
    [false] when the loop ran to its end. *)
Fixpoint try_offsets (piece_id : nat) (piece : shape) (offsets : list cell)
    (st : state) : outcome (bool * state) :=
  match offsets with
  | [] => Returns (false, st)
  | (dr, dc) :: offsets' =>
      let start_row := row - dr in
      let start_col := col - dc in
      let! ok := can_place_piece (board st) piece start_row start_col valid_cells in
      if ok then
        let! b := place_piece (board st) piece start_row start_col (Z.of_nat piece_id) in
        let! u := list_assign (used_pieces st) piece_id true in
        let! (found, st') := rec {| board := b; used_pieces := u |} in
        if found then Returns (true, st')
        else
          let! b' := remove_piece (board st') piece start_row start_col in
          let! u' := list_assign (used_pieces st') piece_id false in
          try_offsets piece_id piece offsets' {| board := b'; used_pieces := u' |}
      else try_offsets piece_id piece offsets' st
  end.

(** [for piece in orientations: ...] *)
Fixpoint try_orientations (piece_id : nat) (orientations : list shape)
    (st : state) : outcome (bool * state) :=
  match orientations with
  | [] => Returns (false, st)
  | piece :: orientations' =>
      let! (found, st') := try_offsets piece_id piece piece st in
      if found then Returns (true, st')
      else try_orientations piece_id orientations' st'
  end.

(** [for piece_id, orientations in enumerate(pieces_orientations): ...],
    from index [piece_id] on. *)
Fixpoint try_pieces (piece_id : nat) (pieces : list (list shape))
    (st : state) : outcome (bool * state) :=
  match pieces with
  | [] => Returns (false, st)
  | orientations :: pieces' =>
      let! used := list_item (used_pieces st) piece_id in
      if used then try_pieces (S piece_id) pieces' st
      else
        let! (found, st') := try_orientations piece_id orientations st in
        if found then Returns (true, st')
        else try_pieces (S piece_id) pieces' st'
  end.
End Loops.

(** [solve]; [fuel] bounds the number of nested invocations. *)
Fixpoint solve (fuel : nat) (pieces_orientations : list (list shape))
    (valid_cells : pyset cell) (st : state) : outcome (bool * state) :=
  match fuel with
  | O => OutOfFuel
  | S fuel' =>
      let! empty := find_first_empty (board st) valid_cells in
      match empty with
      | None => Returns (true, st)
      | Some (row, col) =>
          try_pieces valid_cells (solve fuel' pieces_orientations valid_cells)
            row col 0%nat pieces_orientations st
      end
  end.

(** The loop [for cell in valid_cells: board[cell] = -1]. *)
Fixpoint clear_cells (cells : list cell) (board : ndarray) : outcome ndarray :=
  match cells with
  | [] => Returns board
  | (r, c) :: cells' =>
      let! board := board_set ix board r c (-1) in
      clear_cells cells' board
  end.

Context `{SetIteration}.

Definition solve_puzzle (fuel : nat) (month day : Z) : outcome (option ndarray) :=
  let! month_name := list_index MONTH_NAMES (month - 1) in
  let! month_pos := dict_get month_name MONTH_TO_POS in
  let! day_pos := dict_get day DAY_TO_POS in
  let valid_cells := get_all_valid_cells in
  let valid_cells := set_discard month_pos valid_cells in
  let valid_cells := set_discard day_pos valid_cells in
  let! board := clear_cells (set_iter valid_cells) (np_full (-2)) in
  let! pieces_orientations := precompute_piece_orientations in
  let used_pieces := replicate (length PIECES) false in
  let! (found, {| board := board |}) :=
    solve fuel pieces_orientations valid_cells
      {| board := board; used_pieces := used_pieces |} in
  if found then Returns (Some board) else Returns None.
End Search.

(** ** Rendering *)

(** The double-quote character of the HTML attributes. *)
Definition dq : string := String (Ascii.ascii_of_nat 34) EmptyString.

(** The line break. *)
Definition nl : string := String (Ascii.ascii_of_nat 10) EmptyString.

(** The text [html] starts with, line by line: the style sheet and the
    opening tag of the board. *)
Definition board_style : string :=
  String.concat nl
    [ EmptyString;
      "    <style>";
      "    .puzzle-board {";
      "        display: inline-block;";
      "        background: #f5e6d3;";
      "        padding: 15px;";
      "        border-radius: 10px;";
      "        box-shadow: 0 4px 8px rgba(0,0,0,0.2);";
      "    }";
      "    .puzzle-row {";
      "        display: flex;";
      "    }";
      "    .puzzle-cell {";
      "        width: 50px;";
      "        height: 50px;";
      "        display: flex;";
      "        align-items: center;";
      "        justify-content: center;";
      "        font-weight: bold;";
      "        font-size: 14px;";
      "        margin: 1px;";
      "        border-radius: 4px;";
      "    }";
      "    .empty-cell {";
      "        background: #f5e6d3;";
      "    }";
      "    .blocked-cell {";
      "        background: transparent;";
      "    }";
      "    .target-cell {";
      "        background: #f5e6d3;";
      "        border: 2px solid #8b7355;";
      "        color: #5a4a3a;";
      "    }";
      "    </style>";
      ("    <div class=" +:+ dq +:+ "puzzle-board" +:+ dq +:+ ">");
      "    " ]%string.

(** The texts appended for a cell: the literals and f-strings of
    [render_board], with the label and the colour they interpolate. *)
Definition blocked_cell_html : string :=
  ("<div class=" +:+ dq +:+ "puzzle-cell blocked-cell" +:+ dq +:+ "></div>")%string.

Definition target_cell_html (label : string) : string :=
  ("<div class=" +:+ dq +:+ "puzzle-cell target-cell" +:+ dq +:+ ">"
   +:+ label +:+ "</div>")%string.

Definition piece_cell_html (color label : string) : string :=
  ("<div class=" +:+ dq +:+ "puzzle-cell" +:+ dq +:+ " style=" +:+ dq
   +:+ "background:" +:+ color +:+ ";color:#fff;" +:+ dq +:+ ">"
   +:+ label +:+ "</div>")%string.

Definition empty_cell_html (label : string) : string :=
  ("<div class=" +:+ dq +:+ "puzzle-cell empty-cell" +:+ dq +:+ ">"
   +:+ label +:+ "</div>")%string.

Definition row_open_html : string :=
  ("<div class=" +:+ dq +:+ "puzzle-row" +:+ dq +:+ ">")%string.

(** The three-way choice that the month branch and the day branch of
    [render_board] share: the target cell of the query, a cell under a
    piece, any other cell. [is_target] is the value of
    [cell_month == month_name], respectively [cell_day == day]. *)
Definition labelled_cell_html (board : option ndarray) (r c : Z)
    (is_target : bool) (label : string) : outcome string :=
  if is_target then Returns (target_cell_html label)
  else
    match board with
    | Some b =>
        let! v := board_get numpy_indexing b r c in
        if decide (v >= 0) then
          let! v := board_get numpy_indexing b r c in
          let! color := list_index PIECE_COLORS v in
          Returns (piece_cell_html color label)
        else Returns (empty_cell_html label)
    | None => Returns (empty_cell_html label)
    end.

(** The text [render_board] appends for the cell (r, c): the body of its
    inner loop. A day is interpolated as its decimal text. *)
Definition cell_html (board : option ndarray) (month_name : string) (day r c : Z)
  : outcome string :=
  if decide ((r, c) ∈ BLOCKED) then Returns blocked_cell_html
  else if decide ((r, c) ∈ MONTHS.*1) then
    let! cell_month := dict_get (r, c) MONTHS in
    labelled_cell_html board r c (bool_decide (cell_month = month_name)) cell_month
  else if decide ((r, c) ∈ DAYS.*1) then
    let! cell_day := dict_get (r, c) DAYS in
    labelled_cell_html board r c (bool_decide (cell_day = day)) (pretty cell_day)
  else Returns (empty_cell_html EmptyString).

(** [for c in range(BOARD_COLS): ...] over the columns still to visit. *)
Fixpoint render_cells (board : option ndarray) (month_name : string) (day r : Z)
    (cols : list Z) (html : string) : outcome string :=
  match cols with
  | [] => Returns html
  | c :: cols' =>
      let! chunk := cell_html board month_name day r c in
      render_cells board month_name day r cols' (html +:+ chunk)
  end.

(** [for r in range(BOARD_ROWS): ...] over the rows still to visit. *)
Fixpoint render_rows (board : option ndarray) (month_name : string) (day : Z)
    (rows : list Z) (html : string) : outcome string :=
  match rows with
  | [] => Returns html
  | r :: rows' =>
      let html := html +:+ row_open_html in
      let! html := render_cells board month_name day r (range 0 BOARD_COLS) html in
      let html := html +:+ "</div>" in
      render_rows board month_name day rows' html
  end.

Definition render_board (board : option ndarray) (month day : Z) : outcome string :=
  let! month_name := list_index MONTH_NAMES (month - 1) in
  let html := board_style in
  let! html := render_rows board month_name day (range 0 BOARD_ROWS) html in
  Returns (html +:+ "</div>").

(** * Vocabulary of the properties *)

(** ** Shapes *)

Definition min_row (piece : shape) : outcome Z := py_min (map fst piece).
Definition min_col (piece : shape) : outcome Z := py_min (map snd piece).

(** [m] is the least element of [xs]. *)
Definition least (m : Z) (xs : list Z) : Prop :=
  m ∈ xs /\ forall x, x ∈ xs -> m <= x.

(** A shape anchored at the origin: its least row and least column are 0. *)
Definition anchored (piece : shape) : Prop :=
  min_row piece = Returns 0 /\ min_col piece = Returns 0.

(** ** Coordinates and array data *)

(** A coordinate pair within the 7x7 array. *)
Definition in_bounds (rc : cell) : Prop :=
  0 <= rc.1 < BOARD_ROWS /\ 0 <= rc.2 < BOARD_COLS.

Global Instance in_bounds_dec rc : Decision (in_bounds rc).
Proof. unfold in_bounds. apply _. Defined.

(** The position of an in-bounds cell in the row-major data. *)
Definition offset (rc : cell) : nat := Z.to_nat (rc.1 * BOARD_COLS + rc.2).

(** All the coordinates [find_first_empty] scans. *)
Definition all_coords : list cell := grid (range 0 BOARD_ROWS) (range 0 BOARD_COLS).

(** The board cells a piece covers when anchored at (start_row, start_col). *)
Definition cells_at (piece : shape) (start_row start_col : Z) : list cell :=
  map (fun '(dr, dc) => (start_row + dr, start_col + dc)) piece.

(** The data after [v] has been stored at each of [idxs] in turn. *)
Definition write_all (v : Z) (idxs : list nat) (b : ndarray) : ndarray :=
  fold_left (fun acc i => <[i:=v]> acc) idxs b.

(** [rc] resolves to position [i] of the data. *)
Definition resolves (ix : indexing) (rc : cell) (i : nat) : Prop :=
  flat_index ix rc.1 rc.2 = Returns i.

(** The number of cells of the array that hold -1. *)
Fixpoint count_empty (b : ndarray) : nat :=
  match b with
  | [] => 0
  | v :: b' => (if decide (v = -1) then 1 else 0) + count_empty b'
  end.

(** ** The loops of [solve] *)

(** The body of the innermost loop of [solve] for one offset of one
    orientation: the feasibility check and, when it passes, commit,
    recursive call and undo. [true] means [solve] returns True. *)
Definition attempt (ix : indexing) (valid_cells : pyset cell)
    (rec : state -> outcome (bool * state)) (row col : Z)
    (piece_id : nat) (piece : shape) (off : cell) (st : state)
  : outcome (bool * state) :=
  let start_row := row - off.1 in
  let start_col := col - off.2 in
  let! ok := can_place_piece ix (board st) piece start_row start_col valid_cells in
  if ok then
    let! b := place_piece ix (board st) piece start_row start_col (Z.of_nat piece_id) in
    let! u := list_assign (used_pieces st) piece_id true in
    let! (found, st') := rec {| board := b; used_pieces := u |} in
    if found then Returns (true, st')
    else
      let! b' := remove_piece ix (board st') piece start_row start_col in
      let! u' := list_assign (used_pieces st') piece_id false in
      Returns (false, {| board := b'; used_pieces := u' |})
  else Returns (false, st).

(** The recursive call leaves the state as it found it when it fails. *)
Definition restores (call : state -> outcome (bool * state)) : Prop :=
  forall st st', call st = Returns (false, st') -> st' = st.

(** [solve] with its recursive call replaced by [call]. *)
Definition solve_body (ix : indexing) (call : state -> outcome (bool * state))
    (pieces_orientations : list (list shape)) (valid_cells : pyset cell) (st : state)
  : outcome (bool * state) :=
  let! empty := find_first_empty ix (board st) valid_cells in
  match empty with
  | None => Returns (true, st)
  | Some (row, col) =>
      try_pieces ix valid_cells call row col 0%nat pieces_orientations st
  end.

(** The number of pieces not in use. *)
Fixpoint unused_count (used : list bool) : nat :=
  match used with
  | [] => 0
  | u :: used' => (if u then 0 else 1) + unused_count used'
  end.

(** The total size of the pieces that are not in use. *)
Fixpoint unused_area (used : list bool) (sizes : list nat) : nat :=
  match used, sizes with
  | u :: used', n :: sizes' => (if u then 0 else n) + unused_area used' sizes'
  | _, _ => 0
  end.

(** The state in which the recursive call of an attempt is made. *)
Definition placed (piece_id : nat) (piece : shape) (start_row start_col : Z)
    (st : state) : state :=
  {| board := write_all (Z.of_nat piece_id)
                (offset <$> cells_at piece start_row start_col) (board st);
     used_pieces := <[piece_id:=true]> (used_pieces st) |}.

(** The array is 7x7 and every piece has its flag. *)
Definition well_shaped (pieces_orientations : list (list shape)) (st : state) : Prop :=
  length (board st) = 49%nat /\
  length (used_pieces st) = length pieces_orientations.

(** Every cell of the piece anchored at (sr, sc) is playable and empty. *)
Definition placeable (valid_cells : pyset cell) (st : state) (piece : shape)
    (sr sc : Z) : Prop :=
  Forall (fun rc => rc ∈ valid_cells /\ board st !! offset rc = Some (-1))
    (cells_at piece sr sc).

(** A piece, one of its orientations and one of its offsets: what the
    three loops of [solve] enumerate for a state. *)
Definition candidate (pieces_orientations : list (list shape)) (st : state)
    (piece_id : nat) (piece : shape) (off : cell) : Prop :=
  exists orientations,
    pieces_orientations !! piece_id = Some orientations /\
    used_pieces st !! piece_id = Some false /\
    piece ∈ orientations /\ off ∈ piece.

(** The invariant of the search, for pieces of the given sizes. *)
Record consistent (pieces_orientations : list (list shape))
    (valid_cells : pyset cell) (sizes : list nat) (st : state) : Prop := {
  cons_shape : well_shaped pieces_orientations st;
  (* a cell holds -2, -1 or the id of a piece in use *)
  cons_values :
    forall i v, board st !! i = Some v ->
      v = -2 \/ v = -1 \/
      exists piece_id, v = Z.of_nat piece_id /\ used_pieces st !! piece_id = Some true;
  (* the cells outside the playable set hold -2, the playable ones do not *)
  cons_blocked :
    forall rc, in_bounds rc -> rc ∉ valid_cells -> board st !! offset rc = Some (-2);
  cons_playable :
    forall rc, rc ∈ valid_cells -> board st !! offset rc ≠ Some (-2);
  (* a piece in use covers exactly the cells of one of its orientations *)
  cons_pieces :
    forall piece_id, used_pieces st !! piece_id = Some true ->
      exists orientations piece sr sc,
        pieces_orientations !! piece_id = Some orientations /\
        piece ∈ orientations /\
        Forall (fun rc => rc ∈ valid_cells) (cells_at piece sr sc) /\
        forall rc, in_bounds rc ->
          (board st !! offset rc = Some (Z.of_nat piece_id) <-> rc ∈ cells_at piece sr sc);
  (* the empty cells are as many as the cells of the pieces not in use *)
  cons_area : count_empty (board st) = unused_area (used_pieces st) sizes
}.

(** ** Queries and solutions *)

(** The two target cells of a query. *)
Definition month_cell (month : Z) : outcome cell :=
  let! month_name := list_index MONTH_NAMES (month - 1) in
  dict_get month_name MONTH_TO_POS.

Definition day_cell (day : Z) : outcome cell := dict_get day DAY_TO_POS.

(** The playable cells of a query: [valid_cells] after the two discards. *)
Definition playable (month_pos day_pos : cell) : pyset cell :=
  set_discard day_pos (set_discard month_pos get_all_valid_cells).

(** The state in which [solve_puzzle] calls [solve]. *)
Definition initial_state `{SetIteration} (month_pos day_pos : cell) : state :=
  {| board := write_all (-1) (offset <$> set_iter (playable month_pos day_pos))
                (np_full (-2));
     used_pieces := replicate (length PIECES) false |}.

(** The sizes of the eight pieces. *)
Definition piece_sizes : list nat := length <$> PIECES.

(** The sets the generator builds for the eight pieces, in insertion order. *)
Definition orientation_sets : list (pyset shape) :=
  Eval vm_compute in
    match list_comprehension (orientations_loop 4 []) PIECES with
    | Returns sets => sets
    | _ => []
    end.

(** The cells covered by an orientation anchored at a cell. *)
Definition placement_cells (p : shape * cell) : list cell :=
  cells_at p.1 p.2.1 p.2.2.

(** [b] is a solution for the two target cells: there is one placement
    per piece, an orientation of that piece and an anchor, such that the
    cells holding the piece's id are exactly the cells of its placement,
    as many as the piece has (6 for piece 0, 5 for the others, 41 in
    all); every playable cell other than the targets holds an id in
    0..7; and no cell belongs to the placements of two pieces. *)
Definition is_solution `{SetIteration} (month_pos day_pos : cell) (b : ndarray) : Prop :=
  exists placements : list (shape * cell),
    length placements = 8%nat /\
    (forall piece_id p, placements !! piece_id = Some p ->
       (exists piece orientations,
          PIECES !! piece_id = Some piece /\
          get_all_orientations piece = Returns orientations /\
          p.1 ∈ orientations /\
          length (placement_cells p) = length piece) /\
       length (placement_cells p) = (if decide (piece_id = 0%nat) then 6%nat else 5%nat) /\
       NoDup (placement_cells p) /\
       (forall rc, rc ∈ placement_cells p ->
          rc ∈ get_all_valid_cells /\ rc ≠ month_pos /\ rc ≠ day_pos) /\
       (forall rc, in_bounds rc ->
          board_get numpy_indexing b rc.1 rc.2 = Returns (Z.of_nat piece_id)
          <-> rc ∈ placement_cells p)) /\
    (forall rc, rc ∈ get_all_valid_cells -> rc ≠ month_pos -> rc ≠ day_pos ->
       exists piece_id, (piece_id < 8)%nat /\
         board_get numpy_indexing b rc.1 rc.2 = Returns (Z.of_nat piece_id)) /\
    (forall piece_id1 piece_id2 p1 p2 rc,
       placements !! piece_id1 = Some p1 -> placements !! piece_id2 = Some p2 ->
       rc ∈ placement_cells p1 -> rc ∈ placement_cells p2 ->
       piece_id1 = piece_id2) /\
    length (placements ≫= placement_cells) = 41%nat.

(** ** The mutations of the search, step by step *)

(** A committed placement: the locals [piece_id], [piece], [start_row]
    and [start_col] of the invocation of [solve] that made it. *)
Record frame : Type := {
  frame_piece_id : nat;
  frame_piece : shape;
  frame_row : Z;
  frame_col : Z
}.

(** The cells a placement covers. *)
Definition frame_cells (f : frame) : list cell :=
  cells_at (frame_piece f) (frame_row f) (frame_col f).

(** The two ways in which [solve] changes the shared state. The list of
    frames is the chain of invocations that are waiting for a nested
    call: a placement pushes the frame of its invocation, and the undo
    that follows a failed nested call pops it, with the same piece and
    anchor. *)
Inductive search_step (pieces_orientations : list (list shape))
    (valid_cells : pyset cell) : state * list frame -> state * list frame -> Prop :=
| step_place st frames row col piece_id orientations piece off b u :
    find_first_empty numpy_indexing (board st) valid_cells = Returns (Some (row, col)) ->
    pieces_orientations !! piece_id = Some orientations ->
    list_item (used_pieces st) piece_id = Returns false ->
    piece ∈ orientations ->
    off ∈ piece ->
    can_place_piece numpy_indexing (board st) piece (row - off.1) (col - off.2)
      valid_cells = Returns true ->
    place_piece numpy_indexing (board st) piece (row - off.1) (col - off.2)
      (Z.of_nat piece_id) = Returns b ->
    list_assign (used_pieces st) piece_id true = Returns u ->
    search_step pieces_orientations valid_cells
      (st, frames)
      ({| board := b; used_pieces := u |},
       {| frame_piece_id := piece_id; frame_piece := piece;
          frame_row := row - off.1; frame_col := col - off.2 |} :: frames)
| step_remove st frames f b u :
    remove_piece numpy_indexing (board st) (frame_piece f) (frame_row f) (frame_col f)
      = Returns b ->
    list_assign (used_pieces st) (frame_piece_id f) false = Returns u ->
    search_step pieces_orientations valid_cells
      (st, f :: frames) ({| board := b; used_pieces := u |}, frames).

(** What the steps preserve: the array stays 7x7, the cells outside the
    playable set hold -2, and every pending placement lies on playable
    cells. *)
Definition untouched (valid_cells : pyset cell) (cfg : state * list frame) : Prop :=
  length (board cfg.1) = 49%nat /\
  (forall rc, in_bounds rc -> rc ∉ valid_cells -> board cfg.1 !! offset rc = Some (-2)) /\
  Forall (fun f => Forall (fun rc => rc ∈ valid_cells)
                     (cells_at (frame_piece f) (frame_row f) (frame_col f)))
    cfg.2.

(** The placements [tiling] complete the state: they use distinct pieces
    that are not in use, each in one of its orientations, they do not
    overlap, and together they cover exactly the cells that are playable
    and empty. *)
Definition completes (pieces_orientations : list (list shape))
    (valid_cells : pyset cell) (tiling : list frame) (st : state) : Prop :=
  NoDup (frame_piece_id <$> tiling) /\
  NoDup (tiling ≫= frame_cells) /\
  (forall f, f ∈ tiling ->
     used_pieces st !! frame_piece_id f = Some false /\
     exists orientations,
       pieces_orientations !! frame_piece_id f = Some orientations /\
       frame_piece f ∈ orientations) /\
  (forall rc,
     (rc ∈ valid_cells /\ board st !! offset rc = Some (-1))
     <-> rc ∈ tiling ≫= frame_cells).

(** A tiling of the board that leaves Jan and 1 uncovered. *)
Definition january_first_tiling : list frame :=
  [ {| frame_piece_id := 0; frame_row := 4; frame_col := 4;
       frame_piece := [(0, 0); (0, 1); (0, 2); (1, 0); (1, 1); (1, 2)] |};
    {| frame_piece_id := 1; frame_row := 0; frame_col := 1;
       frame_piece := [(0, 0); (0, 1); (0, 2); (0, 3); (1, 3)] |};
    {| frame_piece_id := 2; frame_row := 1; frame_col := 0;
       frame_piece := [(0, 0); (0, 1); (1, 1); (2, 1); (2, 2)] |};
    {| frame_piece_id := 3; frame_row := 4; frame_col := 1;
       frame_piece := [(0, 0); (0, 1); (1, 1); (2, 0); (2, 1)] |};
    {| frame_piece_id := 4; frame_row := 0; frame_col := 5;
       frame_piece := [(0, 0); (1, 0); (2, 0); (2, 1); (3, 1)] |};
    {| frame_piece_id := 5; frame_row := 1; frame_col := 2;
       frame_piece := [(0, 0); (0, 1); (1, 0); (1, 1); (1, 2)] |};
    {| frame_piece_id := 6; frame_row := 3; frame_col := 0;
       frame_piece := [(0, 0); (1, 0); (2, 0); (2, 1); (3, 0)] |};
    {| frame_piece_id := 7; frame_row := 3; frame_col := 3;
       frame_piece := [(0, 0); (0, 1); (0, 2); (1, 0); (2, 0)] |} ].

(** ** Shapes up to translation *)

(** [piece] moved by (t1, t2). *)
Definition translate (t1 t2 : Z) (piece : shape) : shape :=
  map (fun '(r, c) => (r + t1, c + t2)) piece.

(** [q] has the cells of [p], in any order, up to one translation. *)
Definition same_shape (p q : shape) : Prop :=
  exists t1 t2, q ≡ₚ translate t1 t2 p.

(** The quarter turn and the reflection that [rotate_piece] and
    [flip_piece] apply, before they move the result to the origin. *)
Definition quarter_turn (piece : shape) : shape := map (fun '(r, c) => (c, - r)) piece.

Definition mirror_image (piece : shape) : shape := map (fun '(r, c) => (r, - c)) piece.

(** [k] quarter turns and then, when [m] is set, the reflection. *)
Definition oriented (k : nat) (m : bool) (piece : shape) : shape :=
  let t := Nat.iter k quarter_turn piece in if m then mirror_image t else t.

(** ** Outcomes compared, coordinates wrapped *)

Global Instance exception_eq_dec : EqDecision exception.
Proof. solve_decision. Defined.

Global Instance outcome_eq_dec {A} `{EqDecision A} : EqDecision (outcome A).
Proof. solve_decision. Defined.

(** The coordinates numpy accepts on a 7x7 array. *)
Definition addressable (rc : cell) : Prop :=
  - BOARD_ROWS <= rc.1 < BOARD_ROWS /\ - BOARD_COLS <= rc.2 < BOARD_COLS.

Global Instance addressable_dec rc : Decision (addressable rc).
Proof. unfold addressable. apply _. Defined.

(** The cell an addressable coordinate pair denotes. *)
Definition wrapped (rc : cell) : cell := (rc.1 mod BOARD_ROWS, rc.2 mod BOARD_COLS).

(** ** Placements committed, pieces too few *)

(** The state after the placements of [tiling] have been committed, the
    first one first. *)
Definition place_all (tiling : list frame) (st : state) : state :=
  fold_left
    (fun st f => placed (frame_piece_id f) (frame_piece f) (frame_row f) (frame_col f) st)
    tiling st.

(** The empty cells outnumber the cells of the pieces not in use, and
    all of them are playable. *)
Definition too_few_pieces (pieces_orientations : list (list shape))
    (valid_cells : pyset cell) (sizes : list nat) (st : state) : Prop :=
  well_shaped pieces_orientations st /\
  (forall rc, in_bounds rc -> rc ∉ valid_cells -> board st !! offset rc ≠ Some (-1)) /\
  (unused_area (used_pieces st) sizes < count_empty (board st))%nat.

(** ** Rendered boards *)

(** A board [render_board] can colour: none, or a 7x7 array whose cells
    hold less than the number of colours. *)
Definition renderable (board : option ndarray) : Prop :=
  match board with
  | None => True
  | Some b =>
      length b = 49%nat /\ Forall (fun v => v < Z.of_nat (length PIECE_COLORS)) b
  end.

(** The text of a cell rendered as a target of the query. *)
Definition is_target_html (chunk : string) : Prop :=
  exists label, chunk = target_cell_html label.

(** * Properties *)

(** ** The model at work *)

Example rotate_piece_L :
  rotate_piece [(0, 0); (1, 0); (2, 0); (3, 0); (3, 1)]
  = Returns [(0, 3); (0, 2); (0, 1); (0, 0); (1, 0)].
Proof. reflexivity. Qed.

Example rotate_piece_empty : rotate_piece [] = Raises ValueError.
Proof. reflexivity. Qed.

(** A negative index wraps around under numpy indexing; an index past
    the end raises. *)
Example board_get_wraps :
  board_get numpy_indexing (write_all 5 [6%nat] (np_full (-2))) 0 (-1) = Returns 5 /\
  board_get checked_indexing (write_all 5 [6%nat] (np_full (-2))) 0 (-1)
    = Raises IndexError /\
  board_get numpy_indexing (np_full (-2)) 0 7 = Raises IndexError.
Proof. repeat split. Qed.

(** The board found for 1 January when sets are iterated in insertion
    order, and the budget it takes: eight placements and a ninth
    invocation that finds the board full. *)
Example solve_puzzle_1_1 :
  @solve_puzzle numpy_indexing insertion_order 9 1 1
  = Returns (Some [ -2;  1;  1;  1;  1;  4; -2;
                     2;  2;  5;  5;  1;  4; -2;
                    -2;  2;  5;  5;  5;  4;  4;
                     6;  2;  2;  7;  7;  7;  4;
                     6;  3;  3;  7;  0;  0;  0;
                     6;  6;  3;  7;  0;  0;  0;
                     6;  3;  3; -2; -2; -2; -2 ]) /\
  @solve_puzzle numpy_indexing insertion_order 8 1 1 = OutOfFuel.
Proof. split; vm_compute; reflexivity. Qed.

(** Outside 1..12 and 1..31 the table lookups decide: month 13 and day
    32 raise, month 0 reads [MONTH_NAMES[-1]]. *)
Example solve_puzzle_out_of_range :
  @solve_puzzle numpy_indexing insertion_order 9 13 1 = Raises IndexError /\
  @solve_puzzle numpy_indexing insertion_order 9 1 32 = Raises KeyError /\
  month_cell 0 = month_cell 12.
Proof. repeat split. Qed.

(** ** Minimum of a sequence *)

Lemma fold_left_min_least xs a :
  least (fold_left Z.min xs a) (a :: xs).
Proof.
  revert a. induction xs as [|x xs IH]; intros a; simpl.
  - split; [left|]. intros y Hy. apply list_elem_of_singleton in Hy. lia.
  - destruct (IH (Z.min a x)) as [Hin Hle]. split.
    + apply elem_of_cons in Hin as [Heq|Hin].
      * rewrite Heq. destruct (Z.min_spec a x) as [[_ ->]|[_ ->]];
          [left | right; left].
      * right; right; exact Hin.
    + intros y Hy.
      assert (Hm : fold_left Z.min xs (Z.min a x) <= Z.min a x)
        by (apply Hle; left).
      apply elem_of_cons in Hy as [->|Hy]; [lia|].
      apply elem_of_cons in Hy as [->|Hy]; [lia|].
      apply Hle. right. exact Hy.
Qed.

Lemma least_unique m m' xs : least m xs -> least m' xs -> m = m'.
Proof. intros [H1 H2] [H3 H4]. specialize (H2 _ H3). specialize (H4 _ H1). lia. Qed.

Lemma py_min_least xs m : py_min xs = Returns m <-> least m xs.
Proof.
  destruct xs as [|x xs]; simpl.
  - split; [discriminate|]. intros [Hin _]. inversion Hin.
  - split.
    + intros [= <-]. apply fold_left_min_least.
    + intros Hl. f_equal. eapply least_unique; [apply fold_left_min_least | exact Hl].
Qed.

Lemma py_min_nonempty xs : xs ≠ [] -> exists m, py_min xs = Returns m.
Proof. destruct xs; [done|]. intros _. simpl. eauto. Qed.

Lemma py_min_perm xs ys m : xs ≡ₚ ys -> py_min xs = Returns m -> py_min ys = Returns m.
Proof.
  intros Hp Hm. apply py_min_least. apply py_min_least in Hm as [Hin Hle].
  split; [by rewrite <- Hp|]. intros x Hx. apply Hle. by rewrite Hp.
Qed.

Lemma py_min_shift xs m t :
  py_min xs = Returns m -> py_min (map (fun x => x + t) xs) = Returns (m + t).
Proof.
  intros Hm. apply py_min_least. apply py_min_least in Hm as [Hin Hle]. split.
  - apply list_elem_of_fmap. exists m. split; [reflexivity | exact Hin].
  - intros y Hy. apply list_elem_of_fmap in Hy as (x & -> & Hx).
    specialize (Hle _ Hx). lia.
Qed.

(** ** Shapes: translation to the origin *)

Lemma anchored_nonempty piece : anchored piece -> piece ≠ [].
Proof. intros [Hr _] ->. discriminate Hr. Qed.

Lemma min_row_translate piece m t1 t2 :
  min_row piece = Returns m ->
  min_row (map (fun '(r, c) => (r + t1, c + t2)) piece) = Returns (m + t1).
Proof.
  unfold min_row. intros Hm.
  replace (map fst (map (fun '(r, c) => (r + t1, c + t2)) piece))
    with (map (fun x => x + t1) (map fst piece))
    by (rewrite !map_map; apply map_ext; by intros [r c]).
  by apply py_min_shift.
Qed.

Lemma min_col_translate piece m t1 t2 :
  min_col piece = Returns m ->
  min_col (map (fun '(r, c) => (r + t1, c + t2)) piece) = Returns (m + t2).
Proof.
  unfold min_col. intros Hm.
  replace (map snd (map (fun '(r, c) => (r + t1, c + t2)) piece))
    with (map (fun x => x + t2) (map snd piece))
    by (rewrite !map_map; apply map_ext; by intros [r c]).
  by apply py_min_shift.
Qed.

(** The step shared by [rotate_piece], [flip_piece] and
    [normalize_piece]: subtracting the two minima anchors the shape. *)
Lemma subtract_minima_anchored piece mr mc :
  min_row piece = Returns mr -> min_col piece = Returns mc ->
  anchored (map (fun '(r, c) => (r - mr, c - mc)) piece).
Proof.
  intros Hr Hc.
  replace (map (fun '(r, c) => (r - mr, c - mc)) piece)
    with (map (fun '(r, c) => (r + - mr, c + - mc)) piece)
    by (apply map_ext; by intros [r c]).
  split.
  - erewrite min_row_translate by exact Hr. f_equal. lia.
  - erewrite min_col_translate by exact Hc. f_equal. lia.
Qed.

Lemma min_row_nonempty piece : piece ≠ [] -> exists m, min_row piece = Returns m.
Proof. intros Hne. apply py_min_nonempty. by destruct piece. Qed.

Lemma min_col_nonempty piece : piece ≠ [] -> exists m, min_col piece = Returns m.
Proof. intros Hne. apply py_min_nonempty. by destruct piece. Qed.

(** [rotate_piece] is a quarter turn followed by a translation, and its
    result is anchored. *)
Lemma rotate_piece_spec piece :
  piece ≠ [] ->
  exists a b,
    rotate_piece piece = Returns (map (fun '(r, c) => (c + a, - r + b)) piece) /\
    anchored (map (fun '(r, c) => (c + a, - r + b)) piece).
Proof.
  intros Hne. unfold rotate_piece.
  set (rotated := map (fun '(r, c) => (c, - r)) piece).
  assert (Hne' : rotated ≠ []) by (subst rotated; by destruct piece).
  destruct (min_row_nonempty _ Hne') as [mr Hr].
  destruct (min_col_nonempty _ Hne') as [mc Hc].
  fold (min_row rotated). fold (min_col rotated). rewrite Hr, Hc. simpl.
  exists (- mr), (- mc).
  assert (Heq : map (fun '(r, c) => (r - mr, c - mc)) rotated
                = map (fun '(r, c) => (c + - mr, - r + - mc)) piece).
  { subst rotated. rewrite map_map. apply map_ext. by intros [r c]. }
  split; [by rewrite Heq|]. rewrite <- Heq. by apply subtract_minima_anchored.
Qed.

Lemma flip_piece_spec piece :
  piece ≠ [] ->
  exists a b,
    flip_piece piece = Returns (map (fun '(r, c) => (r + a, - c + b)) piece) /\
    anchored (map (fun '(r, c) => (r + a, - c + b)) piece).
Proof.
  intros Hne. unfold flip_piece.
  set (flipped := map (fun '(r, c) => (r, - c)) piece).
  assert (Hne' : flipped ≠ []) by (subst flipped; by destruct piece).
  destruct (min_row_nonempty _ Hne') as [mr Hr].
  destruct (min_col_nonempty _ Hne') as [mc Hc].
  fold (min_row flipped). fold (min_col flipped). rewrite Hr, Hc. simpl.
  exists (- mr), (- mc).
  assert (Heq : map (fun '(r, c) => (r - mr, c - mc)) flipped
                = map (fun '(r, c) => (r + - mr, - c + - mc)) piece).
  { subst flipped. rewrite map_map. apply map_ext. by intros [r c]. }
  split; [by rewrite Heq|]. rewrite <- Heq. by apply subtract_minima_anchored.
Qed.

Lemma sorted_perm xs : sorted xs ≡ₚ xs.
Proof. apply merge_sort_Permutation. Qed.

Lemma anchored_perm p q : p ≡ₚ q -> anchored p -> anchored q.
Proof.
  intros Hp [Hr Hc]. split.
  - eapply py_min_perm; [|exact Hr]. by apply fmap_Permutation.
  - eapply py_min_perm; [|exact Hc]. by apply fmap_Permutation.
Qed.

Lemma normalize_piece_spec piece :
  piece ≠ [] ->
  exists o, normalize_piece piece = Returns o /\ anchored o /\ length o = length piece.
Proof.
  intros Hne. unfold normalize_piece.
  destruct (min_row_nonempty _ Hne) as [mr Hr].
  destruct (min_col_nonempty _ Hne) as [mc Hc].
  fold (min_row piece). fold (min_col piece). rewrite Hr, Hc. simpl.
  eexists. split; [reflexivity|]. split.
  - eapply anchored_perm; [symmetry; apply sorted_perm|].
    by apply subtract_minima_anchored.
  - rewrite (Permutation_length (sorted_perm _)). apply length_map.
Qed.

(** ** Sets as duplicate-free lists *)

Section SetAdd.
Context {A : Type} `{EqDecision A}.
Implicit Types (x y : A) (s : pyset A).

Lemma set_add_elem x y s : y ∈ set_add x s <-> y = x \/ y ∈ s.
Proof.
  unfold set_add. destruct (decide (x ∈ s)) as [Hin|Hin].
  - split; [by right|]. by intros [->|?].
  - rewrite elem_of_app, list_elem_of_singleton. tauto.
Qed.

Lemma set_add_present x s : x ∈ s -> set_add x s = s.
Proof. intros Hin. unfold set_add. by rewrite decide_True. Qed.

Lemma set_add_NoDup x s : NoDup s -> NoDup (set_add x s).
Proof.
  intros Hnd. unfold set_add. destruct (decide (x ∈ s)) as [Hin|Hin]; [done|].
  apply NoDup_app. split; [done|]. split; [|apply NoDup_singleton].
  intros y Hy Hy'. apply list_elem_of_singleton in Hy'. by subst.
Qed.

Lemma set_add_length x s :
  (length s <= length (set_add x s) <= S (length s))%nat.
Proof.
  unfold set_add. destruct (decide (x ∈ s)); [lia|].
  rewrite length_app. simpl. lia.
Qed.

Lemma set_add_pos x s : (0 < length (set_add x s))%nat.
Proof.
  assert (Hin : x ∈ set_add x s) by (apply set_add_elem; by left).
  destruct (set_add x s); [inversion Hin | simpl; lia].
Qed.

Lemma set_discard_elem x y s : y ∈ set_discard x s <-> y ∈ s /\ y ≠ x.
Proof. unfold set_discard. rewrite list_elem_of_filter. tauto. Qed.

Lemma set_discard_NoDup x s : NoDup s -> NoDup (set_discard x s).
Proof. apply NoDup_filter. Qed.
End SetAdd.

(** ** The orientation generator *)

Lemma rotate_piece_length piece p : rotate_piece piece = Returns p -> length p = length piece.
Proof.
  destruct (decide (piece = [])) as [->|Hne]; [discriminate|].
  destruct (rotate_piece_spec piece Hne) as (a & b & -> & _).
  intros [= <-]. apply length_map.
Qed.

Lemma flip_piece_length piece p : flip_piece piece = Returns p -> length p = length piece.
Proof.
  destruct (decide (piece = [])) as [->|Hne]; [discriminate|].
  destruct (flip_piece_spec piece Hne) as (a & b & -> & _).
  intros [= <-]. apply length_map.
Qed.

Lemma nonempty_length (p q : shape) : length p = length q -> q ≠ [] -> p ≠ [].
Proof. intros Hl Hq ->. by destruct q. Qed.

Lemma orientations_loop_step n (s : pyset shape) (current : shape) :
  orientations_loop (S n) s current =
  (let! a := normalize_piece current in
   let! flipped := flip_piece current in
   let! b := normalize_piece flipped in
   let! rotated := rotate_piece current in
   orientations_loop n (set_add b (set_add a s)) rotated).
Proof. reflexivity. Qed.

(** One run of the generator loop: it returns, keeps the set free of
    duplicates, adds at most two shapes per round, and every shape it
    adds is anchored and as large as the input. *)
Lemma orientations_loop_spec n :
  forall (s : pyset shape) (current : shape),
    current ≠ [] ->
    exists s',
      orientations_loop n s current = Returns s' /\
      (NoDup s -> NoDup s') /\
      (forall o, o ∈ s -> o ∈ s') /\
      (length s <= length s' <= length s + 2 * n)%nat /\
      (n ≠ 0%nat -> s' ≠ []) /\
      (forall o, o ∈ s' -> o ∈ s \/ (anchored o /\ length o = length current)).
Proof.
  induction n as [|n IH]; intros s current Hne; simpl.
  - exists s. repeat split; auto; lia.
  - destruct (normalize_piece_spec current Hne) as (a & -> & Ha & Hla). simpl.
    destruct (flip_piece_spec current Hne) as (fa & fb & Hflip & Hfanch).
    rewrite Hflip. simpl.
    destruct (normalize_piece_spec _ (anchored_nonempty _ Hfanch)) as (b & -> & Hb & Hlb).
    simpl. rewrite length_map in Hlb.
    destruct (rotate_piece_spec current Hne) as (ra & rb & Hrot & Hranch).
    rewrite Hrot. simpl.
    destruct (IH (set_add b (set_add a s)) _ (anchored_nonempty _ Hranch))
      as (s' & -> & Hnd & Hsub & Hlen & _ & Hall).
    exists s'. split; [reflexivity|]. rewrite length_map in Hall.
    pose proof (set_add_length a s). pose proof (set_add_length b (set_add a s)).
    pose proof (set_add_pos b (set_add a s)).
    repeat split.
    + intros Hs. by apply Hnd, set_add_NoDup, set_add_NoDup.
    + intros o Ho. apply Hsub. apply set_add_elem. right. apply set_add_elem. by right.
    + lia.
    + lia.
    + intros _ ->. simpl in Hlen. lia.
    + intros o Ho. destruct (Hall o Ho) as [Hin|?]; [|by right].
      apply set_add_elem in Hin as [->|Hin]; [by right|].
      apply set_add_elem in Hin as [->|Hin]; [by right|by left].
Qed.

(** When a canonical form that one of the next [n] rounds will add is in
    the set already, the set grows by less than two per round. *)
Lemma orientations_loop_repeat n :
  forall k mirror (s s' : pyset shape) (current e : shape),
    (k < n)%nat ->
    canonical_form k mirror current = Returns e ->
    e ∈ s ->
    orientations_loop n s current = Returns s' ->
    (length s' + 1 <= length s + 2 * n)%nat.
Proof.
  induction n as [|n IH]; intros k mirror s s' current e Hk Hform Hin Hloop; [lia|].
  assert (Hne : current ≠ []).
  { intros ->. destruct k, mirror; discriminate Hform. }
  simpl in Hloop.
  destruct (normalize_piece_spec current Hne) as (a & Hnorm & _). rewrite Hnorm in Hloop.
  destruct (flip_piece_spec current Hne) as (fa & fb & Hflip & Hfanch).
  rewrite Hflip in Hloop. simpl in Hloop.
  destruct (normalize_piece_spec _ (anchored_nonempty _ Hfanch)) as (b & Hnb & _).
  rewrite Hnb in Hloop. simpl in Hloop.
  destruct (rotate_piece_spec current Hne) as (ra & rb & Hrot & Hranch).
  rewrite Hrot in Hloop. simpl in Hloop.
  pose proof (set_add_length a s) as Hla.
  pose proof (set_add_length b (set_add a s)) as Hlb.
  destruct k as [|k].
  - (* the repeated form is added in this very round *)
    destruct (orientations_loop_spec n (set_add b (set_add a s)) _
                (anchored_nonempty _ Hranch)) as (s'' & Hs'' & _ & _ & Hlen & _ & _).
    rewrite Hs'' in Hloop. injection Hloop as ->.
    unfold canonical_form in Hform. simpl in Hform. destruct mirror.
    + rewrite Hflip in Hform. simpl in Hform. rewrite Hnb in Hform.
      injection Hform as ->.
      assert (He : e ∈ set_add a s) by (apply set_add_elem; by right).
      rewrite (set_add_present e _ He) in Hlen. lia.
    + rewrite Hnorm in Hform. injection Hform as ->.
      rewrite (set_add_present e _ Hin) in Hlen, Hlb. lia.
  - (* it is added in a later round *)
    unfold canonical_form in Hform. simpl in Hform. rewrite Hrot in Hform.
    simpl in Hform.
    assert (He : e ∈ set_add b (set_add a s)).
    { apply set_add_elem. right. apply set_add_elem. by right. }
    specialize (IH k mirror _ s' _ e ltac:(lia) Hform He Hloop). lia.
Qed.

(** ** Claims about the orientation generator *)

(** C6. For every non-empty shape whose least row and least column are
    both 0, four successive applications of [rotate_piece] return the
    shape itself, cell for cell and in the same order. *)
Theorem rotate_piece_four_times (piece : shape) :
  min_row piece = Returns 0 ->
  min_col piece = Returns 0 ->
  rotate_times 4 piece = Returns piece.
Proof.
  intros Hr Hc.
  assert (Hne : piece ≠ []) by (apply anchored_nonempty; by split).
  destruct (rotate_piece_spec piece Hne) as (a1 & b1 & E1 & A1).
  destruct (rotate_piece_spec _ (anchored_nonempty _ A1)) as (a2 & b2 & E2 & A2).
  destruct (rotate_piece_spec _ (anchored_nonempty _ A2)) as (a3 & b3 & E3 & A3).
  destruct (rotate_piece_spec _ (anchored_nonempty _ A3)) as (a4 & b4 & E4 & A4).
  simpl. rewrite E1. simpl. rewrite E2. simpl. rewrite E3. simpl. rewrite E4. simpl.
  f_equal. clear E1 E2 E3 E4 A1 A2 A3.
  rewrite !map_map in A4 |- *.
  set (t1 := - b1 - a2 + b3 + a4). set (t2 := a1 - b2 - a3 + b4).
  assert (Heq : map (fun x : Z * Z =>
                  let '(r, c) := let '(r, c) := let '(r, c) := let '(r, c) := x in
                    (c + a1, - r + b1) in (c + a2, - r + b2) in (c + a3, - r + b3) in
                  (c + a4, - r + b4)) piece
                = map (fun '(r, c) => (r + t1, c + t2)) piece).
  { apply map_ext. intros [r c]. subst t1 t2. f_equal; lia. }
  rewrite Heq in A4 |- *. destruct A4 as [Hr4 Hc4].
  rewrite (min_row_translate piece 0 t1 t2 Hr) in Hr4.
  rewrite (min_col_translate piece 0 t1 t2 Hc) in Hc4.
  injection Hr4 as Ht1. injection Hc4 as Ht2.
  rewrite <- (map_id piece) at 2. apply map_ext. intros [r c]. f_equal; lia.
Qed.

Lemma rotate_piece_four_times_witness :
  rotate_times 4 [(0, 1); (1, 0); (1, 1); (2, 0); (3, 0)]
  = Returns [(0, 1); (1, 0); (1, 1); (2, 0); (3, 0)].
Proof. apply rotate_piece_four_times; reflexivity. Defined.

Lemma PIECES_nonempty piece : piece ∈ PIECES -> piece ≠ [].
Proof.
  intros Hin ->. unfold PIECES in Hin.
  repeat (apply elem_of_cons in Hin as [Hin|Hin]; [discriminate Hin|]).
  inversion Hin.
Qed.

Lemma get_all_orientations_spec `{SetIteration} (piece : shape) :
  piece ≠ [] ->
  exists os,
    get_all_orientations piece = Returns os /\
    (1 <= length os <= 8)%nat /\ NoDup os /\
    forall o, o ∈ os -> anchored o /\ length o = length piece.
Proof.
  intros Hne. unfold get_all_orientations.
  destruct (orientations_loop_spec 4 [] piece Hne)
    as (s & -> & Hnd & _ & Hlen & Hpos & Hall).
  simpl. eexists. split; [reflexivity|].
  pose proof (set_iter_perm _ s) as Hp.
  rewrite (Permutation_length Hp). simpl in Hlen.
  split; [split|split].
  - specialize (Hpos ltac:(done)). destruct s; [by destruct Hpos | simpl; lia].
  - lia.
  - rewrite Hp. apply Hnd, NoDup_nil_2.
  - intros o Ho. rewrite Hp in Ho.
    destruct (Hall o Ho) as [Hin|?]; [inversion Hin | done].
Qed.

(** C4. For every piece of [PIECES], [get_all_orientations] returns, and
    every orientation it returns has least row 0, least column 0 and as
    many cells as the piece. *)
Theorem orientations_anchored_same_size `{SetIteration} (piece : shape) :
  piece ∈ PIECES ->
  exists os,
    get_all_orientations piece = Returns os /\
    forall o, o ∈ os ->
      min_row o = Returns 0 /\ min_col o = Returns 0 /\ length o = length piece.
Proof.
  intros Hin.
  destruct (get_all_orientations_spec piece (PIECES_nonempty _ Hin))
    as (os & Hos & _ & _ & Hall).
  exists os. split; [exact Hos|]. intros o Ho.
  destruct (Hall o Ho) as [[Hr Hc] Hl]. done.
Qed.

Lemma orientations_anchored_same_size_witness :
  exists os,
    @get_all_orientations insertion_order [(0, 0); (0, 2); (1, 0); (1, 1); (1, 2)]
      = Returns os /\
    forall o, o ∈ os ->
      min_row o = Returns 0 /\ min_col o = Returns 0 /\
      length o = length [(0, 0); (0, 2); (1, 0); (1, 1); (1, 2)].
Proof.
  apply (@orientations_anchored_same_size insertion_order).
  unfold PIECES. do 3 apply list_elem_of_further. apply list_elem_of_here.
Defined.

(** C5. For every non-empty shape [get_all_orientations] returns between
    1 and 8 pairwise distinct anchored shapes; for a shape with a
    symmetry it returns fewer than 8; and for piece 0, the 2x3 rectangle,
    it returns fewer than 8. *)
Theorem orientation_count `{SetIteration} :
  (forall piece, piece ≠ [] ->
     exists os, get_all_orientations piece = Returns os /\
       (1 <= length os <= 8)%nat /\ NoDup os /\
       forall o, o ∈ os -> min_row o = Returns 0 /\ min_col o = Returns 0) /\
  (forall piece os, has_symmetry piece ->
     get_all_orientations piece = Returns os -> (length os < 8)%nat) /\
  (exists piece os, PIECES !! 0%nat = Some piece /\
     get_all_orientations piece = Returns os /\ (length os < 8)%nat).
Proof.
  split; [|split].
  - intros piece Hne.
    destruct (get_all_orientations_spec piece Hne) as (os & Hos & Hlen & Hnd & Hall).
    exists os. split; [exact Hos|]. split; [exact Hlen|]. split; [exact Hnd|].
    intros o Ho. by destruct (Hall o Ho) as [[? ?] _].
  - intros piece os (k & mirror & e & Hk & Hnontrivial & Hnorm & Hform).
    unfold get_all_orientations.
    destruct (orientations_loop 4 [] piece) as [s| |] eqn:Hloop; try discriminate.
    simpl. intros [= <-]. rewrite (Permutation_length (set_iter_perm _ s)).
    assert (Hne : piece ≠ []) by (intros ->; discriminate Hnorm).
    (* the first round, by hand: it puts [e] in the set *)
    rewrite orientations_loop_step, Hnorm in Hloop. cbn [obind] in Hloop.
    destruct (flip_piece_spec piece Hne) as (fa & fb & Hflip & Hfanch).
    rewrite Hflip in Hloop. cbn [obind] in Hloop.
    destruct (normalize_piece_spec _ (anchored_nonempty _ Hfanch)) as (b & Hnb & _).
    rewrite Hnb in Hloop. cbn [obind] in Hloop.
    destruct (rotate_piece_spec piece Hne) as (ra & rb & Hrot & Hranch).
    rewrite Hrot in Hloop. cbn [obind] in Hloop.
    assert (He : e ∈ set_add e []) by (apply set_add_elem; by left).
    pose proof (set_add_length b (set_add e [])) as Hlb.
    change (length (set_add e [])) with 1%nat in Hlb.
    destruct k as [|k].
    + destruct Hnontrivial as [?| ->]; [done|].
      unfold canonical_form in Hform. simpl in Hform.
      rewrite Hflip in Hform. simpl in Hform. rewrite Hnb in Hform.
      injection Hform as ->. rewrite (set_add_present e _ He) in Hloop.
      destruct (orientations_loop_spec 3 (set_add e []) _ (anchored_nonempty _ Hranch))
        as (s' & Hs' & _ & _ & Hlen & _).
      rewrite Hs' in Hloop. injection Hloop as ->.
      change (length (set_add e [])) with 1%nat in Hlen. lia.
    + unfold canonical_form in Hform. simpl in Hform. rewrite Hrot in Hform.
      simpl in Hform.
      assert (He' : e ∈ set_add b (set_add e [])) by (apply set_add_elem; by right).
      pose proof (orientations_loop_repeat 3 k mirror _ _ _ e ltac:(lia) Hform He' Hloop).
      lia.
  - set (piece := [(0, 0); (0, 1); (1, 0); (1, 1); (2, 0); (2, 1)]).
    set (s := [ [(0, 0); (0, 1); (1, 0); (1, 1); (2, 0); (2, 1)];
                [(0, 0); (0, 1); (0, 2); (1, 0); (1, 1); (1, 2)] ]).
    assert (Hloop : orientations_loop 4 [] piece = Returns s) by (vm_compute; reflexivity).
    exists piece, (set_iter s). split; [reflexivity|]. split.
    + unfold get_all_orientations. rewrite Hloop. reflexivity.
    + rewrite (Permutation_length (set_iter_perm _ s)). simpl. lia.
Qed.

Lemma orientation_count_witness :
  (exists os,
     @get_all_orientations insertion_order [(0, 0); (0, 1); (1, 0); (1, 1)] = Returns os /\
     (1 <= length os <= 8)%nat /\ NoDup os /\
     forall o, o ∈ os -> min_row o = Returns 0 /\ min_col o = Returns 0) /\
  (length [[(0, 0); (0, 1); (1, 0); (1, 1)]%Z] < 8)%nat.
Proof.
  destruct (@orientation_count insertion_order) as (Hall & Hsym & _). split.
  - apply Hall. discriminate.
  - apply (Hsym [(0, 0); (0, 1); (1, 0); (1, 1)]).
    + exists 1%nat, false, [(0, 0); (0, 1); (1, 0); (1, 1)].
      repeat split; [lia | by left].
    + vm_compute. reflexivity.
Defined.

(** ** The board array: coordinates and writes *)

Lemma flat_index_in_bounds ix r c :
  in_bounds (r, c) -> flat_index ix r c = Returns (offset (r, c)).
Proof.
  intros [Hr Hc]. simpl in Hr, Hc. unfold flat_index, axis_index.
  rewrite !decide_True by done. reflexivity.
Qed.

Lemma offset_inj a b : in_bounds a -> in_bounds b -> offset a = offset b -> a = b.
Proof.
  destruct a as [r c], b as [r' c']. unfold in_bounds, offset, BOARD_ROWS, BOARD_COLS.
  simpl. intros ? ? Heq. f_equal; lia.
Qed.

Lemma offset_lt a : in_bounds a -> (offset a < 49)%nat.
Proof.
  destruct a as [r c]. unfold in_bounds, offset, BOARD_ROWS, BOARD_COLS. simpl. lia.
Qed.

(** Every position of the data is the offset of an in-bounds cell. *)
Lemma offset_surj i : (i < 49)%nat -> exists rc, in_bounds rc /\ offset rc = i.
Proof.
  intros Hi. exists (Z.of_nat i / 7, Z.of_nat i mod 7).
  unfold in_bounds, offset, BOARD_ROWS, BOARD_COLS. simpl.
  pose proof (Z.mod_pos_bound (Z.of_nat i) 7 ltac:(lia)).
  pose proof (Z.div_mod (Z.of_nat i) 7 ltac:(lia)).
  assert (0 <= Z.of_nat i / 7 < 7).
  { split; [apply Z.div_pos; lia | apply Z.div_lt_upper_bound; lia]. }
  split; [lia|]. lia.
Qed.

Lemma write_all_length v idxs b : length (write_all v idxs b) = length b.
Proof.
  unfold write_all. revert b.
  induction idxs as [|i idxs IH]; intros b; simpl; [done|].
  rewrite IH. apply length_insert.
Qed.

Lemma write_all_lookup v idxs b j :
  write_all v idxs b !! j =
  if decide (j ∈ idxs /\ (j < length b)%nat) then Some v else b !! j.
Proof.
  unfold write_all. revert b. induction idxs as [|i idxs IH]; intros b.
  - cbn [fold_left]. destruct (decide _) as [[Hin _]|_]; [inversion Hin | done].
  - cbn [fold_left]. rewrite IH, length_insert.
    destruct (decide (j ∈ idxs /\ (j < length b)%nat)) as [[Hin Hlt]|Hn];
      destruct (decide (j ∈ i :: idxs /\ (j < length b)%nat)) as [[Hin' Hlt']|Hn'].
    + done.
    + exfalso. apply Hn'. split; [by right | done].
    + apply elem_of_cons in Hin' as [->|Hin']; [|tauto].
      by rewrite list_lookup_insert_eq.
    + destruct (decide (i = j)) as [->|Hij].
      * rewrite list_insert_ge; [done|].
        destruct (decide (j < length b)%nat); [|lia].
        exfalso. apply Hn'. split; [by left | done].
      * by rewrite list_lookup_insert_ne.
Qed.

(** Storing -1 over cells that were filled from -1 gives the data back. *)
Lemma write_all_undo v idxs b :
  Forall (fun i => b !! i = Some (-1)) idxs ->
  write_all (-1) idxs (write_all v idxs b) = b.
Proof.
  intros Hall. apply list_eq. intros j.
  rewrite !write_all_lookup, write_all_length.
  destruct (decide (j ∈ idxs /\ (j < length b)%nat)) as [[Hin _]|_]; [|done].
  rewrite Forall_forall in Hall. symmetry. by apply Hall.
Qed.

Section BoardFacts.
Variable ix : indexing.
Local Abbreviation resolves := (resolves ix).

Lemma board_get_Returns b r c v :
  board_get ix b r c = Returns v <->
  exists i, resolves (r, c) i /\ b !! i = Some v.
Proof.
  unfold board_get, resolves. simpl. destruct (flat_index ix r c) as [i| |]; simpl.
  - split.
    + destruct (b !! i) eqn:E; [|discriminate]. intros [= ->]. eauto.
    + intros (i' & [= <-] & ->). reflexivity.
  - split; [discriminate|]. by intros (i' & ? & _).
  - split; [discriminate|]. by intros (i' & ? & _).
Qed.

Lemma board_set_Returns b r c v i :
  resolves (r, c) i -> (i < length b)%nat ->
  board_set ix b r c v = Returns (<[i:=v]> b).
Proof.
  unfold board_set, resolves. simpl. intros -> Hlt. simpl.
  by rewrite decide_True.
Qed.

Lemma remove_piece_place_piece b piece sr sc :
  remove_piece ix b piece sr sc = place_piece ix b piece sr sc (-1).
Proof.
  revert b. induction piece as [|[dr dc] piece IH]; intros b; simpl; [done|].
  destruct (board_set ix b (sr + dr) (sc + dc) (-1)); simpl; auto.
Qed.

Lemma place_piece_write_all b piece sr sc v idxs :
  Forall2 resolves (cells_at piece sr sc) idxs ->
  Forall (fun i => (i < length b)%nat) idxs ->
  place_piece ix b piece sr sc v = Returns (write_all v idxs b).
Proof.
  revert b idxs. induction piece as [|[dr dc] piece IH]; intros b idxs H2 Hlt; simpl in *.
  - by inversion H2; subst.
  - inversion H2 as [|? i ? idxs' Hres H2']; subst.
    inversion Hlt as [|? ? Hi Hlt']; subst.
    rewrite (board_set_Returns _ _ _ _ i) by done. simpl.
    apply IH; [done|]. eapply Forall_impl; [exact Hlt'|].
    intros j Hj. simpl. by rewrite length_insert.
Qed.

(** What a successful feasibility check establishes. *)
Lemma can_place_piece_true b piece sr sc valid :
  can_place_piece ix b piece sr sc valid = Returns true ->
  Forall (fun rc => rc ∈ valid) (cells_at piece sr sc) /\
  exists idxs,
    Forall2 resolves (cells_at piece sr sc) idxs /\
    Forall (fun i => b !! i = Some (-1)) idxs.
Proof.
  induction piece as [|[dr dc] piece IH]; simpl.
  - intros _. split; [constructor|]. exists []. split; constructor.
  - destruct (decide ((sr + dr, sc + dc) ∉ valid)) as [|Hin]; [discriminate|].
    destruct (board_get ix b (sr + dr) (sc + dc)) as [v| |] eqn:Hget; try discriminate.
    simpl. destruct (decide (v ≠ -1)) as [|Hv]; [discriminate|].
    intros Hrest. destruct (IH Hrest) as (Hvalid & idxs & H2 & Hall).
    apply dec_stable in Hin. apply dec_stable in Hv. subst v.
    apply board_get_Returns in Hget as (i & Hres & Hi).
    split; [by constructor|]. exists (i :: idxs). split; by constructor.
Qed.

(** Placing a piece where the check passed and then removing it again
    leaves the array as it was. *)
Lemma place_then_remove b piece sr sc valid v :
  can_place_piece ix b piece sr sc valid = Returns true ->
  exists b',
    place_piece ix b piece sr sc v = Returns b' /\
    remove_piece ix b' piece sr sc = Returns b.
Proof.
  intros Hok. destruct (can_place_piece_true _ _ _ _ _ Hok) as (_ & idxs & H2 & Hall).
  assert (Hlt : Forall (fun i => (i < length b)%nat) idxs).
  { eapply Forall_impl; [exact Hall|]. intros i Hi. simpl in Hi.
    eapply lookup_lt_Some, Hi. }
  exists (write_all v idxs b). split; [by apply place_piece_write_all|].
  rewrite remove_piece_place_piece.
  rewrite (place_piece_write_all _ _ _ _ _ idxs); [|done|].
  - by rewrite write_all_undo.
  - eapply Forall_impl; [exact Hlt|]. intros i Hi. simpl. by rewrite write_all_length.
Qed.
End BoardFacts.

(** ** The loops of [solve] *)

Section LoopFacts.
Variable ix : indexing.
Variable valid_cells : pyset cell.
Variable rec : state -> outcome (bool * state).
Variables row col : Z.
Local Abbreviation attempt := (attempt ix valid_cells rec row col).

Lemma try_offsets_step piece_id piece off offsets st :
  try_offsets ix valid_cells rec row col piece_id piece (off :: offsets) st =
  (let! (found, st') := attempt piece_id piece off st in
   if found then Returns (true, st')
   else try_offsets ix valid_cells rec row col piece_id piece offsets st').
Proof.
  destruct off as [dr dc]. unfold attempt. cbn [try_offsets fst snd].
  destruct (can_place_piece ix (board st) piece (row - dr) (col - dc) valid_cells)
    as [[|]| |]; cbn [obind]; try reflexivity.
  destruct (place_piece ix (board st) piece (row - dr) (col - dc) (Z.of_nat piece_id))
    as [b| |]; cbn [obind]; try reflexivity.
  destruct (list_assign (used_pieces st) piece_id true) as [u| |];
    cbn [obind]; try reflexivity.
  destruct (rec {| board := b; used_pieces := u |}) as [[[|] st']| |];
    cbn [obind]; try reflexivity.
  destruct (remove_piece ix (board st') piece (row - dr) (col - dc)) as [b'| |];
    cbn [obind]; try reflexivity.
  destruct (list_assign (used_pieces st') piece_id false) as [u'| |];
    cbn [obind]; reflexivity.
Qed.

Hypothesis rec_restores : restores rec.

Lemma attempt_restores piece_id piece off st st' :
  used_pieces st !! piece_id = Some false ->
  attempt piece_id piece off st = Returns (false, st') -> st' = st.
Proof.
  intros Hunused. unfold attempt.
  destruct (can_place_piece ix (board st) piece (row - off.1) (col - off.2) valid_cells)
    as [[|]| |] eqn:Hok; cbn [obind]; try discriminate; [|by intros [= <-]].
  destruct (place_then_remove ix _ _ _ _ _ (Z.of_nat piece_id) Hok) as (b & -> & Hrem).
  cbn [obind]. unfold list_assign at 1.
  destruct (decide (piece_id < length (used_pieces st))%nat) as [Hlt|];
    [|discriminate]. cbn [obind].
  destruct (rec _) as [[[|] st1]| |] eqn:Hrec; cbn [obind]; try discriminate.
  apply rec_restores in Hrec. subst st1. cbn [board used_pieces].
  rewrite Hrem. cbn [obind]. unfold list_assign.
  rewrite length_insert, decide_True by done. cbn [obind].
  intros [= <-]. destruct st as [b0 u0]. cbn [board used_pieces] in *.
  f_equal. rewrite list_insert_insert_eq. by apply list_insert_id.
Qed.

Lemma try_offsets_cases piece_id piece offsets st :
  used_pieces st !! piece_id = Some false ->
  (try_offsets ix valid_cells rec row col piece_id piece offsets st = Returns (false, st) /\
   forall off, off ∈ offsets -> attempt piece_id piece off st = Returns (false, st))
  \/
  (exists off, off ∈ offsets /\
     try_offsets ix valid_cells rec row col piece_id piece offsets st
     = attempt piece_id piece off st /\
     attempt piece_id piece off st ≠ Returns (false, st)).
Proof.
  intros Hunused. induction offsets as [|off offsets IH].
  - left. split; [reflexivity|]. intros off Hoff. inversion Hoff.
  - rewrite try_offsets_step.
    destruct (attempt piece_id piece off st) as [[[|] st1]| |] eqn:Hatt; cbn [obind].
    + right. exists off. rewrite Hatt. split; [left|done].
    + apply attempt_restores in Hatt as Heq; [|done]. subst st1.
      destruct IH as [[Hall Hfail]|(off' & Hin & Heq & Hne)].
      * left. split; [done|]. intros off' Hin.
        apply elem_of_cons in Hin as [->|Hin]; auto.
      * right. exists off'. split; [by right | done].
    + right. exists off. rewrite Hatt. split; [left|done].
    + right. exists off. rewrite Hatt. split; [left|done].
Qed.

Lemma try_orientations_cases piece_id orientations st :
  used_pieces st !! piece_id = Some false ->
  (try_orientations ix valid_cells rec row col piece_id orientations st
     = Returns (false, st) /\
   forall piece off, piece ∈ orientations -> off ∈ piece ->
     attempt piece_id piece off st = Returns (false, st))
  \/
  (exists piece off, piece ∈ orientations /\ off ∈ piece /\
     try_orientations ix valid_cells rec row col piece_id orientations st
     = attempt piece_id piece off st /\
     attempt piece_id piece off st ≠ Returns (false, st)).
Proof.
  intros Hunused. induction orientations as [|piece orientations IH].
  - left. split; [reflexivity|]. intros piece off Hin. inversion Hin.
  - cbn [try_orientations].
    destruct (try_offsets_cases piece_id piece piece st Hunused)
      as [[-> Hfail]|(off & Hin & -> & Hne)].
    + cbn [obind].
      destruct IH as [[Hall Hfail']|(piece' & off' & Hin & Hoff & Heq & Hne)].
      * left. split; [done|]. intros piece' off' Hin Hoff.
        apply elem_of_cons in Hin as [->|Hin]; auto.
      * right. exists piece', off'. split; [by right | done].
    + right. exists piece, off. split; [left|]. split; [done|]. split; [|done].
      destruct (attempt piece_id piece off st) as [[[|] st1]| |] eqn:Hatt;
        cbn [obind]; try reflexivity.
      apply attempt_restores in Hatt; [|done]. by subst.
Qed.

(** The three loops together, seen from the state [st] at entry: either
    every attempt fails and the state is as at entry, or the loops end
    with the outcome of the first attempt that does not fail, or a
    piece has no flag in [used_pieces]. *)
Lemma try_pieces_cases k (pieces pieces_orientations : list (list shape)) st :
  drop k pieces_orientations = pieces ->
  (try_pieces ix valid_cells rec row col k pieces st = Returns (false, st) /\
   forall piece_id orientations piece off,
     (k <= piece_id)%nat ->
     pieces_orientations !! piece_id = Some orientations ->
     used_pieces st !! piece_id = Some false ->
     piece ∈ orientations -> off ∈ piece ->
     attempt piece_id piece off st = Returns (false, st))
  \/
  (exists piece_id orientations piece off,
     pieces_orientations !! piece_id = Some orientations /\
     used_pieces st !! piece_id = Some false /\
     piece ∈ orientations /\ off ∈ piece /\
     try_pieces ix valid_cells rec row col k pieces st = attempt piece_id piece off st /\
     attempt piece_id piece off st ≠ Returns (false, st))
  \/
  (exists piece_id,
     is_Some (pieces_orientations !! piece_id) /\
     used_pieces st !! piece_id = None /\
     try_pieces ix valid_cells rec row col k pieces st = Raises IndexError).
Proof.
  revert k. induction pieces as [|orientations pieces IH]; intros k Hdrop.
  - left. split; [reflexivity|].
    intros piece_id orientations piece off Hk Hpo. exfalso.
    assert (Hnone : drop k pieces_orientations !! (piece_id - k)%nat = None)
      by (by rewrite Hdrop).
    rewrite lookup_drop in Hnone.
    replace (k + (piece_id - k))%nat with piece_id in Hnone by lia. congruence.
  - assert (Hk : pieces_orientations !! k = Some orientations).
    { assert (Hhd : drop k pieces_orientations !! 0%nat = Some orientations)
        by (by rewrite Hdrop).
      rewrite lookup_drop in Hhd. by rewrite Nat.add_0_r in Hhd. }
    assert (Hdrop' : drop (S k) pieces_orientations = pieces).
    { replace (S k) with (k + 1)%nat by lia. by rewrite <- drop_drop, Hdrop. }
    specialize (IH (S k) Hdrop'). cbn [try_pieces]. unfold list_item.
    destruct (used_pieces st !! k) as [[|]|] eqn:Hused; cbn [obind].
    + (* the piece is in use: skipped *)
      destruct IH as [[Hall Hfail]|[?|?]]; [|by right; left|by right; right].
      left. split; [done|].
      intros piece_id orientations' piece off Hle Hpo Hunused Hin Hoff.
      destruct (decide (piece_id = k)) as [->|]; [congruence|].
      apply (Hfail piece_id orientations'); auto with lia.
    + destruct (try_orientations_cases k orientations st Hused)
        as [[-> Hfail]|(piece & off & Hin & Hoff & -> & Hne)].
      * cbn [obind].
        destruct IH as [[Hall Hfail']|[?|?]]; [|by right; left|by right; right].
        left. split; [done|].
        intros piece_id orientations' piece off Hle Hpo Hunused Hin Hoff.
        destruct (decide (piece_id = k)) as [->|].
        -- rewrite Hk in Hpo. injection Hpo as <-. by apply Hfail.
        -- apply (Hfail' piece_id orientations'); auto with lia.
      * right; left. exists k, orientations, piece, off.
        do 4 (split; [done|]). split; [|done].
        destruct (attempt k piece off st) as [[[|] st1]| |] eqn:Hatt;
          cbn [obind]; try reflexivity.
        apply attempt_restores in Hatt; [|done]. by subst.
    + right; right. exists k. by rewrite Hk.
Qed.
End LoopFacts.

(** ** Failure restores the shared state *)

Lemma solve_restores ix fuel pieces_orientations valid_cells :
  restores (solve ix fuel pieces_orientations valid_cells).
Proof.
  induction fuel as [|fuel IH]; intros st st'; cbn [solve]; [discriminate|].
  destruct (find_first_empty ix (board st) valid_cells) as [[[row col]|]| |];
    cbn [obind]; try discriminate.
  destruct (try_pieces_cases ix valid_cells _ row col IH 0 pieces_orientations
              pieces_orientations st eq_refl)
    as [[-> _]|[(pid & os & piece & off & _ & Hunused & _ & _ & -> & _)
               |(pid & _ & _ & ->)]].
  - by intros [= <-].
  - by apply attempt_restores.
  - discriminate.
Qed.

(** C3. Whenever [solve] returns False, the board array and the
    [used_pieces] list are equal to their values at entry. *)
Theorem solve_failure_restores_state
    (fuel : nat) (pieces_orientations : list (list shape)) (valid_cells : pyset cell)
    (st st' : state) :
  solve numpy_indexing fuel pieces_orientations valid_cells st = Returns (false, st') ->
  board st' = board st /\ used_pieces st' = used_pieces st.
Proof.
  (* [solve_restores]: by induction on the budget, every failed attempt
     having undone its placement and its flag *)
  intros Hfail.
  apply (solve_restores numpy_indexing fuel pieces_orientations valid_cells) in Hfail.
  subst st'. split; reflexivity.
Qed.

(** Three cells in the top row, one domino: the domino is placed on the
    first two cells, the nested call fails on the third, and the
    placement is undone. *)
Lemma solve_failure_restores_state_witness :
  let st := {| board := write_all (-1) [0; 1; 2]%nat (np_full (-2));
               used_pieces := [false] |} in
  solve numpy_indexing 2 [[[(0, 0); (0, 1)]]] [(0, 0); (0, 1); (0, 2)] st
    = Returns (false, st) /\
  board st = board st /\ used_pieces st = used_pieces st.
Proof.
  intros st. split; [reflexivity|].
  apply (solve_failure_restores_state 2 [[[(0, 0); (0, 1)]]] [(0, 0); (0, 1); (0, 2)]).
  reflexivity.
Defined.

(** ** Recursion depth *)

Lemma unused_count_length used : (unused_count used <= length used)%nat.
Proof. induction used as [|[|] used IH]; simpl; lia. Qed.

Lemma unused_count_insert used i :
  used !! i = Some false ->
  S (unused_count (<[i:=true]> used)) = unused_count used.
Proof.
  revert i. induction used as [|u used IH]; intros [|i]; simpl; try discriminate.
  - by intros [= ->].
  - intros Hi. rewrite <- (IH i Hi). lia.
Qed.

Lemma solve_unfold ix fuel pieces_orientations valid_cells st :
  solve ix (S fuel) pieces_orientations valid_cells st
  = solve_body ix (solve ix fuel pieces_orientations valid_cells)
      pieces_orientations valid_cells st.
Proof. reflexivity. Qed.

Section Calls.
Variable ix : indexing.
Variable valid_cells : pyset cell.
Variables rec1 rec2 : state -> outcome (bool * state).
Variables row col : Z.
Hypothesis rec1_restores : restores rec1.

(** The one recursive call of an attempt is made with one more piece
    in use. *)
Lemma attempt_calls piece_id piece off st :
  used_pieces st !! piece_id = Some false ->
  (forall st1, S (unused_count (used_pieces st1)) = unused_count (used_pieces st) ->
     rec1 st1 = rec2 st1) ->
  attempt ix valid_cells rec1 row col piece_id piece off st
  = attempt ix valid_cells rec2 row col piece_id piece off st.
Proof.
  intros Hunused Hagree. unfold attempt.
  destruct (can_place_piece _ _ _ _ _ _) as [[|]| |]; cbn [obind]; try reflexivity.
  destruct (place_piece _ _ _ _ _ _) as [b| |]; cbn [obind]; try reflexivity.
  unfold list_assign at 1 3.
  destruct (decide (piece_id < length (used_pieces st))%nat); cbn [obind];
    [|reflexivity].
  rewrite Hagree; [reflexivity|]. cbn [used_pieces].
  by apply unused_count_insert.
Qed.

Lemma try_offsets_calls piece_id piece offsets st :
  used_pieces st !! piece_id = Some false ->
  (forall st1, S (unused_count (used_pieces st1)) = unused_count (used_pieces st) ->
     rec1 st1 = rec2 st1) ->
  try_offsets ix valid_cells rec1 row col piece_id piece offsets st
  = try_offsets ix valid_cells rec2 row col piece_id piece offsets st.
Proof.
  intros Hunused Hagree. induction offsets as [|off offsets IH]; [reflexivity|].
  rewrite !try_offsets_step, <- (attempt_calls _ _ _ _ Hunused Hagree).
  destruct (attempt ix valid_cells rec1 row col piece_id piece off st)
    as [[[|] st1]| |] eqn:Hatt; cbn [obind]; try reflexivity.
  apply attempt_restores in Hatt; [|done|done]. by subst.
Qed.

Lemma try_orientations_calls piece_id orientations st :
  used_pieces st !! piece_id = Some false ->
  (forall st1, S (unused_count (used_pieces st1)) = unused_count (used_pieces st) ->
     rec1 st1 = rec2 st1) ->
  try_orientations ix valid_cells rec1 row col piece_id orientations st
  = try_orientations ix valid_cells rec2 row col piece_id orientations st.
Proof.
  intros Hunused Hagree.
  induction orientations as [|piece orientations IH]; [reflexivity|].
  cbn [try_orientations]. rewrite <- (try_offsets_calls _ _ _ _ Hunused Hagree).
  destruct (try_offsets_cases ix valid_cells rec1 row col rec1_restores
              piece_id piece piece st Hunused) as [[-> _]|(off & _ & -> & Hne)].
  - cbn [obind]. exact IH.
  - destruct (attempt _ _ _ _ _ _ _ _ _) as [[[|] st1]| |] eqn:Hatt;
      cbn [obind]; try reflexivity.
    apply attempt_restores in Hatt; [|done|done]. by subst.
Qed.

Lemma try_pieces_calls k (pieces : list (list shape)) st :
  (forall st1, S (unused_count (used_pieces st1)) = unused_count (used_pieces st) ->
     rec1 st1 = rec2 st1) ->
  try_pieces ix valid_cells rec1 row col k pieces st
  = try_pieces ix valid_cells rec2 row col k pieces st.
Proof.
  intros Hagree. revert k.
  induction pieces as [|orientations pieces IH]; intros k; [reflexivity|].
  cbn [try_pieces]. unfold list_item.
  destruct (used_pieces st !! k) as [[|]|] eqn:Hused; cbn [obind];
    [apply IH| |reflexivity].
  rewrite <- (try_orientations_calls _ _ _ Hused Hagree).
  destruct (try_orientations_cases ix valid_cells rec1 row col rec1_restores
              k orientations st Hused) as [[-> _]|(piece & off & _ & _ & -> & Hne)].
  - cbn [obind]. apply IH.
  - destruct (attempt _ _ _ _ _ _ _ _ _) as [[[|] st1]| |] eqn:Hatt;
      cbn [obind]; try reflexivity.
    apply attempt_restores in Hatt; [|done|done]. by subst.
Qed.
End Calls.

(** The array and list operations are not recursive calls of [solve]:
    they never exhaust the nesting budget. *)
Section Budget.
Variable ix : indexing.

Lemma flat_index_budget r c : flat_index ix r c ≠ OutOfFuel.
Proof.
  assert (Haxis : forall n i, axis_index ix n i ≠ OutOfFuel).
  { intros n i. unfold axis_index. destruct ix; repeat case_decide; discriminate. }
  unfold flat_index. pose proof (Haxis BOARD_ROWS r).
  destruct (axis_index ix BOARD_ROWS r); cbn [obind]; [|discriminate|done].
  pose proof (Haxis BOARD_COLS c).
  destruct (axis_index ix BOARD_COLS c); cbn [obind]; [discriminate|discriminate|done].
Qed.

Lemma board_get_budget b r c : board_get ix b r c ≠ OutOfFuel.
Proof.
  unfold board_get. pose proof (flat_index_budget r c).
  destruct (flat_index ix r c) as [i| |]; cbn [obind]; [|discriminate|done].
  destruct (b !! i); discriminate.
Qed.

Lemma board_set_budget b r c v : board_set ix b r c v ≠ OutOfFuel.
Proof.
  unfold board_set. pose proof (flat_index_budget r c).
  destruct (flat_index ix r c) as [i| |]; cbn [obind]; [|discriminate|done].
  case_decide; discriminate.
Qed.

Lemma can_place_piece_budget b piece sr sc valid :
  can_place_piece ix b piece sr sc valid ≠ OutOfFuel.
Proof.
  induction piece as [|[dr dc] piece IH]; cbn [can_place_piece]; [discriminate|].
  case_decide; [discriminate|].
  pose proof (board_get_budget b (sr + dr) (sc + dc)).
  destruct (board_get ix b (sr + dr) (sc + dc)); cbn [obind]; [|discriminate|done].
  case_decide; [discriminate|done].
Qed.

Lemma place_piece_budget b piece sr sc v :
  place_piece ix b piece sr sc v ≠ OutOfFuel.
Proof.
  revert b. induction piece as [|[dr dc] piece IH]; intros b;
    cbn [place_piece]; [discriminate|].
  pose proof (board_set_budget b (sr + dr) (sc + dc) v).
  destruct (board_set ix b (sr + dr) (sc + dc) v); cbn [obind];
    [apply IH|discriminate|done].
Qed.

Lemma first_empty_in_budget coords b valid :
  first_empty_in ix coords b valid ≠ OutOfFuel.
Proof.
  induction coords as [|[r c] coords IH]; cbn [first_empty_in]; [discriminate|].
  case_decide; [|done].
  pose proof (board_get_budget b r c).
  destruct (board_get ix b r c); cbn [obind]; [|discriminate|done].
  case_decide; [discriminate|done].
Qed.

Lemma list_assign_budget {A} (xs : list A) i v : list_assign xs i v ≠ OutOfFuel.
Proof. unfold list_assign. case_decide; discriminate. Qed.

Variable pieces_orientations : list (list shape).
Variable valid_cells : pyset cell.

(** A call of [solve] needs a budget of one invocation more than there
    are pieces not in use. *)
Lemma solve_budget fuel st :
  (unused_count (used_pieces st) < fuel)%nat ->
  solve ix fuel pieces_orientations valid_cells st ≠ OutOfFuel.
Proof.
  revert st. induction fuel as [|fuel IH]; intros st Hfuel; [lia|].
  cbn [solve]. pose proof (first_empty_in_budget
    (grid (range 0 BOARD_ROWS) (range 0 BOARD_COLS)) (board st) valid_cells) as Hfe.
  fold (find_first_empty ix (board st) valid_cells) in Hfe.
  destruct (find_first_empty ix (board st) valid_cells) as [[[row col]|]| |];
    cbn [obind]; [|discriminate|discriminate|done].
  destruct (try_pieces_cases ix valid_cells _ row col
              (solve_restores ix fuel pieces_orientations valid_cells)
              0 pieces_orientations pieces_orientations st eq_refl)
    as [[-> _]|[(pid & os & piece & off & _ & Hunused & _ & _ & -> & _)
               |(pid & _ & _ & ->)]]; [discriminate| |discriminate].
  unfold attempt.
  pose proof (can_place_piece_budget (board st) piece (row - off.1) (col - off.2)
                valid_cells).
  destruct (can_place_piece _ _ _ _ _ _) as [[|]| |]; cbn [obind];
    [|discriminate|discriminate|done].
  pose proof (place_piece_budget (board st) piece (row - off.1) (col - off.2)
                (Z.of_nat pid)).
  destruct (place_piece _ _ _ _ _ _) as [b| |]; cbn [obind]; [|discriminate|done].
  unfold list_assign at 1.
  case_decide; cbn [obind]; [|discriminate].
  assert (Hrec : solve ix fuel pieces_orientations valid_cells
                   {| board := b; used_pieces := <[pid:=true]> (used_pieces st) |}
                 ≠ OutOfFuel).
  { apply IH. cbn [used_pieces]. pose proof (unused_count_insert _ _ Hunused). lia. }
  destruct (solve ix fuel _ _ _) as [[[|] st1]| |]; cbn [obind];
    [discriminate| |discriminate|done].
  rewrite remove_piece_place_piece.
  pose proof (place_piece_budget (board st1) piece (row - off.1) (col - off.2) (-1)).
  destruct (place_piece _ _ _ _ _ _) as [b'| |]; cbn [obind]; [|discriminate|done].
  pose proof (list_assign_budget (used_pieces st1) pid false).
  destruct (list_assign _ _ _); cbn [obind]; [discriminate|discriminate|done].
Qed.

(** Above that budget the outcome no longer depends on it. *)
Lemma solve_budget_irrelevant fuel1 :
  forall fuel2 st,
    (unused_count (used_pieces st) < fuel1)%nat ->
    (unused_count (used_pieces st) < fuel2)%nat ->
    solve ix fuel1 pieces_orientations valid_cells st
    = solve ix fuel2 pieces_orientations valid_cells st.
Proof.
  induction fuel1 as [|fuel1 IH]; intros [|fuel2] st H1 H2; try lia.
  cbn [solve].
  destruct (find_first_empty ix (board st) valid_cells) as [[[row col]|]| |];
    cbn [obind]; try reflexivity.
  apply try_pieces_calls; [apply solve_restores|].
  intros st1 Hst1. apply IH; lia.
Qed.
End Budget.

(** C8. The nesting depth of [solve] is bounded by the number of pieces.
    Every recursive call that an invocation on [st] makes is on a state
    with exactly one more piece in use; hence a budget of one invocation
    plus one per piece not in use is never exhausted, and the outcome is
    the same for every larger budget. With the 8 flags of [used_pieces]
    that is at most 8 nested recursive invocations. *)
Theorem solve_recursion_depth
    (pieces_orientations : list (list shape)) (valid_cells : pyset cell) (st : state) :
  let unused := unused_count (used_pieces st) in
  (forall fuel call,
     (forall st1, S (unused_count (used_pieces st1)) = unused ->
        call st1 = solve numpy_indexing fuel pieces_orientations valid_cells st1) ->
     solve_body numpy_indexing call pieces_orientations valid_cells st
     = solve numpy_indexing (S fuel) pieces_orientations valid_cells st) /\
  (unused <= length (used_pieces st))%nat /\
  (exists r, r ≠ OutOfFuel /\
     forall fuel, (unused < fuel)%nat ->
       solve numpy_indexing fuel pieces_orientations valid_cells st = r) /\
  (length (used_pieces st) = 8%nat ->
     solve numpy_indexing 9 pieces_orientations valid_cells st ≠ OutOfFuel).
Proof.
  intros unused. split; [|split; [|split]].
  - intros fuel call Hcall. rewrite solve_unfold. unfold solve_body.
    destruct (find_first_empty _ _ _) as [[[row col]|]| |]; cbn [obind]; try reflexivity.
    symmetry. apply try_pieces_calls; [apply solve_restores|].
    intros st1 Hst1. symmetry. by apply Hcall.
  - apply unused_count_length.
  - exists (solve numpy_indexing (S unused) pieces_orientations valid_cells st).
    split; [apply solve_budget; lia|].
    intros fuel Hfuel. apply solve_budget_irrelevant; lia.
  - intros Hlen. apply solve_budget.
    pose proof (unused_count_length (used_pieces st)). lia.
Qed.

Lemma solve_recursion_depth_witness :
  solve numpy_indexing 9 [[[(0, 0); (0, 1)]]] [(0, 0); (0, 1); (0, 2)]
    {| board := write_all (-1) [0; 1; 2]%nat (np_full (-2));
       used_pieces := replicate 8 false |}
  ≠ OutOfFuel.
Proof.
  apply (solve_recursion_depth [[[(0, 0); (0, 1)]]] [(0, 0); (0, 1); (0, 2)]
           {| board := write_all (-1) [0; 1; 2]%nat (np_full (-2));
              used_pieces := replicate 8 false |}).
  reflexivity.
Defined.

(** ** The search on a board whose playable cells are in bounds *)

Lemma all_coords_in_bounds rc : rc ∈ all_coords <-> in_bounds rc.
Proof.
  split.
  - intros Hin. assert (Hall : Forall in_bounds all_coords).
    { apply (bool_decide_unpack _). vm_compute. exact I. }
    rewrite Forall_forall in Hall. by apply Hall.
  - destruct rc as [r c]. unfold in_bounds, BOARD_ROWS, BOARD_COLS. simpl.
    intros [Hr Hc].
    assert (Hr' : r = 0 \/ r = 1 \/ r = 2 \/ r = 3 \/ r = 4 \/ r = 5 \/ r = 6) by lia.
    assert (Hc' : c = 0 \/ c = 1 \/ c = 2 \/ c = 3 \/ c = 4 \/ c = 5 \/ c = 6) by lia.
    destruct Hr' as [->|[->|[->|[->|[->|[->| ->]]]]]];
      destruct Hc' as [->|[->|[->|[->|[->|[->| ->]]]]]];
      apply (bool_decide_unpack _); vm_compute; exact I.
Qed.

Section Playable.
Variable ix : indexing.
Variable valid_cells : pyset cell.
Hypothesis valid_in_bounds : forall rc, rc ∈ valid_cells -> in_bounds rc.

Lemma board_get_in_bounds b rc :
  in_bounds rc -> length b = 49%nat ->
  exists v, b !! offset rc = Some v /\ board_get ix b rc.1 rc.2 = Returns v.
Proof.
  intros Hin Hlen. destruct rc as [r c]. unfold board_get. cbn [fst snd].
  rewrite flat_index_in_bounds by done. cbn [obind].
  destruct (lookup_lt_is_Some_2 b (offset (r, c))) as [v Hv].
  { rewrite Hlen. by apply offset_lt. }
  exists v. rewrite Hv. split; reflexivity.
Qed.

Lemma resolves_offsets cells :
  Forall in_bounds cells -> Forall2 (resolves ix) cells (offset <$> cells).
Proof.
  induction 1 as [|[r c] cells Hin _ IH]; [constructor|].
  rewrite fmap_cons. constructor; [|done]. by apply flat_index_in_bounds.
Qed.

(** The feasibility check never raises, and it passes exactly when
    every covered cell is playable and empty. *)
Lemma can_place_piece_spec b piece sr sc :
  length b = 49%nat ->
  exists ok,
    can_place_piece ix b piece sr sc valid_cells = Returns ok /\
    (ok = true <->
     Forall (fun rc => rc ∈ valid_cells /\ b !! offset rc = Some (-1))
       (cells_at piece sr sc)).
Proof.
  intros Hlen. induction piece as [|[dr dc] piece IH]; cbn [can_place_piece cells_at map].
  - exists true. split; [reflexivity|]. split; [constructor|reflexivity].
  - destruct (decide ((sr + dr, sc + dc) ∉ valid_cells)) as [Hout|Hin].
    { exists false. split; [reflexivity|]. split; [discriminate|].
      intros Hall. inversion Hall as [|? ? [Hv _] _]. done. }
    apply dec_stable in Hin.
    destruct (board_get_in_bounds b (sr + dr, sc + dc) (valid_in_bounds _ Hin) Hlen)
      as (v & Hv & Hget).
    cbn [fst snd] in Hget. rewrite Hget. cbn [obind].
    destruct (decide (v ≠ -1)) as [Hne|Heq].
    { exists false. split; [reflexivity|]. split; [discriminate|].
      intros Hall. inversion Hall as [|? ? [_ Hv'] _]. congruence. }
    apply dec_stable in Heq. subst v.
    destruct IH as (ok & -> & Hok). exists ok. split; [reflexivity|].
    rewrite Hok. split.
    + intros Hall. by constructor.
    + intros Hall. by inversion Hall.
Qed.

Lemma place_piece_spec b piece sr sc v :
  length b = 49%nat ->
  Forall (fun rc => rc ∈ valid_cells) (cells_at piece sr sc) ->
  place_piece ix b piece sr sc v
  = Returns (write_all v (offset <$> cells_at piece sr sc) b).
Proof.
  intros Hlen Hall.
  assert (Hin : Forall in_bounds (cells_at piece sr sc)).
  { eapply Forall_impl; [exact Hall|]. intros rc. apply valid_in_bounds. }
  apply place_piece_write_all; [by apply resolves_offsets|].
  apply Forall_fmap. eapply Forall_impl; [exact Hin|].
  intros rc Hrc. simpl. rewrite Hlen. by apply offset_lt.
Qed.

(** What [find_first_empty] returns on a 7x7 array. *)
Lemma first_empty_in_spec coords b :
  Forall in_bounds coords -> length b = 49%nat ->
  (first_empty_in ix coords b valid_cells = Returns None /\
   forall rc, rc ∈ coords -> rc ∈ valid_cells -> b !! offset rc ≠ Some (-1))
  \/
  (exists rc, first_empty_in ix coords b valid_cells = Returns (Some rc) /\
     rc ∈ coords /\ rc ∈ valid_cells /\ b !! offset rc = Some (-1)).
Proof.
  intros Hall Hlen. induction Hall as [|[r c] coords Hin _ IH];
    cbn [first_empty_in].
  - left. split; [reflexivity|]. intros rc Hrc. inversion Hrc.
  - destruct (decide ((r, c) ∈ valid_cells)) as [Hv|Hv].
    + destruct (board_get_in_bounds b (r, c) Hin Hlen) as (v & Hlook & Hget).
      cbn [fst snd] in Hget. rewrite Hget. cbn [obind].
      destruct (decide (v = -1)) as [->|Hne].
      * right. exists (r, c). split; [reflexivity|]. split; [left|done].
      * destruct IH as [[-> Hnone]|(rc & -> & Hrc & Hvalid & Hempty)].
        -- left. split; [reflexivity|]. intros rc Hrc Hvalid.
           apply elem_of_cons in Hrc as [->|Hrc]; [congruence|auto].
        -- right. exists rc. split; [reflexivity|]. split; [by right|done].
    + destruct IH as [[-> Hnone]|(rc & -> & Hrc & Hvalid & Hempty)].
      * left. split; [reflexivity|]. intros rc Hrc Hvalid.
        apply elem_of_cons in Hrc as [->|Hrc]; [done|auto].
      * right. exists rc. split; [reflexivity|]. split; [by right|done].
Qed.

Lemma find_first_empty_spec b :
  length b = 49%nat ->
  (find_first_empty ix b valid_cells = Returns None /\
   forall rc, rc ∈ valid_cells -> b !! offset rc ≠ Some (-1))
  \/
  (exists rc, find_first_empty ix b valid_cells = Returns (Some rc) /\
     rc ∈ valid_cells /\ b !! offset rc = Some (-1)).
Proof.
  intros Hlen. unfold find_first_empty. fold all_coords.
  destruct (first_empty_in_spec all_coords b) as [[-> Hnone]|(rc & -> & _ & ? & ?)];
    [|done| |].
  - apply Forall_forall. intros rc. apply all_coords_in_bounds.
  - left. split; [reflexivity|]. intros rc Hrc. apply Hnone; [|done].
    apply all_coords_in_bounds. by apply valid_in_bounds.
  - right. by exists rc.
Qed.

Variable rec : state -> outcome (bool * state).
Variables row col : Z.
Hypothesis rec_restores : restores rec.

(** An attempt on a 7x7 array, for a piece that is not in use: nothing
    happens when the check fails; otherwise the outcome is that of the
    recursive call, with the state put back when the call fails. *)
Lemma attempt_spec piece_id piece off st :
  length (board st) = 49%nat ->
  used_pieces st !! piece_id = Some false ->
  let sr := row - off.1 in
  let sc := col - off.2 in
  (attempt ix valid_cells rec row col piece_id piece off st = Returns (false, st) /\
   ~ Forall (fun rc => rc ∈ valid_cells /\ board st !! offset rc = Some (-1))
       (cells_at piece sr sc))
  \/
  (Forall (fun rc => rc ∈ valid_cells /\ board st !! offset rc = Some (-1))
     (cells_at piece sr sc) /\
   attempt ix valid_cells rec row col piece_id piece off st
   = match rec (placed piece_id piece sr sc st) with
     | Returns (true, st') => Returns (true, st')
     | Returns (false, _) => Returns (false, st)
     | Raises e => Raises e
     | OutOfFuel => OutOfFuel
     end).
Proof.
  intros Hlen Hunused sr sc. unfold attempt. fold sr sc.
  destruct (can_place_piece_spec (board st) piece sr sc Hlen) as (ok & Hok & Hiff).
  rewrite Hok. cbn [obind]. destruct ok.
  - right. assert (Hall := proj1 Hiff eq_refl). split; [done|].
    destruct (place_then_remove ix _ _ _ _ _ (Z.of_nat piece_id) Hok)
      as (b & Hplace & Hrem).
    rewrite Hplace. cbn [obind].
    rewrite place_piece_spec in Hplace; [|done|].
    2:{ eapply Forall_impl; [exact Hall|]. by intros rc [? _]. }
    injection Hplace as <-. unfold list_assign at 1.
    rewrite decide_True by (by eapply lookup_lt_Some). cbn [obind].
    fold (placed piece_id piece sr sc st).
    destruct (rec (placed piece_id piece sr sc st)) as [[[|] st1]| |] eqn:Hrec;
      cbn [obind]; try reflexivity.
    apply rec_restores in Hrec. subst st1. cbn [placed board used_pieces].
    rewrite Hrem. cbn [obind]. unfold list_assign.
    rewrite length_insert, decide_True by (by eapply lookup_lt_Some). cbn [obind].
    rewrite list_insert_insert_eq, list_insert_id by done. by destruct st.
  - left. split; [reflexivity|]. intros Hall. apply Hiff in Hall. discriminate.
Qed.
End Playable.

Section Solving.
Variable ix : indexing.
Variable pieces_orientations : list (list shape).
Variable valid_cells : pyset cell.
Hypothesis valid_in_bounds : forall rc, rc ∈ valid_cells -> in_bounds rc.
Local Abbreviation well_shaped := (well_shaped pieces_orientations).
Local Abbreviation placeable := (placeable valid_cells).
Local Abbreviation candidate := (candidate pieces_orientations).

Lemma placed_well_shaped st piece_id piece sr sc :
  well_shaped st -> well_shaped (placed piece_id piece sr sc st).
Proof.
  intros [Hb Hu]. split; cbn [placed board used_pieces].
  - by rewrite write_all_length.
  - by rewrite length_insert.
Qed.

Lemma placed_unused_count st piece_id piece sr sc :
  used_pieces st !! piece_id = Some false ->
  S (unused_count (used_pieces (placed piece_id piece sr sc st)))
  = unused_count (used_pieces st).
Proof. intros Hu. cbn [placed used_pieces]. by apply unused_count_insert. Qed.

(** One invocation of [solve] on a well-shaped state: it finds the
    board full; or every attempt at the first empty cell fails; or it
    ends with the outcome of the nested call of a feasible attempt. *)
Lemma solve_cases fuel st :
  well_shaped st ->
  (solve ix (S fuel) pieces_orientations valid_cells st = Returns (true, st) /\
   forall rc, rc ∈ valid_cells -> board st !! offset rc ≠ Some (-1))
  \/
  (exists row col,
     find_first_empty ix (board st) valid_cells = Returns (Some (row, col)) /\
     (row, col) ∈ valid_cells /\ board st !! offset (row, col) = Some (-1) /\
     ((solve ix (S fuel) pieces_orientations valid_cells st = Returns (false, st) /\
       forall piece_id piece off,
         candidate st piece_id piece off ->
         placeable st piece (row - off.1) (col - off.2) ->
         exists st',
           solve ix fuel pieces_orientations valid_cells
             (placed piece_id piece (row - off.1) (col - off.2) st)
           = Returns (false, st'))
      \/
      (exists piece_id piece off,
         candidate st piece_id piece off /\
         placeable st piece (row - off.1) (col - off.2) /\
         solve ix (S fuel) pieces_orientations valid_cells st
         = solve ix fuel pieces_orientations valid_cells
             (placed piece_id piece (row - off.1) (col - off.2) st) /\
         forall st',
           solve ix fuel pieces_orientations valid_cells
             (placed piece_id piece (row - off.1) (col - off.2) st)
           ≠ Returns (false, st')))).
Proof.
  intros [Hlen Hused]. cbn [solve].
  destruct (find_first_empty_spec ix valid_cells valid_in_bounds (board st) Hlen)
    as [[-> Hfull]|([row col] & Hfind & Hvalid & Hempty)]; [left; by split|].
  rewrite Hfind. cbn [obind].
  right. exists row, col. do 3 (split; [done|]).
  pose proof (solve_restores ix fuel pieces_orientations valid_cells) as Hres.
  destruct (try_pieces_cases ix valid_cells _ row col Hres 0 pieces_orientations
              pieces_orientations st eq_refl)
    as [[-> Hfail]|[(pid & os & piece & off & Hpo & Hunused & Hin & Hoff & -> & Hne)
                   |(pid & Hsome & Hnone & _)]].
  - left. split; [reflexivity|].
    intros pid piece off (os & Hpo & Hunused & Hin & Hoff) Hplaceable.
    specialize (Hfail pid os piece off ltac:(lia) Hpo Hunused Hin Hoff).
    destruct (attempt_spec ix valid_cells valid_in_bounds _ row col Hres
                pid piece off st Hlen Hunused) as [[_ Hno]|[_ Heq]]; [done|].
    rewrite Hfail in Heq.
    destruct (solve ix fuel _ _ _) as [[[|] st1]| |]; try discriminate. eauto.
  - destruct (attempt_spec ix valid_cells valid_in_bounds _ row col Hres
                pid piece off st Hlen Hunused) as [[Hatt _]|[Hplaceable Heq]]; [done|].
    right. exists pid, piece, off. split; [by exists os|]. split; [done|].
    rewrite Heq in Hne |- *.
    destruct (solve ix fuel _ _ _) as [[[|] st1]| |]; done.
  - exfalso. apply lookup_lt_is_Some_1 in Hsome.
    apply lookup_ge_None in Hnone. lia.
Qed.

(** On a well-shaped state [solve] returns, True or False, once the
    budget exceeds the number of pieces not in use. *)
Lemma solve_total fuel :
  forall st,
    well_shaped st ->
    (unused_count (used_pieces st) < fuel)%nat ->
    exists found st',
      solve ix fuel pieces_orientations valid_cells st = Returns (found, st') /\
      well_shaped st'.
Proof.
  induction fuel as [|fuel IH]; intros st Hws Hfuel; [lia|].
  destruct (solve_cases fuel st Hws)
    as [[-> _]|(row & col & _ & _ & _ &
                [[-> _]|(pid & piece & off & (os & _ & Hunused & _) & _ & -> & _)])];
    [by eauto|by eauto|].
  apply IH; [by apply placed_well_shaped|].
  pose proof (placed_unused_count st pid piece (row - off.1) (col - off.2) Hunused).
  lia.
Qed.
End Solving.

(** ** Counting empty cells and unused area *)

Lemma count_empty_fill b i v :
  b !! i = Some (-1) -> v ≠ -1 ->
  S (count_empty (<[i:=v]> b)) = count_empty b.
Proof.
  revert i. induction b as [|x b IH]; intros [|i]; simpl; try discriminate.
  - intros [= ->] Hv. repeat case_decide; try done; lia.
  - intros Hi Hv. rewrite <- (IH i Hi Hv). lia.
Qed.

Lemma count_empty_clear b i x :
  b !! i = Some x -> x ≠ -1 ->
  count_empty (<[i:=-1]> b) = S (count_empty b).
Proof.
  revert i. induction b as [|y b IH]; intros [|i]; simpl; try discriminate.
  - intros [= ->] Hx. repeat case_decide; try done; lia.
  - intros Hi Hx. rewrite (IH i Hi Hx). lia.
Qed.

Lemma count_empty_write_all v idxs b :
  v ≠ -1 -> NoDup idxs ->
  Forall (fun i => b !! i = Some (-1)) idxs ->
  (count_empty (write_all v idxs b) + length idxs = count_empty b)%nat.
Proof.
  intros Hv Hnd. revert b. unfold write_all.
  induction Hnd as [|i idxs Hnotin Hnd IH]; intros b Hall; cbn [fold_left length].
  - lia.
  - inversion Hall as [|? ? Hi Hall']; subst.
    rewrite <- (count_empty_fill b i v Hi Hv).
    rewrite <- (IH (<[i:=v]> b)); [lia|].
    rewrite Forall_forall in Hall' |- *. intros j Hj.
    rewrite list_lookup_insert_ne; [by apply Hall'|]. by intros ->.
Qed.

Lemma count_empty_zero b :
  (forall i, b !! i ≠ Some (-1)) -> count_empty b = 0%nat.
Proof.
  induction b as [|v b IH]; intros Hne; simpl; [done|].
  case_decide as Hv; [subst v; by destruct (Hne 0%nat)|].
  rewrite IH; [done|]. intros i. apply (Hne (S i)).
Qed.

Lemma unused_area_insert used sizes i n :
  used !! i = Some false -> sizes !! i = Some n ->
  (unused_area (<[i:=true]> used) sizes + n = unused_area used sizes)%nat.
Proof.
  revert sizes i. induction used as [|u used IH]; intros [|m sizes] [|i];
    simpl; try discriminate.
  - intros [= ->] [= ->]. lia.
  - intros Hu Hn. rewrite <- (IH sizes i Hu Hn). lia.
Qed.

Lemma unused_area_zero used sizes i n :
  unused_area used sizes = 0%nat ->
  used !! i = Some false -> sizes !! i = Some n -> n = 0%nat.
Proof.
  revert sizes i. induction used as [|u used IH]; intros [|m sizes] [|i];
    simpl; try discriminate.
  - intros Hz [= ->] [= ->]. lia.
  - intros Hz Hu Hn. apply (IH sizes i); [lia|done|done].
Qed.

Lemma cells_at_elem piece sr sc rc :
  rc ∈ cells_at piece sr sc <-> (rc.1 - sr, rc.2 - sc) ∈ piece.
Proof.
  unfold cells_at. rewrite list_elem_of_fmap. split.
  - intros ([dr dc] & -> & Hin). simpl.
    by replace (sr + dr - sr) with dr by lia; replace (sc + dc - sc) with dc by lia.
  - intros Hin. exists (rc.1 - sr, rc.2 - sc). split; [|done].
    destruct rc as [r c]. simpl. f_equal; lia.
Qed.

Lemma cells_at_length piece sr sc : length (cells_at piece sr sc) = length piece.
Proof. apply length_map. Qed.

Lemma cells_at_NoDup piece sr sc : NoDup piece -> NoDup (cells_at piece sr sc).
Proof.
  intros Hnd. unfold cells_at. apply NoDup_fmap_2_strong; [|done].
  intros [r c] [r' c'] _ _ [= ? ?]. f_equal; lia.
Qed.

Lemma offsets_NoDup cells :
  Forall in_bounds cells -> NoDup cells -> NoDup (offset <$> cells).
Proof.
  intros Hin Hnd. apply NoDup_fmap_2_strong; [|done].
  rewrite Forall_forall in Hin. intros a b Ha Hb. apply offset_inj; auto.
Qed.

Lemma offsets_elem cells rc :
  Forall in_bounds cells -> in_bounds rc ->
  offset rc ∈ offset <$> cells <-> rc ∈ cells.
Proof.
  intros Hin Hrc. rewrite list_elem_of_fmap. split.
  - intros (rc' & Heq & Hrc'). rewrite Forall_forall in Hin.
    by rewrite (offset_inj rc rc' Hrc (Hin _ Hrc') Heq).
  - intros Hin'. by exists rc.
Qed.

(** ** What a successful search leaves on the board *)

Section Coverage.
Variable ix : indexing.
Variable pieces_orientations : list (list shape).
Variable valid_cells : pyset cell.
Variable sizes : list nat.
Hypothesis valid_in_bounds : forall rc, rc ∈ valid_cells -> in_bounds rc.
Hypothesis orientations_sized :
  forall piece_id orientations piece,
    pieces_orientations !! piece_id = Some orientations ->
    piece ∈ orientations ->
    NoDup piece /\ sizes !! piece_id = Some (length piece).
Local Abbreviation consistent := (consistent pieces_orientations valid_cells sizes).

Lemma placed_lookup st piece_id piece sr sc rc :
  length (board st) = 49%nat ->
  Forall in_bounds (cells_at piece sr sc) ->
  in_bounds rc ->
  board (placed piece_id piece sr sc st) !! offset rc =
  if decide (rc ∈ cells_at piece sr sc) then Some (Z.of_nat piece_id)
  else board st !! offset rc.
Proof.
  intros Hlen Hcells Hrc. cbn [placed board]. rewrite write_all_lookup.
  pose proof (offsets_elem _ rc Hcells Hrc) as Hiff.
  pose proof (offset_lt rc Hrc).
  destruct (decide (rc ∈ cells_at piece sr sc)) as [Hin|Hnotin].
  - rewrite decide_True; [done|]. split; [by apply Hiff | lia].
  - rewrite decide_False; [done|]. intros [Hin _]. by apply Hiff in Hin.
Qed.

Lemma placeable_cells st piece sr sc :
  placeable valid_cells st piece sr sc ->
  Forall (fun rc => rc ∈ valid_cells) (cells_at piece sr sc) /\
  Forall in_bounds (cells_at piece sr sc) /\
  Forall (fun i => board st !! i = Some (-1)) (offset <$> cells_at piece sr sc).
Proof.
  unfold placeable. intros Hall. split; [|split].
  - eapply Forall_impl; [exact Hall|]. by intros rc [? _].
  - eapply Forall_impl; [exact Hall|]. intros rc [? _]. by apply valid_in_bounds.
  - apply Forall_fmap. eapply Forall_impl; [exact Hall|]. by intros rc [_ ?].
Qed.

(** Committing a feasible attempt keeps the invariant. *)
Lemma placed_consistent st piece_id piece off row col :
  consistent st ->
  candidate pieces_orientations st piece_id piece off ->
  placeable valid_cells st piece (row - off.1) (col - off.2) ->
  consistent (placed piece_id piece (row - off.1) (col - off.2) st).
Proof.
  intros Hc (os & Hpo & Hunused & Hin & Hoff) Hpl.
  set (sr := row - off.1) in *. set (sc := col - off.2) in *.
  destruct (placeable_cells _ _ _ _ Hpl) as (Hvalid & Hbounds & Hempty).
  destruct (orientations_sized _ _ _ Hpo Hin) as [Hnd Hsize].
  destruct Hc as [[Hlen Hulen] Hvals Hblocked Hplayable Hpieces Harea].
  assert (Hpid : (piece_id < length (used_pieces st))%nat)
    by (by eapply lookup_lt_Some).
  rewrite Forall_forall in Hvalid.
  split.
  - by apply placed_well_shaped.
  - intros i v. cbn [placed board used_pieces]. rewrite write_all_lookup.
    case_decide as Hi.
    + intros [= <-]. right; right. exists piece_id. split; [done|].
      by apply list_lookup_insert_eq.
    + intros Hv. destruct (Hvals i v Hv) as [?|[?|(pid' & -> & Hu')]]; auto.
      right; right. exists pid'. split; [done|].
      rewrite list_lookup_insert_ne; [done|]. intros ->. congruence.
  - intros rc Hrc Hnv. rewrite placed_lookup by done.
    rewrite decide_False; [by apply Hblocked|]. intros Hin'. by apply Hnv, Hvalid.
  - intros rc Hrc. rewrite placed_lookup by auto.
    case_decide; [intros [= ?]; lia | by apply Hplayable].
  - intros pid'. cbn [placed used_pieces]. intros Hu'.
    destruct (decide (pid' = piece_id)) as [->|Hne].
    + exists os, piece, sr, sc. do 2 (split; [done|]).
      split; [by apply Forall_forall|].
      intros rc Hrc. rewrite placed_lookup by done.
      case_decide as Hrc'; [done|]. split; [|done].
      intros Hv. destruct (Hvals _ _ Hv) as [?|[?|(pid'' & Heq & Hu'')]]; [lia|lia|].
      apply Nat2Z.inj in Heq. subst pid''. congruence.
    + rewrite list_lookup_insert_ne in Hu' by done.
      destruct (Hpieces pid' Hu') as (os' & piece' & sr' & sc' & ? & ? & ? & Hiff).
      exists os', piece', sr', sc'. do 3 (split; [done|]).
      intros rc Hrc. rewrite placed_lookup by done. rewrite <- (Hiff rc Hrc).
      case_decide as Hrc'; [|done].
      unfold placeable in Hpl. rewrite Forall_forall in Hpl.
      destruct (Hpl rc Hrc') as [_ Hrcv].
      rewrite Hrcv. split; intros [= ?]; lia.
  - cbn [placed board used_pieces].
    pose proof (count_empty_write_all (Z.of_nat piece_id)
                  (offset <$> cells_at piece sr sc) (board st) ltac:(lia)
                  (offsets_NoDup _ Hbounds (cells_at_NoDup _ sr sc Hnd)) Hempty) as Hcnt.
    pose proof (unused_area_insert _ _ _ _ Hunused Hsize) as Huse.
    rewrite length_fmap, cells_at_length in Hcnt. lia.
Qed.

(** When [solve] returns True the invariant holds of the state it
    leaves, and no playable cell is empty. *)
Lemma solve_sound fuel :
  forall st st',
    consistent st ->
    solve ix fuel pieces_orientations valid_cells st = Returns (true, st') ->
    consistent st' /\
    forall rc, rc ∈ valid_cells -> board st' !! offset rc ≠ Some (-1).
Proof.
  induction fuel as [|fuel IH]; intros st st' Hc; [discriminate|].
  destruct (solve_cases ix pieces_orientations valid_cells valid_in_bounds
              fuel st (cons_shape _ _ _ _ Hc))
    as [[-> Hfull]|(row & col & _ & _ & _ &
                    [[-> _]|(pid & piece & off & Hcand & Hpl & -> & _)])].
  - by intros [= <-].
  - discriminate.
  - apply IH. by eapply placed_consistent.
Qed.

Hypothesis sizes_positive : forall piece_id n, sizes !! piece_id = Some n -> (0 < n)%nat.
Hypothesis sizes_length : length sizes = length pieces_orientations.

(** On a full board every piece is in use. *)
Lemma full_board_all_used st piece_id :
  consistent st ->
  (forall rc, rc ∈ valid_cells -> board st !! offset rc ≠ Some (-1)) ->
  (piece_id < length pieces_orientations)%nat ->
  used_pieces st !! piece_id = Some true.
Proof.
  intros Hc Hfull Hpid.
  destruct Hc as [[Hlen Hulen] Hvals Hblocked Hplayable Hpieces Harea].
  assert (Hzero : count_empty (board st) = 0%nat).
  { apply count_empty_zero. intros i Hi.
    pose proof (lookup_lt_Some _ _ _ Hi) as Hlt. rewrite Hlen in Hlt.
    destruct (offset_surj i Hlt) as (rc & Hrc & <-).
    destruct (decide (rc ∈ valid_cells)) as [Hv|Hv].
    - by apply (Hfull rc Hv).
    - rewrite (Hblocked rc Hrc Hv) in Hi. discriminate. }
  rewrite Harea in Hzero.
  destruct (lookup_lt_is_Some_2 (used_pieces st) piece_id ltac:(lia)) as [[|] Hu];
    [done|].
  destruct (lookup_lt_is_Some_2 sizes piece_id ltac:(lia)) as [n Hn].
  pose proof (unused_area_zero _ _ _ _ Hzero Hu Hn).
  pose proof (sizes_positive _ _ Hn). lia.
Qed.
End Coverage.

(** ** The set-up of [solve_puzzle] *)

Lemma range_elem a b x : x ∈ range a b <-> a <= x < b.
Proof.
  unfold range. rewrite list_elem_of_fmap. split.
  - intros (i & -> & Hi). apply elem_of_seq in Hi. lia.
  - intros Hx. exists (Z.to_nat (x - a)). split; [lia|]. apply elem_of_seq. lia.
Qed.

Lemma month_cell_spec month :
  1 <= month <= 12 ->
  exists pos, month_cell month = Returns pos /\
    pos ∈ get_all_valid_cells /\ 0 <= pos.1 < 2.
Proof.
  intros Hm.
  assert (Hall : Forall (fun m =>
            match month_cell m with
            | Returns pos => bool_decide (pos ∈ get_all_valid_cells /\ 0 <= pos.1 < 2)
            | _ => false
            end = true) (range 1 13)).
  { apply (bool_decide_unpack _). vm_compute. exact I. }
  rewrite Forall_forall in Hall. specialize (Hall month).
  destruct (month_cell month) as [pos| |]; [|by discriminate Hall; apply range_elem; lia..].
  exists pos. split; [done|]. apply (bool_decide_eq_true_1 _).
  apply Hall, range_elem. lia.
Qed.

Lemma day_cell_spec day :
  1 <= day <= 31 ->
  exists pos, day_cell day = Returns pos /\
    pos ∈ get_all_valid_cells /\ 2 <= pos.1.
Proof.
  intros Hd.
  assert (Hall : Forall (fun d =>
            match day_cell d with
            | Returns pos => bool_decide (pos ∈ get_all_valid_cells /\ 2 <= pos.1)
            | _ => false
            end = true) (range 1 32)).
  { apply (bool_decide_unpack _). vm_compute. exact I. }
  rewrite Forall_forall in Hall. specialize (Hall day).
  destruct (day_cell day) as [pos| |]; [|by discriminate Hall; apply range_elem; lia..].
  exists pos. split; [done|]. apply (bool_decide_eq_true_1 _).
  apply Hall, range_elem. lia.
Qed.

Lemma get_all_valid_cells_facts :
  NoDup get_all_valid_cells /\ length get_all_valid_cells = 43%nat /\
  Forall (fun rc => in_bounds rc /\ rc ∉ BLOCKED) get_all_valid_cells.
Proof.
  split; [|split].
  - apply (bool_decide_unpack _). vm_compute. exact I.
  - vm_compute. reflexivity.
  - apply (bool_decide_unpack _). vm_compute. exact I.
Qed.

Lemma set_discard_length {A} `{EqDecision A} (x : A) (s : pyset A) :
  NoDup s -> x ∈ s -> S (length (set_discard x s)) = length s.
Proof.
  unfold set_discard. induction 1 as [|y s Hy Hnd IH]; intros Hin; [inversion Hin|].
  rewrite filter_cons. apply elem_of_cons in Hin as [->|Hin].
  - rewrite decide_False by (intros Hne; by apply Hne).
    simpl. f_equal. clear IH. induction s as [|z s IHs]; [done|].
    rewrite filter_cons. apply not_elem_of_cons in Hy as [Hyz Hy].
    apply NoDup_cons in Hnd as [_ Hnd].
    rewrite decide_True by done. simpl. f_equal. by apply IHs.
  - rewrite decide_True by (intros ->; done). simpl. f_equal. by apply IH.
Qed.

(** The playable cells of a query with a month cell in rows 0..1 and a
    day cell in rows 2..6. *)
Lemma playable_facts month_pos day_pos :
  month_pos ∈ get_all_valid_cells -> day_pos ∈ get_all_valid_cells ->
  month_pos ≠ day_pos ->
  NoDup (playable month_pos day_pos) /\
  length (playable month_pos day_pos) = 41%nat /\
  (forall rc, rc ∈ playable month_pos day_pos <->
     rc ∈ get_all_valid_cells /\ rc ≠ month_pos /\ rc ≠ day_pos) /\
  (forall rc, rc ∈ playable month_pos day_pos -> in_bounds rc).
Proof.
  intros Hm Hd Hne. destruct get_all_valid_cells_facts as (Hnd & Hlen & Hall).
  unfold playable.
  assert (Helem : forall rc, rc ∈ set_discard day_pos (set_discard month_pos get_all_valid_cells)
            <-> rc ∈ get_all_valid_cells /\ rc ≠ month_pos /\ rc ≠ day_pos).
  { intros rc. rewrite !set_discard_elem. tauto. }
  split; [by apply set_discard_NoDup, set_discard_NoDup|]. split; [|split; [done|]].
  - pose proof (set_discard_length month_pos _ Hnd Hm) as H1.
    pose proof (set_discard_length day_pos (set_discard month_pos get_all_valid_cells)
                  (set_discard_NoDup _ _ Hnd)) as H2.
    rewrite <- H2 in H1; [lia|]. apply set_discard_elem. split; [done|]. congruence.
  - intros rc Hrc. apply Helem in Hrc as [Hrc _].
    rewrite Forall_forall in Hall. by apply Hall.
Qed.

Lemma count_empty_clear_all idxs b :
  NoDup idxs ->
  Forall (fun i => exists x, b !! i = Some x /\ x ≠ -1) idxs ->
  count_empty (write_all (-1) idxs b) = (length idxs + count_empty b)%nat.
Proof.
  intros Hnd. revert b. unfold write_all.
  induction Hnd as [|i idxs Hnotin Hnd IH]; intros b Hall; cbn [fold_left length].
  - lia.
  - inversion Hall as [|? ? (x & Hi & Hx) Hall']; subst.
    rewrite IH, (count_empty_clear b i x Hi Hx); [lia|].
    rewrite Forall_forall in Hall' |- *. intros j Hj.
    rewrite list_lookup_insert_ne; [by apply Hall'|]. by intros ->.
Qed.

Lemma list_comprehension_compose {A B C} (f : A -> outcome C) (g : A -> outcome B)
    (h : B -> C) (xs : list A) :
  (forall x, f x = let! y := g x in Returns (h y)) ->
  list_comprehension f xs = let! ys := list_comprehension g xs in Returns (h <$> ys).
Proof.
  intros Hf. induction xs as [|x xs IH]; [reflexivity|].
  cbn [list_comprehension]. rewrite Hf, IH.
  destruct (g x); cbn [obind]; try reflexivity.
  destruct (list_comprehension g xs); reflexivity.
Qed.

Lemma orientation_sets_computed :
  list_comprehension (orientations_loop 4 []) PIECES = Returns orientation_sets.
Proof. vm_compute. reflexivity. Qed.

Lemma orientation_sets_sized piece_id s piece :
  orientation_sets !! piece_id = Some s -> piece ∈ s ->
  NoDup piece /\ piece_sizes !! piece_id = Some (length piece).
Proof.
  intros Hs Hin.
  assert (Hall : Forall2 (fun s n => Forall (fun piece => NoDup piece /\ length piece = n) s)
                   orientation_sets piece_sizes).
  { apply (bool_decide_unpack _). vm_compute. exact I. }
  destruct (Forall2_lookup_l _ _ _ _ _ Hall Hs) as (n & Hn & Hforall).
  rewrite Forall_forall in Hforall. destruct (Hforall piece Hin) as [Hnd <-]. done.
Qed.

Section Setup.
Context `{SetIteration}.
Variable ix : indexing.

Lemma orientations_of_PIECES :
  list_comprehension get_all_orientations PIECES
  = Returns (set_iter <$> orientation_sets).
Proof.
  rewrite (list_comprehension_compose _ (orientations_loop 4 []) set_iter)
    by reflexivity.
  by rewrite orientation_sets_computed.
Qed.

Lemma precompute_piece_orientations_spec :
  precompute_piece_orientations = Returns (set_iter <$> orientation_sets).
Proof. exact orientations_of_PIECES. Qed.

Lemma precomputed_sized piece_id orientations piece :
  (set_iter <$> orientation_sets) !! piece_id = Some orientations ->
  piece ∈ orientations ->
  NoDup piece /\ piece_sizes !! piece_id = Some (length piece).
Proof.
  rewrite list_lookup_fmap. destruct (orientation_sets !! piece_id) as [s|] eqn:Hs;
    [|discriminate].
  intros [= <-] Hin. rewrite set_iter_perm in Hin.
  by apply (orientation_sets_sized piece_id s).
Qed.

Lemma clear_cells_spec cells b :
  Forall in_bounds cells -> length b = 49%nat ->
  clear_cells ix cells b = Returns (write_all (-1) (offset <$> cells) b).
Proof.
  intros Hall. revert b.
  induction Hall as [|[r c] cells Hin _ IH]; intros b Hlen; [reflexivity|].
  cbn [clear_cells]. unfold board_set. rewrite flat_index_in_bounds by done.
  cbn [obind]. pose proof (offset_lt _ Hin).
  rewrite decide_True by lia. cbn [obind].
  rewrite IH by (by rewrite length_insert). reflexivity.
Qed.

Variables month_pos day_pos : cell.
Local Abbreviation initial_state := (initial_state month_pos day_pos).
Hypothesis month_pos_valid : month_pos ∈ get_all_valid_cells.
Hypothesis day_pos_valid : day_pos ∈ get_all_valid_cells.
Hypothesis targets_differ : month_pos ≠ day_pos.

Lemma initial_board_lookup rc :
  in_bounds rc ->
  board initial_state !! offset rc =
  if decide (rc ∈ playable month_pos day_pos) then Some (-1) else Some (-2).
Proof.
  intros Hrc. cbn [initial_state board]. rewrite write_all_lookup.
  destruct (playable_facts _ _ month_pos_valid day_pos_valid targets_differ)
    as (_ & _ & _ & Hbounds).
  assert (Hcells : Forall in_bounds (set_iter (playable month_pos day_pos))).
  { apply Forall_forall. intros rc' Hrc'. rewrite set_iter_perm in Hrc'. auto. }
  pose proof (offsets_elem _ rc Hcells Hrc) as Hiff.
  assert (Hperm : rc ∈ set_iter (playable month_pos day_pos)
                  <-> rc ∈ playable month_pos day_pos) by (by rewrite set_iter_perm).
  pose proof (offset_lt rc Hrc).
  destruct (decide (rc ∈ playable month_pos day_pos)) as [Hin|Hnotin].
  - rewrite decide_True; [done|]. split; [by apply Hiff, Hperm|]. by vm_compute.
  - rewrite decide_False by (intros [? _]; by apply Hnotin, Hperm, Hiff).
    by apply lookup_replicate_2.
Qed.

Lemma initial_state_consistent :
  consistent (set_iter <$> orientation_sets) (playable month_pos day_pos)
    piece_sizes initial_state.
Proof.
  destruct (playable_facts _ _ month_pos_valid day_pos_valid targets_differ)
    as (Hnd & Hlen & _ & Hbounds).
  assert (Hcells : Forall in_bounds (set_iter (playable month_pos day_pos))).
  { apply Forall_forall. intros rc' Hrc'. rewrite set_iter_perm in Hrc'. auto. }
  split.
  - split; cbn [initial_state board used_pieces].
    + rewrite write_all_length. reflexivity.
    + rewrite length_replicate, length_fmap. reflexivity.
  - intros i v. cbn [initial_state board]. rewrite write_all_lookup.
    case_decide; [intros [= <-]; auto|].
    intros Hv. apply lookup_replicate_1 in Hv as [-> _]. auto.
  - intros rc Hrc Hnv. rewrite initial_board_lookup by done. by rewrite decide_False.
  - intros rc Hrc. rewrite initial_board_lookup by auto. by rewrite decide_True.
  - intros pid. cbn [initial_state used_pieces]. intros Hu.
    apply lookup_replicate_1 in Hu as [? _]. discriminate.
  - cbn [initial_state board used_pieces].
    rewrite count_empty_clear_all.
    + rewrite length_fmap, (Permutation_length (set_iter_perm _ _)), Hlen.
      vm_compute. reflexivity.
    + apply offsets_NoDup; [done|]. by rewrite set_iter_perm.
    + apply Forall_fmap, Forall_forall. intros rc Hrc. simpl.
      rewrite Forall_forall in Hcells. pose proof (offset_lt _ (Hcells _ Hrc)).
      exists (-2). split; [by apply lookup_replicate_2|lia].
Qed.
End Setup.

(** ** Indexing without wrap-around *)

Section Indexing.
Variable valid_cells : pyset cell.
Hypothesis valid_in_bounds : forall rc, rc ∈ valid_cells -> in_bounds rc.

Lemma board_get_checked b r c :
  in_bounds (r, c) ->
  board_get checked_indexing b r c = board_get numpy_indexing b r c.
Proof. intros Hrc. unfold board_get. by rewrite !flat_index_in_bounds. Qed.

Lemma board_set_checked b r c v :
  in_bounds (r, c) ->
  board_set checked_indexing b r c v = board_set numpy_indexing b r c v.
Proof. intros Hrc. unfold board_set. by rewrite !flat_index_in_bounds. Qed.

Lemma can_place_piece_checked b piece sr sc :
  can_place_piece checked_indexing b piece sr sc valid_cells
  = can_place_piece numpy_indexing b piece sr sc valid_cells.
Proof.
  induction piece as [|[dr dc] piece IH]; cbn [can_place_piece]; [reflexivity|].
  destruct (decide ((sr + dr, sc + dc) ∉ valid_cells)) as [|Hin]; [reflexivity|].
  apply dec_stable in Hin.
  rewrite (board_get_checked b (sr + dr) (sc + dc)) by auto.
  destruct (board_get numpy_indexing b (sr + dr) (sc + dc)); cbn [obind];
    try reflexivity.
  case_decide; [reflexivity | exact IH].
Qed.

Lemma place_piece_checked b piece sr sc v :
  Forall in_bounds (cells_at piece sr sc) ->
  place_piece checked_indexing b piece sr sc v
  = place_piece numpy_indexing b piece sr sc v.
Proof.
  revert b. induction piece as [|[dr dc] piece IH]; intros b Hall;
    cbn [place_piece]; [reflexivity|].
  cbn [cells_at map] in Hall. inversion Hall as [|? ? Hrc Hall']; subst.
  rewrite (board_set_checked b (sr + dr) (sc + dc)) by done.
  destruct (board_set numpy_indexing b (sr + dr) (sc + dc) v); cbn [obind];
    try reflexivity.
  by apply IH.
Qed.

Lemma first_empty_in_checked coords b :
  first_empty_in checked_indexing coords b valid_cells
  = first_empty_in numpy_indexing coords b valid_cells.
Proof.
  induction coords as [|[r c] coords IH]; cbn [first_empty_in]; [reflexivity|].
  case_decide as Hin; [|exact IH].
  rewrite (board_get_checked b r c) by auto.
  destruct (board_get numpy_indexing b r c); cbn [obind]; try reflexivity.
  case_decide; [reflexivity | exact IH].
Qed.

Section CheckedLoops.
Variables rec1 rec2 : state -> outcome (bool * state).
Variables row col : Z.
Hypothesis rec_agree : forall st, rec1 st = rec2 st.

Lemma attempt_checked piece_id piece off st :
  attempt checked_indexing valid_cells rec1 row col piece_id piece off st
  = attempt numpy_indexing valid_cells rec2 row col piece_id piece off st.
Proof.
  unfold attempt. rewrite can_place_piece_checked.
  destruct (can_place_piece numpy_indexing _ _ _ _ _) as [[|]| |] eqn:Hok;
    cbn [obind]; try reflexivity.
  assert (Hcells : Forall in_bounds (cells_at piece (row - off.1) (col - off.2))).
  { destruct (can_place_piece_true _ _ _ _ _ _ Hok) as [Hvalid _].
    eapply Forall_impl; [exact Hvalid|]. intros rc. apply valid_in_bounds. }
  rewrite place_piece_checked by done.
  destruct (place_piece numpy_indexing _ _ _ _ _); cbn [obind]; try reflexivity.
  destruct (list_assign _ _ _); cbn [obind]; try reflexivity.
  rewrite rec_agree. destruct (rec2 _) as [[[|] st1]| |]; cbn [obind];
    try reflexivity.
  rewrite !remove_piece_place_piece, place_piece_checked by done. reflexivity.
Qed.

Lemma try_offsets_checked piece_id piece offsets st :
  try_offsets checked_indexing valid_cells rec1 row col piece_id piece offsets st
  = try_offsets numpy_indexing valid_cells rec2 row col piece_id piece offsets st.
Proof.
  revert st. induction offsets as [|off offsets IH]; intros st; [reflexivity|].
  rewrite !try_offsets_step, attempt_checked.
  destruct (attempt numpy_indexing _ _ _ _ _ _ _ _) as [[[|] st1]| |];
    cbn [obind]; try reflexivity.
  apply IH.
Qed.

Lemma try_orientations_checked piece_id orientations st :
  try_orientations checked_indexing valid_cells rec1 row col piece_id orientations st
  = try_orientations numpy_indexing valid_cells rec2 row col piece_id orientations st.
Proof.
  revert st. induction orientations as [|piece orientations IH]; intros st;
    [reflexivity|].
  cbn [try_orientations]. rewrite try_offsets_checked.
  destruct (try_offsets numpy_indexing _ _ _ _ _ _ _ _) as [[[|] st1]| |];
    cbn [obind]; try reflexivity.
  apply IH.
Qed.

Lemma try_pieces_checked k pieces st :
  try_pieces checked_indexing valid_cells rec1 row col k pieces st
  = try_pieces numpy_indexing valid_cells rec2 row col k pieces st.
Proof.
  revert k st. induction pieces as [|orientations pieces IH]; intros k st;
    [reflexivity|].
  cbn [try_pieces]. destruct (list_item _ _) as [[|]| |]; cbn [obind];
    try reflexivity; [apply IH|].
  rewrite try_orientations_checked.
  destruct (try_orientations numpy_indexing _ _ _ _ _ _ _) as [[[|] st1]| |];
    cbn [obind]; try reflexivity.
  apply IH.
Qed.
End CheckedLoops.

(** The search never exercises the wrap-around of negative indices:
    with every out-of-range index refused, it does the same. *)
Lemma solve_checked fuel pieces_orientations st :
  solve checked_indexing fuel pieces_orientations valid_cells st
  = solve numpy_indexing fuel pieces_orientations valid_cells st.
Proof.
  revert st. induction fuel as [|fuel IH]; intros st; [reflexivity|].
  cbn [solve]. unfold find_first_empty. rewrite first_empty_in_checked.
  destruct (first_empty_in numpy_indexing _ _ _) as [[[row col]|]| |];
    cbn [obind]; try reflexivity.
  by apply try_pieces_checked.
Qed.
End Indexing.

Section NoRaise.
Variable ix : indexing.
Variable pieces_orientations : list (list shape).
Variable valid_cells : pyset cell.
Hypothesis valid_in_bounds : forall rc, rc ∈ valid_cells -> in_bounds rc.

(** On a well-shaped state [solve] raises nothing, whatever the budget. *)
Lemma solve_no_raise fuel :
  forall st e,
    well_shaped pieces_orientations st ->
    solve ix fuel pieces_orientations valid_cells st ≠ Raises e.
Proof.
  induction fuel as [|fuel IH]; intros st e Hws; [discriminate|].
  destruct (solve_cases ix pieces_orientations valid_cells valid_in_bounds fuel st Hws)
    as [[-> _]|(row & col & _ & _ & _ &
                [[-> _]|(pid & piece & off & _ & _ & -> & _)])];
    [discriminate|discriminate|].
  apply IH. by apply placed_well_shaped.
Qed.
End NoRaise.

(** ** [solve_puzzle] *)

Lemma target_cells_spec month day :
  1 <= month <= 12 -> 1 <= day <= 31 ->
  exists month_pos day_pos,
    month_cell month = Returns month_pos /\ day_cell day = Returns day_pos /\
    month_pos ∈ get_all_valid_cells /\ day_pos ∈ get_all_valid_cells /\
    month_pos ≠ day_pos.
Proof.
  intros Hm Hd.
  destruct (month_cell_spec month Hm) as (mp & Hmp & Hmv & Hmr).
  destruct (day_cell_spec day Hd) as (dp & Hdp & Hdv & Hdr).
  exists mp, dp. do 4 (split; [done|]). intros ->. lia.
Qed.

Section Puzzle.
Context `{SetIteration}.
Variable ix : indexing.

(** [solve_puzzle] is its set-up followed by one call of [solve]. *)
Lemma solve_puzzle_unfold fuel month day month_pos day_pos :
  month_cell month = Returns month_pos -> day_cell day = Returns day_pos ->
  month_pos ∈ get_all_valid_cells -> day_pos ∈ get_all_valid_cells ->
  month_pos ≠ day_pos ->
  solve_puzzle ix fuel month day =
  (let! (found, st) :=
     solve ix fuel (set_iter <$> orientation_sets) (playable month_pos day_pos)
       (initial_state month_pos day_pos) in
   if found then Returns (Some (board st)) else Returns None).
Proof.
  intros Hm Hd Hmv Hdv Hne. unfold solve_puzzle. unfold month_cell in Hm.
  destruct (list_index MONTH_NAMES (month - 1)) as [name| |]; try discriminate.
  cbn [obind] in Hm |- *. rewrite Hm. cbn [obind].
  unfold day_cell in Hd. rewrite Hd. cbn [obind].
  fold (playable month_pos day_pos).
  destruct (playable_facts _ _ Hmv Hdv Hne) as (_ & _ & _ & Hbounds).
  rewrite clear_cells_spec; [|..].
  - cbn [obind]. rewrite precompute_piece_orientations_spec. cbn [obind].
    fold (initial_state month_pos day_pos).
    destruct (solve ix fuel _ _ _) as [[[|] [b u]]| |]; reflexivity.
  - apply Forall_forall. intros rc Hrc. rewrite set_iter_perm in Hrc. auto.
  - reflexivity.
Qed.

Lemma initial_state_well_shaped month_pos day_pos :
  well_shaped (set_iter <$> orientation_sets) (initial_state month_pos day_pos).
Proof.
  split; cbn [initial_state board used_pieces].
  - by rewrite write_all_length.
  - by rewrite length_replicate, length_fmap.
Qed.

(** For a month in 1..12 and a day in 1..31 [solve_puzzle] returns a
    board or None, the same for every budget of 9 invocations or more,
    and raises nothing for any budget. *)
Lemma solve_puzzle_total month day :
  1 <= month <= 12 -> 1 <= day <= 31 ->
  (exists result : option ndarray,
     forall fuel, (9 <= fuel)%nat -> solve_puzzle ix fuel month day = Returns result) /\
  (forall fuel e, solve_puzzle ix fuel month day ≠ Raises e).
Proof.
  intros Hm Hd.
  destruct (target_cells_spec month day Hm Hd) as (mp & dp & Hmp & Hdp & Hmv & Hdv & Hne).
  destruct (playable_facts _ _ Hmv Hdv Hne) as (_ & _ & _ & Hbounds).
  pose proof (initial_state_well_shaped mp dp) as Hws.
  split.
  - destruct (solve_total ix _ _ Hbounds 9 (initial_state mp dp) Hws)
      as (found & st & Hsolve & _); [cbn; lia|].
    exists (if found then Some (board st) else None). intros fuel Hfuel.
    rewrite (solve_puzzle_unfold fuel month day mp dp) by done.
    rewrite (solve_budget_irrelevant ix _ _ fuel 9) by (cbn; lia).
    rewrite Hsolve. cbn [obind]. by destruct found.
  - intros fuel e. rewrite (solve_puzzle_unfold fuel month day mp dp) by done.
    pose proof (fun e' => solve_no_raise ix _ _ Hbounds fuel (initial_state mp dp)
                          e' Hws) as Hnr.
    destruct (solve ix fuel _ _ _) as [[[|] st]| |]; cbn [obind]; try discriminate.
    by destruct (Hnr e0).
Qed.
End Puzzle.

(** C9. For every month in 1..12 and day in 1..31, real calendar date or
    not, [solve_puzzle] terminates and returns a board or None: the same
    result for every nesting budget of 9 or more, and no exception for
    any budget. *)
Theorem solve_puzzle_returns `{SetIteration} (month day : Z) :
  1 <= month <= 12 -> 1 <= day <= 31 ->
  (exists result : option ndarray,
     forall fuel, (9 <= fuel)%nat ->
       solve_puzzle numpy_indexing fuel month day = Returns result) /\
  (forall fuel e, solve_puzzle numpy_indexing fuel month day ≠ Raises e).
Proof.
  (* the set-up and the search are total under either index semantics;
     this is the one the program runs on *)
  intros Hmonth Hday.
  exact (solve_puzzle_total numpy_indexing month day Hmonth Hday).
Qed.

Lemma solve_puzzle_returns_witness :
  (exists result : option ndarray,
     forall fuel, (9 <= fuel)%nat ->
       @solve_puzzle numpy_indexing insertion_order fuel 2 31 = Returns result) /\
  (forall fuel e, @solve_puzzle numpy_indexing insertion_order fuel 2 31 ≠ Raises e).
Proof. apply (@solve_puzzle_returns insertion_order 2 31); lia. Defined.

(** C10. The anchors [row - dr], [col - dc] that [solve] computes can lie
    outside the board, but the array is only indexed at coordinates that
    passed the [valid_cells] test, all within 0..6: with every index
    outside 0..6 refused instead of wrapped, the feasibility check, the
    placement, the removal, the whole search and [solve_puzzle] do the
    same as under numpy indexing, and [solve_puzzle] raises no
    IndexError. *)
Theorem board_indexed_in_bounds_only `{SetIteration} :
  (forall (valid_cells : pyset cell) b piece start_row start_col,
     (forall rc, rc ∈ valid_cells -> in_bounds rc) ->
     can_place_piece checked_indexing b piece start_row start_col valid_cells
     = can_place_piece numpy_indexing b piece start_row start_col valid_cells /\
     (can_place_piece numpy_indexing b piece start_row start_col valid_cells
        = Returns true ->
      Forall in_bounds (cells_at piece start_row start_col) /\
      forall b' v,
        place_piece checked_indexing b' piece start_row start_col v
        = place_piece numpy_indexing b' piece start_row start_col v /\
        remove_piece checked_indexing b' piece start_row start_col
        = remove_piece numpy_indexing b' piece start_row start_col)) /\
  (forall (valid_cells : pyset cell) fuel pieces_orientations st,
     (forall rc, rc ∈ valid_cells -> in_bounds rc) ->
     solve checked_indexing fuel pieces_orientations valid_cells st
     = solve numpy_indexing fuel pieces_orientations valid_cells st) /\
  (forall month day fuel,
     1 <= month <= 12 -> 1 <= day <= 31 ->
     solve_puzzle checked_indexing fuel month day
     = solve_puzzle numpy_indexing fuel month day /\
     solve_puzzle checked_indexing fuel month day ≠ Raises IndexError).
Proof.
  split; [|split].
  - intros valid_cells b piece sr sc Hbounds.
    split; [by apply can_place_piece_checked|].
    intros Hok. destruct (can_place_piece_true _ _ _ _ _ _ Hok) as [Hvalid _].
    assert (Hcells : Forall in_bounds (cells_at piece sr sc)).
    { eapply Forall_impl; [exact Hvalid|]. intros rc. apply Hbounds. }
    split; [done|]. intros b' v. split; [by apply place_piece_checked|].
    rewrite !remove_piece_place_piece. by apply place_piece_checked.
  - intros valid_cells fuel po st Hbounds. by apply solve_checked.
  - intros month day fuel Hm Hd.
    destruct (target_cells_spec month day Hm Hd) as (mp & dp & Hmp & Hdp & Hmv & Hdv & Hne).
    destruct (playable_facts _ _ Hmv Hdv Hne) as (_ & _ & _ & Hbounds).
    split.
    + rewrite !(solve_puzzle_unfold _ fuel month day mp dp) by done.
      by rewrite solve_checked.
    + by apply solve_puzzle_total.
Qed.

Lemma board_indexed_in_bounds_only_witness :
  can_place_piece checked_indexing (np_full (-1)) [(0, 1); (1, 0); (1, 1)] 0 (-1)
    [(0, 0); (1, 0)]
  = can_place_piece numpy_indexing (np_full (-1)) [(0, 1); (1, 0); (1, 1)] 0 (-1)
      [(0, 0); (1, 0)] /\
  @solve_puzzle checked_indexing insertion_order 9 12 31
  = @solve_puzzle numpy_indexing insertion_order 9 12 31.
Proof.
  destruct (@board_indexed_in_bounds_only insertion_order) as (Hcheck & _ & Hpuzzle).
  split.
  - apply Hcheck. intros rc Hrc.
    apply elem_of_cons in Hrc as [->|Hrc]; [by vm_compute|].
    apply list_elem_of_singleton in Hrc as ->. by vm_compute.
  - apply Hpuzzle; lia.
Defined.

(** ** Solutions *)

Lemma finite_choice {A} (P : nat -> A -> Prop) (n : nat) :
  (forall i, (i < n)%nat -> exists x, P i x) ->
  exists l, length l = n /\ forall i x, l !! i = Some x -> P i x.
Proof.
  induction n as [|n IH]; intros Hex.
  - exists []. split; [done|]. intros i x Hi. inversion Hi.
  - destruct IH as (l & Hlen & Hl); [intros i Hi; apply Hex; lia|].
    destruct (Hex n ltac:(lia)) as [x Hx].
    exists (l ++ [x]). split; [rewrite length_app; simpl; lia|].
    intros i y Hi. apply lookup_app_Some in Hi as [Hi|[Hge Hi]]; [by apply Hl|].
    apply list_lookup_singleton_Some in Hi as [Hi ->].
    replace i with n by lia. done.
Qed.

Lemma list_comprehension_lookup {A B} (f : A -> outcome B) xs ys i y :
  list_comprehension f xs = Returns ys -> ys !! i = Some y ->
  exists x, xs !! i = Some x /\ f x = Returns y.
Proof.
  revert ys i. induction xs as [|x xs IH]; intros ys i; cbn [list_comprehension].
  - intros [= <-] Hi. inversion Hi.
  - destruct (f x) as [y0| |] eqn:Hfx; cbn [obind]; try discriminate.
    destruct (list_comprehension f xs) as [ys0| |]; cbn [obind]; try discriminate.
    intros [= <-]. destruct i as [|i]; simpl.
    + intros [= ->]. eauto.
    + intros Hi. by apply (IH ys0).
Qed.

Lemma board_get_offset ix b rc v :
  in_bounds rc ->
  board_get ix b rc.1 rc.2 = Returns v <-> b !! offset rc = Some v.
Proof.
  intros Hrc. destruct rc as [r c]. unfold board_get. cbn [fst snd].
  rewrite flat_index_in_bounds by done. cbn [obind].
  destruct (b !! offset (r, c)); split; intros Heq; by inversion Heq.
Qed.

Lemma bind_length_8 {A B} (f : A -> list B) (l : list A) (n0 n : nat) :
  length l = 8%nat ->
  (forall i x, l !! i = Some x ->
     length (f x) = if decide (i = 0%nat) then n0 else n) ->
  length (l ≫= f) = (n0 + 7 * n)%nat.
Proof.
  intros Hlen Hl.
  destruct l as [|x0 [|x1 [|x2 [|x3 [|x4 [|x5 [|x6 [|x7 [|? ?]]]]]]]]];
    try discriminate Hlen.
  rewrite !bind_cons, !length_app.
  rewrite (Hl 0%nat x0), (Hl 1%nat x1), (Hl 2%nat x2), (Hl 3%nat x3),
    (Hl 4%nat x4), (Hl 5%nat x5), (Hl 6%nat x6), (Hl 7%nat x7) by reflexivity.
  simpl. lia.
Qed.

Section Solutions.
Context `{SetIteration}.

Lemma precomputed_lookup piece_id orientations :
  (set_iter <$> orientation_sets) !! piece_id = Some orientations ->
  exists piece,
    PIECES !! piece_id = Some piece /\
    get_all_orientations piece = Returns orientations.
Proof.
  intros Hlook.
  exact (list_comprehension_lookup _ _ _ _ _ orientations_of_PIECES Hlook).
Qed.

Lemma piece_sizes_facts :
  (forall piece_id n, piece_sizes !! piece_id = Some n ->
     (0 < n)%nat /\ n = if decide (piece_id = 0%nat) then 6%nat else 5%nat) /\
  length piece_sizes = length (set_iter <$> orientation_sets).
Proof.
  split; [|by rewrite length_fmap].
  intros pid n.
  do 8 (destruct pid as [|pid]; [intros [= <-]; simpl; split; [lia|done]|]).
  intros Hn. inversion Hn.
Qed.

(** A full board that satisfies the invariant is a solution. *)
Lemma full_consistent_is_solution month_pos day_pos st :
  month_pos ∈ get_all_valid_cells -> day_pos ∈ get_all_valid_cells ->
  month_pos ≠ day_pos ->
  consistent (set_iter <$> orientation_sets) (playable month_pos day_pos)
    piece_sizes st ->
  (forall rc, rc ∈ playable month_pos day_pos -> board st !! offset rc ≠ Some (-1)) ->
  is_solution month_pos day_pos (board st).
Proof.
  intros Hmv Hdv Hne Hc Hfull.
  destruct (playable_facts _ _ Hmv Hdv Hne) as (_ & _ & Hplay & Hbounds).
  destruct piece_sizes_facts as [Hsizes Hslen].
  assert (Hused : forall pid, (pid < 8)%nat -> used_pieces st !! pid = Some true).
  { intros pid Hpid.
    eapply full_board_all_used; [|exact Hslen|exact Hc|exact Hfull|].
    - intros i n Hn. by destruct (Hsizes i n Hn).
    - by rewrite length_fmap. }
  destruct (finite_choice
    (fun pid (p : shape * cell) =>
       (exists os, (set_iter <$> orientation_sets) !! pid = Some os /\ p.1 ∈ os) /\
       Forall (fun rc => rc ∈ playable month_pos day_pos) (placement_cells p) /\
       forall rc, in_bounds rc ->
         (board st !! offset rc = Some (Z.of_nat pid) <-> rc ∈ placement_cells p)) 8)
    as (placements & Hlen & Hpl).
  { intros pid Hpid.
    destruct (cons_pieces _ _ _ _ Hc pid (Hused pid Hpid))
      as (os & piece & sr & sc & Hpo & Hin & Hvalid & Hiff).
    exists (piece, (sr, sc)). split; [by exists os|]. by split. }
  exists placements. split; [done|]. split; [|split; [|split]].
  - intros pid p Hp. destruct (Hpl pid p Hp) as ((os & Hpo & Hin) & Hvalid & Hiff).
    destruct (precomputed_lookup pid os Hpo) as (piece & Hpiece & Horient).
    destruct (precomputed_sized pid os p.1 Hpo Hin) as [Hnd Hsize].
    assert (Hlo : length (placement_cells p) = length p.1) by apply cells_at_length.
    split; [|split; [|split; [|split]]].
    + exists piece, os. do 3 (split; [done|]). rewrite Hlo.
      unfold piece_sizes in Hsize. rewrite list_lookup_fmap, Hpiece in Hsize.
      by injection Hsize as ->.
    + rewrite Hlo. by destruct (Hsizes _ _ Hsize) as [_ <-].
    + by apply cells_at_NoDup.
    + intros rc Hrc. apply Hplay. rewrite Forall_forall in Hvalid. by apply Hvalid.
    + intros rc Hrc. rewrite board_get_offset by done. by apply Hiff.
  - intros rc Hrc Hm Hd.
    assert (Hrcp : rc ∈ playable month_pos day_pos) by (by apply Hplay).
    pose proof (Hbounds rc Hrcp) as Hrcb.
    destruct (lookup_lt_is_Some_2 (board st) (offset rc)) as [v Hv].
    { destruct (cons_shape _ _ _ _ Hc) as [-> _]. by apply offset_lt. }
    destruct (cons_values _ _ _ _ Hc _ _ Hv) as [->|[->|(pid & -> & Hu)]].
    + by destruct (cons_playable _ _ _ _ Hc rc Hrcp).
    + by destruct (Hfull rc Hrcp).
    + exists pid. split; [|by apply board_get_offset].
      apply lookup_lt_Some in Hu.
      destruct (cons_shape _ _ _ _ Hc) as [_ Hul].
      rewrite Hul, length_fmap in Hu. exact Hu.
  - intros pid1 pid2 p1 p2 rc Hp1 Hp2 Hrc1 Hrc2.
    destruct (Hpl pid1 p1 Hp1) as (_ & Hvalid1 & Hiff1).
    destruct (Hpl pid2 p2 Hp2) as (_ & _ & Hiff2).
    rewrite Forall_forall in Hvalid1.
    pose proof (Hbounds rc (Hvalid1 rc Hrc1)) as Hrcb.
    apply Hiff1 in Hrc1; [|done]. apply Hiff2 in Hrc2; [|done].
    rewrite Hrc1 in Hrc2. injection Hrc2 as Heq. by apply Nat2Z.inj.
  - rewrite (bind_length_8 placement_cells placements 6 5 Hlen); [done|].
    intros pid p Hp. destruct (Hpl pid p Hp) as ((os & Hpo & Hin) & _ & _).
    destruct (precomputed_sized pid os p.1 Hpo Hin) as [_ Hsize].
    unfold placement_cells. rewrite cells_at_length.
    by destruct (Hsizes _ _ Hsize) as [_ <-].
Qed.

End Solutions.

(** C1. For every month in 1..12 and day in 1..31, a board returned by
    [solve_puzzle] is a solution: each of the 8 pieces is placed once, in
    one of its orientations, on exactly as many cells as it has (6 for
    piece 0, 5 for pieces 1..7, 41 cells in all); every playable cell
    other than the two targets holds a piece id in 0..7; and no cell is
    claimed by two pieces. *)
Theorem solve_puzzle_board_is_solution `{SetIteration}
    (fuel : nat) (month day : Z) (b : ndarray) :
  1 <= month <= 12 -> 1 <= day <= 31 ->
  solve_puzzle numpy_indexing fuel month day = Returns (Some b) ->
  exists month_pos day_pos,
    month_cell month = Returns month_pos /\ day_cell day = Returns day_pos /\
    is_solution month_pos day_pos b.
Proof.
  intros Hm Hd.
  destruct (target_cells_spec month day Hm Hd) as (mp & dp & Hmp & Hdp & Hmv & Hdv & Hne).
  destruct (playable_facts _ _ Hmv Hdv Hne) as (_ & _ & _ & Hbounds).
  rewrite (solve_puzzle_unfold numpy_indexing fuel month day mp dp) by done.
  destruct (solve numpy_indexing fuel _ _ _) as [[[|] st]| |] eqn:Hsolve; cbn [obind];
    try discriminate.
  intros [= <-]. exists mp, dp. do 2 (split; [done|]).
  (* the invariant holds initially, so it holds of the returned state,
     whose board is full *)
  destruct (solve_sound numpy_indexing _ _ piece_sizes Hbounds precomputed_sized fuel _ _
              (initial_state_consistent mp dp Hmv Hdv Hne) Hsolve) as [Hc Hfull].
  by apply full_consistent_is_solution.
Qed.

Lemma solve_puzzle_board_is_solution_witness :
  exists month_pos day_pos,
    month_cell 2 = Returns month_pos /\ day_cell 31 = Returns day_pos /\
    @is_solution insertion_order month_pos day_pos
      [ 1; -2;  5;  0;  0;  0; -2;
        1;  5;  5;  0;  0;  0; -2;
        1;  5;  5;  4;  4;  4;  6;
        1;  1;  4;  4;  3;  3;  6;
        7;  7;  7;  2;  3;  6;  6;
        7;  2;  2;  2;  3;  3;  6;
        7;  2; -2; -2; -2; -2; -2 ].
Proof.
  apply (@solve_puzzle_board_is_solution insertion_order 9 2 31); [lia|lia|].
  vm_compute. reflexivity.
Defined.

(** ** The mutations of the search, step by step *)

Section Steps.
Variable pieces_orientations : list (list shape).
Variable valid_cells : pyset cell.
Hypothesis valid_in_bounds : forall rc, rc ∈ valid_cells -> in_bounds rc.
Local Abbreviation untouched := (untouched valid_cells).

Lemma write_all_outside v cells b rc :
  Forall (fun rc' => rc' ∈ valid_cells) cells ->
  in_bounds rc -> rc ∉ valid_cells ->
  write_all v (offset <$> cells) b !! offset rc = b !! offset rc.
Proof.
  intros Hcells Hrc Hout. rewrite write_all_lookup.
  rewrite decide_False; [done|]. intros [Hin _].
  apply offsets_elem in Hin; [|by eapply Forall_impl; [exact Hcells|]|done].
  rewrite Forall_forall in Hcells. by apply Hout, Hcells.
Qed.

Lemma search_step_untouched cfg cfg' :
  search_step pieces_orientations valid_cells cfg cfg' ->
  untouched cfg -> untouched cfg'.
Proof.
  intros Hstep (Hlen & Hout & Hframes).
  destruct Hstep as [st frames row col pid os piece off b u Hfind Hpo Hitem Hin Hoff
                       Hok Hplace Hassign
                    |st frames f b u Hrem Hassign]; cbn [fst snd] in *.
  - destruct (can_place_piece_true _ _ _ _ _ _ Hok) as [Hvalid _].
    rewrite (place_piece_spec _ valid_cells valid_in_bounds) in Hplace by done.
    injection Hplace as <-. unfold untouched. cbn [fst snd board].
    split; [by rewrite write_all_length|]. split.
    + intros rc Hrc Hnv. rewrite write_all_outside by done. by apply Hout.
    + by constructor.
  - inversion Hframes as [|? ? Hvalid Hframes']; subst.
    rewrite remove_piece_place_piece,
      (place_piece_spec _ valid_cells valid_in_bounds) in Hrem by done.
    injection Hrem as <-. unfold untouched. cbn [fst snd board].
    split; [by rewrite write_all_length|]. split; [|done].
    intros rc Hrc Hnv. rewrite write_all_outside by done. by apply Hout.
Qed.

Lemma reachable_untouched cfg cfg' :
  rtc (search_step pieces_orientations valid_cells) cfg cfg' ->
  untouched cfg -> untouched cfg'.
Proof. induction 1; eauto using search_step_untouched. Qed.

(** The state in which a call of [solve] returns is reached from the
    state at entry by such steps. *)
Lemma solve_reaches fuel :
  forall st found st' frames,
    well_shaped pieces_orientations st ->
    solve numpy_indexing fuel pieces_orientations valid_cells st = Returns (found, st') ->
    exists frames',
      rtc (search_step pieces_orientations valid_cells) (st, frames) (st', frames').
Proof.
  induction fuel as [|fuel IH]; intros st found st' frames Hws; [discriminate|].
  destruct (solve_cases numpy_indexing pieces_orientations valid_cells valid_in_bounds
              fuel st Hws)
    as [[-> _]|(row & col & Hfind & _ & _ &
                [[-> _]|(pid & piece & off & (os & Hpo & Hunused & Hin & Hoff)
                          & Hpl & -> & _)])].
  - intros [= _ <-]. exists frames. apply rtc_refl.
  - intros [= _ <-]. exists frames. apply rtc_refl.
  - intros Hsolve. destruct Hws as [Hlen Hulen].
    destruct (IH _ _ _ ({| frame_piece_id := pid; frame_piece := piece;
                           frame_row := row - off.1; frame_col := col - off.2 |}
                        :: frames)
                (placed_well_shaped _ _ pid piece _ _ (conj Hlen Hulen)) Hsolve)
      as [frames' Hrtc].
    exists frames'. eapply rtc_l; [|exact Hrtc].
    destruct (can_place_piece_spec numpy_indexing valid_cells valid_in_bounds
                (board st) piece (row - off.1) (col - off.2) Hlen) as (ok & Hok & Hiff).
    assert (ok = true) by (by apply Hiff). subst ok.
    eapply (step_place _ _ st frames row col pid os piece off); try done.
    + unfold list_item. by rewrite Hunused.
    + apply (place_piece_spec _ valid_cells valid_in_bounds); [done|].
      unfold placeable in Hpl. eapply Forall_impl; [exact Hpl|]. by intros rc [? _].
    + unfold list_assign. rewrite decide_True by (by eapply lookup_lt_Some). done.
Qed.
End Steps.

(** C2. The month cell and the day cell of a query are never given a
    piece id. In every state reached from the state in which
    [solve_puzzle] calls [solve] by placements and undos of the search,
    both cells hold -2; every state in which that call of [solve] returns
    is reached in this way; and in every board [solve_puzzle] returns
    both cells hold -2, which is no piece id. *)
Theorem target_cells_never_occupied `{SetIteration}
    (month day : Z) (month_pos day_pos : cell) (pieces_orientations : list (list shape)) :
  1 <= month <= 12 -> 1 <= day <= 31 ->
  month_cell month = Returns month_pos ->
  day_cell day = Returns day_pos ->
  precompute_piece_orientations = Returns pieces_orientations ->
  let valid_cells := playable month_pos day_pos in
  let holds_minus_2 (b : ndarray) :=
    board_get numpy_indexing b month_pos.1 month_pos.2 = Returns (-2) /\
    board_get numpy_indexing b day_pos.1 day_pos.2 = Returns (-2) in
  (forall st frames,
     rtc (search_step pieces_orientations valid_cells)
       (initial_state month_pos day_pos, []) (st, frames) ->
     holds_minus_2 (board st)) /\
  (forall fuel found st,
     solve numpy_indexing fuel pieces_orientations valid_cells
       (initial_state month_pos day_pos) = Returns (found, st) ->
     exists frames,
       rtc (search_step pieces_orientations valid_cells)
         (initial_state month_pos day_pos, []) (st, frames)) /\
  (forall fuel b,
     solve_puzzle numpy_indexing fuel month day = Returns (Some b) ->
     holds_minus_2 b).
Proof.
  intros Hm Hd Hmp Hdp Hpre valid_cells holds_minus_2.
  destruct (target_cells_spec month day Hm Hd)
    as (mp & dp & Hmp' & Hdp' & Hmv & Hdv & Hne).
  rewrite Hmp in Hmp'. rewrite Hdp in Hdp'. injection Hmp' as <-. injection Hdp' as <-.
  rewrite precompute_piece_orientations_spec in Hpre. injection Hpre as <-.
  destruct (playable_facts _ _ Hmv Hdv Hne) as (_ & _ & Hplay & Hbounds).
  destruct get_all_valid_cells_facts as (_ & _ & Hall). rewrite Forall_forall in Hall.
  destruct (Hall _ Hmv) as [Hmb _]. destruct (Hall _ Hdv) as [Hdb _].
  assert (Hinit : untouched valid_cells (initial_state month_pos day_pos, [])).
  { pose proof (initial_state_consistent month_pos day_pos Hmv Hdv Hne) as Hc.
    split; [by destruct (cons_shape _ _ _ _ Hc)|]. split; [|constructor].
    apply (cons_blocked _ _ _ _ Hc). }
  assert (Hreach : forall st frames,
            rtc (search_step (set_iter <$> orientation_sets) valid_cells)
              (initial_state month_pos day_pos, []) (st, frames) ->
            holds_minus_2 (board st)).
  { intros st frames Hrtc.
    destruct (reachable_untouched _ _ Hbounds _ _ Hrtc Hinit) as (_ & Hout & _).
    cbn [fst] in Hout. split; apply board_get_offset; try done; apply Hout; try done.
    - intros Hin. apply Hplay in Hin. tauto.
    - intros Hin. apply Hplay in Hin. tauto. }
  assert (Hsolve : forall fuel found st,
            solve numpy_indexing fuel (set_iter <$> orientation_sets) valid_cells
              (initial_state month_pos day_pos) = Returns (found, st) ->
            exists frames,
              rtc (search_step (set_iter <$> orientation_sets) valid_cells)
                (initial_state month_pos day_pos, []) (st, frames)).
  { intros fuel found st Hs.
    apply (solve_reaches _ _ Hbounds fuel _ found); [|done].
    apply initial_state_well_shaped. }
  split; [done|]. split; [done|].
  intros fuel b. rewrite (solve_puzzle_unfold _ fuel month day month_pos day_pos) by done.
  destruct (solve numpy_indexing fuel _ _ _) as [[[|] st]| |] eqn:Hs; cbn [obind];
    try discriminate.
  intros [= <-]. destruct (Hsolve _ _ _ Hs) as [frames Hrtc]. by eapply Hreach.
Qed.

Lemma target_cells_never_occupied_witness :
  let b := [ -2;  1;  1;  1;  1;  4; -2;
              2;  2;  5;  5;  1;  4; -2;
             -2;  2;  5;  5;  5;  4;  4;
              6;  2;  2;  7;  7;  7;  4;
              6;  3;  3;  7;  0;  0;  0;
              6;  6;  3;  7;  0;  0;  0;
              6;  3;  3; -2; -2; -2; -2 ] in
  board_get numpy_indexing b 0 0 = Returns (-2) /\
  board_get numpy_indexing b 2 0 = Returns (-2).
Proof.
  destruct (@target_cells_never_occupied insertion_order 1 1 (0, 0) (2, 0)
              orientation_sets) as (_ & _ & Hreturned);
    [lia|lia|reflexivity|reflexivity|vm_compute; reflexivity|].
  apply (Hreturned 9%nat). vm_compute. reflexivity.
Defined.

(** ** The search finds a tiling whenever there is one *)

Section Completeness.
Variable ix : indexing.
Variable pieces_orientations : list (list shape).
Variable valid_cells : pyset cell.
Hypothesis valid_in_bounds : forall rc, rc ∈ valid_cells -> in_bounds rc.
Local Abbreviation completes := (completes pieces_orientations valid_cells).

Lemma completes_perm tiling tiling' st :
  tiling ≡ₚ tiling' -> completes tiling st -> completes tiling' st.
Proof.
  intros Hp (Hids & Hcells & Hpieces & Hcover). split; [|split; [|split]].
  - by rewrite <- Hp.
  - by rewrite <- Hp.
  - intros f Hf. apply Hpieces. by rewrite Hp.
  - intros rc. rewrite (Hcover rc). by rewrite Hp.
Qed.

(** Committing one placement of the tiling leaves the others to complete
    the new state. *)
Lemma completes_placed f tiling st :
  length (board st) = 49%nat ->
  completes (f :: tiling) st ->
  placeable valid_cells st (frame_piece f) (frame_row f) (frame_col f) /\
  completes tiling
    (placed (frame_piece_id f) (frame_piece f) (frame_row f) (frame_col f) st).
Proof.
  intros Hlen (Hids & Hcells & Hpieces & Hcover).
  rewrite fmap_cons in Hids. apply NoDup_cons in Hids as [Hfresh Hids].
  rewrite bind_cons in Hcells. apply NoDup_app in Hcells as (Hf & Hdisj & Hrest).
  assert (Hpl : placeable valid_cells st (frame_piece f) (frame_row f) (frame_col f)).
  { apply Forall_forall. intros rc Hrc. apply Hcover. rewrite bind_cons.
    apply elem_of_app. by left. }
  split; [done|].
  assert (Hbounds : Forall in_bounds (frame_cells f)).
  { eapply Forall_impl; [exact Hpl|]. intros rc [? _]. by apply valid_in_bounds. }
  split; [done|]. split; [done|]. split.
  - intros g Hg. destruct (Hpieces g) as [Hu Hos]; [by right|]. split; [|done].
    cbn [placed used_pieces]. rewrite list_lookup_insert_ne; [done|].
    intros Heq. apply Hfresh. rewrite Heq. apply list_elem_of_fmap. by exists g.
  - intros rc. split.
    + intros [Hv Hempty]. rewrite placed_lookup in Hempty by auto.
      case_decide as Hin; [injection Hempty; lia|].
      assert (Hall : rc ∈ (f :: tiling) ≫= frame_cells) by (by apply Hcover).
      rewrite bind_cons in Hall. apply elem_of_app in Hall as [?|?]; done.
    + intros Hrc.
      assert (Hall : rc ∈ (f :: tiling) ≫= frame_cells).
      { rewrite bind_cons. apply elem_of_app. by right. }
      apply Hcover in Hall as [Hv Hempty]. split; [done|].
      rewrite placed_lookup by auto. rewrite decide_False; [done|].
      intros Hin. by apply (Hdisj rc).
Qed.

(** If some tiling completes a well-shaped state, [solve] returns True. *)
Lemma solve_complete fuel :
  forall st tiling,
    well_shaped pieces_orientations st ->
    completes tiling st ->
    (unused_count (used_pieces st) < fuel)%nat ->
    exists st',
      solve ix fuel pieces_orientations valid_cells st = Returns (true, st').
Proof.
  induction fuel as [|fuel IH]; intros st tiling Hws Hcomp Hfuel; [lia|].
  destruct (solve_total ix _ _ valid_in_bounds (S fuel) st Hws Hfuel)
    as ([|] & st' & Hsolve & _); [by eauto|]. exfalso.
  destruct (solve_cases ix pieces_orientations valid_cells valid_in_bounds fuel st Hws)
    as [[Htrue _]|(row & col & _ & Hvalid & Hempty &
                   [[_ Hfail]|(pid & piece & off & _ & _ & Heq & Hne)])].
  - congruence.
  - (* the first empty cell lies in a placement of the tiling *)
    destruct Hcomp as (Hids & Hcells & Hpieces & Hcover).
    assert (Hin : (row, col) ∈ tiling ≫= frame_cells) by (by apply Hcover).
    apply list_elem_of_bind in Hin as (f & Hrc & Hf).
    apply elem_of_Permutation in Hf as [tiling' Hperm].
    destruct (completes_placed f tiling' st (proj1 Hws)) as [Hpl Hcomp'].
    { apply (completes_perm tiling); [done|].
      exact (conj Hids (conj Hcells (conj Hpieces Hcover))). }
    set (off := (row - frame_row f, col - frame_col f)).
    assert (Hr : frame_row f = row - off.1) by (subst off; simpl; lia).
    assert (Hc : frame_col f = col - off.2) by (subst off; simpl; lia).
    destruct (Hpieces f) as [Hu (os & Hpo & Hos)].
    { rewrite Hperm. left. }
    rewrite Hr, Hc in Hpl, Hcomp'.
    destruct (Hfail (frame_piece_id f) (frame_piece f) off) as [st1 Hst1]; [|done|].
    { exists os. do 3 (split; [done|]). by apply cells_at_elem in Hrc. }
    destruct (IH _ tiling' (placed_well_shaped _ _ _ _ _ _ Hws) Hcomp') as [st2 Hst2].
    { pose proof (placed_unused_count st (frame_piece_id f) (frame_piece f)
                    (row - off.1) (col - off.2) Hu). lia. }
    congruence.
  - rewrite Heq in Hsolve. by apply (Hne st').
Qed.
End Completeness.

(** ** 1 January *)

Lemma january_first_targets :
  month_cell 1 = Returns (0, 0) /\ day_cell 1 = Returns (2, 0) /\
  (0, 0) ∈ get_all_valid_cells /\ (2, 0) ∈ get_all_valid_cells.
Proof.
  split; [vm_compute; reflexivity|]. split; [vm_compute; reflexivity|].
  split; apply (bool_decide_unpack _); vm_compute; exact I.
Qed.

Lemma january_first_completes `{SetIteration} :
  completes (set_iter <$> orientation_sets) (playable (0, 0) (2, 0))
    january_first_tiling (initial_state (0, 0) (2, 0)).
Proof.
  destruct january_first_targets as (_ & _ & Hmv & Hdv).
  assert (Hne : (0, 0) ≠ (2, 0)) by discriminate.
  destruct (playable_facts _ _ Hmv Hdv Hne) as (_ & _ & _ & Hbounds).
  assert (Hids : frame_piece_id <$> january_first_tiling = seq 0 8) by reflexivity.
  assert (Hshapes : Forall2 (fun f s => frame_piece f ∈ s)
                      january_first_tiling orientation_sets).
  { apply (bool_decide_unpack _). vm_compute. exact I. }
  assert (Hsame : Forall (fun rc => rc ∈ january_first_tiling ≫= frame_cells)
                    (playable (0, 0) (2, 0)) /\
                  Forall (fun rc => rc ∈ playable (0, 0) (2, 0))
                    (january_first_tiling ≫= frame_cells)).
  { split; apply (bool_decide_unpack _); vm_compute; exact I. }
  destruct Hsame as [Hsub1 Hsub2]. rewrite Forall_forall in Hsub1, Hsub2.
  split; [|split; [|split]].
  - rewrite Hids. apply NoDup_seq.
  - apply (bool_decide_unpack _). vm_compute. exact I.
  - intros f Hf. apply list_elem_of_lookup in Hf as [i Hi].
    assert (Hid : frame_piece_id f = i).
    { assert (Hlook : (frame_piece_id <$> january_first_tiling) !! i
                      = Some (frame_piece_id f)) by (by rewrite list_lookup_fmap, Hi).
      rewrite Hids in Hlook. apply lookup_seq in Hlook. lia. }
    pose proof (lookup_lt_Some _ _ _ Hi) as Hlt. change (i < 8)%nat in Hlt.
    destruct (Forall2_lookup_l _ _ _ _ _ Hshapes Hi) as (s & Hs & Hin).
    rewrite Hid. split.
    + cbn [initial_state used_pieces]. by apply lookup_replicate_2.
    + exists (set_iter s). split; [by rewrite list_lookup_fmap, Hs|].
      by rewrite set_iter_perm.
  - intros rc. split.
    + intros [Hv _]. by apply Hsub1.
    + intros Hrc. pose proof (Hsub2 rc Hrc) as Hv. split; [done|].
      rewrite initial_board_lookup by auto. by rewrite decide_True.
Qed.

(** C7. [solve_puzzle(1, 1)], with the month cell (0,0) of January and
    the day cell (2,0) of day 1 excluded, returns a board, and that
    board is a solution: the remaining 41 playable cells are covered and
    each of the 8 pieces is used exactly once. *)
Theorem solve_puzzle_january_first `{SetIteration} (fuel : nat) :
  (9 <= fuel)%nat ->
  month_cell 1 = Returns (0, 0) /\ day_cell 1 = Returns (2, 0) /\
  exists b,
    solve_puzzle numpy_indexing fuel 1 1 = Returns (Some b) /\
    is_solution (0, 0) (2, 0) b.
Proof.
  intros Hfuel. destruct january_first_targets as (Hmp & Hdp & Hmv & Hdv).
  assert (Hne : (0, 0) ≠ (2, 0)) by discriminate.
  do 2 (split; [done|]).
  destruct (playable_facts _ _ Hmv Hdv Hne) as (_ & _ & _ & Hbounds).
  destruct (solve_complete numpy_indexing _ _ Hbounds fuel _ january_first_tiling
              (initial_state_well_shaped (0, 0) (2, 0)) january_first_completes)
    as [st Hsolve]; [cbn; lia|].
  exists (board st).
  assert (Hpuzzle : solve_puzzle numpy_indexing fuel 1 1 = Returns (Some (board st))).
  { rewrite (solve_puzzle_unfold _ fuel 1 1 (0, 0) (2, 0)) by done.
    by rewrite Hsolve. }
  split; [done|].
  destruct (solve_sound numpy_indexing _ _ piece_sizes Hbounds precomputed_sized fuel _ _
              (initial_state_consistent (0, 0) (2, 0) Hmv Hdv Hne) Hsolve) as [Hc Hfull].
  by apply full_consistent_is_solution.
Qed.

Lemma solve_puzzle_january_first_witness :
  month_cell 1 = Returns (0, 0) /\ day_cell 1 = Returns (2, 0) /\
  exists b,
    @solve_puzzle numpy_indexing insertion_order 9 1 1 = Returns (Some b) /\
    @is_solution insertion_order (0, 0) (2, 0) b.
Proof. apply (@solve_puzzle_january_first insertion_order 9). lia. Defined.

(** ** Shapes: turning, flipping and the canonical form *)

(** Two translates of one shape that are both anchored are the same list. *)
Lemma anchored_translate_unique (q : shape) t1 t2 u1 u2 :
  anchored (map (fun '(r, c) => (r + t1, c + t2)) q) ->
  anchored (map (fun '(r, c) => (r + u1, c + u2)) q) ->
  t1 = u1 /\ t2 = u2.
Proof.
  intros [Hr1 Hc1] [Hr2 Hc2].
  assert (Hne : q ≠ []) by (intros ->; discriminate Hr1).
  destruct (min_row_nonempty q Hne) as [mr Hmr].
  destruct (min_col_nonempty q Hne) as [mc Hmc].
  rewrite (min_row_translate q mr t1 t2 Hmr) in Hr1.
  rewrite (min_row_translate q mr u1 u2 Hmr) in Hr2.
  rewrite (min_col_translate q mc t1 t2 Hmc) in Hc1.
  rewrite (min_col_translate q mc u1 u2 Hmc) in Hc2.
  injection Hr1 as ?. injection Hr2 as ?. injection Hc1 as ?. injection Hc2 as ?.
  lia.
Qed.

(** X1. Flipping twice gives the shape back: on a shape whose least row
    and least column are 0, [flip_piece] applied two times returns the
    very list it was given, cell by cell and in the same order. *)
Theorem flip_piece_twice (piece : shape) :
  min_row piece = Returns 0 ->
  min_col piece = Returns 0 ->
  (let! flipped := flip_piece piece in flip_piece flipped) = Returns piece.
Proof.
  intros Hr Hc.
  assert (Hanch : anchored piece) by (by split).
  destruct (flip_piece_spec piece (anchored_nonempty _ Hanch)) as (a1 & b1 & E1 & A1).
  destruct (flip_piece_spec _ (anchored_nonempty _ A1)) as (a2 & b2 & E2 & A2).
  rewrite E1. cbn [obind]. rewrite E2. f_equal.
  rewrite map_map in A2 |- *.
  assert (Heq : map (fun x : Z * Z =>
                  let '(r, c) := let '(r, c) := x in (r + a1, - c + b1) in
                  (r + a2, - c + b2)) piece
                = map (fun '(r, c) => (r + (a1 + a2), c + (- b1 + b2))) piece).
  { apply map_ext. intros [r c]. f_equal; lia. }
  rewrite Heq in A2 |- *.
  assert (Hid : anchored (map (fun '(r, c) => (r + 0, c + 0)) piece)).
  { replace (map (fun '(r, c) => (r + 0, c + 0)) piece) with piece; [done|].
    rewrite <- (map_id piece) at 1. apply map_ext. intros [r c]. f_equal; lia. }
  destruct (anchored_translate_unique _ _ _ _ _ A2 Hid) as [-> ->].
  rewrite <- (map_id piece) at 2. apply map_ext. intros [r c]. f_equal; lia.
Qed.

Lemma flip_piece_twice_witness :
  (let! flipped := flip_piece [(0, 1); (1, 0); (1, 1); (2, 0); (3, 0)] in
   flip_piece flipped) = Returns [(0, 1); (1, 0); (1, 1); (2, 0); (3, 0)].
Proof. apply flip_piece_twice; reflexivity. Defined.

Lemma translate_translate a b c d p :
  translate a b (translate c d p) = translate (c + a) (d + b) p.
Proof.
  unfold translate. rewrite map_map. apply map_ext. intros [r' c']. f_equal; lia.
Qed.

Lemma translate_0 p : translate 0 0 p = p.
Proof.
  unfold translate. rewrite <- (map_id p) at 2. apply map_ext.
  intros [r c]. f_equal; lia.
Qed.

Lemma translate_perm a b p q : p ≡ₚ q -> translate a b p ≡ₚ translate a b q.
Proof. intros Hp. unfold translate. by apply fmap_Permutation. Qed.

Lemma translate_nonempty a b p : p ≠ [] -> translate a b p ≠ [].
Proof. by destruct p. Qed.

Lemma min_row_perm p q m : p ≡ₚ q -> min_row p = Returns m -> min_row q = Returns m.
Proof. intros Hp. apply py_min_perm. by apply fmap_Permutation. Qed.

Lemma min_col_perm p q m : p ≡ₚ q -> min_col p = Returns m -> min_col q = Returns m.
Proof. intros Hp. apply py_min_perm. by apply fmap_Permutation. Qed.

Lemma anchored_nonneg p rc : anchored p -> rc ∈ p -> 0 <= rc.1 /\ 0 <= rc.2.
Proof.
  intros [Hr Hc] Hin. apply py_min_least in Hr as [_ Hr]. apply py_min_least in Hc as [_ Hc].
  split.
  - apply Hr. apply list_elem_of_fmap. by exists rc.
  - apply Hc. apply list_elem_of_fmap. by exists rc.
Qed.

Global Instance cell_le_trans : Transitive cell_le.
Proof. intros [a b] [c d] [e f]. unfold cell_le. simpl. lia. Qed.

Global Instance cell_le_total : Total cell_le.
Proof. intros [a b] [c d]. unfold cell_le. simpl. lia. Qed.

Global Instance cell_le_antisymm : AntiSymm (=) cell_le.
Proof. intros [a b] [c d]. unfold cell_le. simpl. intros ? ?. f_equal; lia. Qed.

Lemma sorted_Sorted xs : Sorted cell_le (sorted xs).
Proof. apply Sorted_merge_sort. apply _. Qed.

Lemma sorted_perm_eq xs ys : xs ≡ₚ ys -> sorted xs = sorted ys.
Proof.
  intros Hp. apply (Sorted_unique cell_le).
  - apply sorted_Sorted.
  - apply sorted_Sorted.
  - by rewrite !sorted_perm.
Qed.

(** [normalize_piece] sorts the shape moved to the origin. *)
Lemma normalize_piece_translate piece mr mc :
  min_row piece = Returns mr -> min_col piece = Returns mc ->
  normalize_piece piece = Returns (sorted (translate (- mr) (- mc) piece)).
Proof.
  intros Hr Hc. unfold normalize_piece. fold (min_row piece). fold (min_col piece).
  rewrite Hr, Hc. reflexivity.
Qed.

(** X2. [normalize_piece] is a canonical form for having the same cells
    up to one translation and up to the order of the list: two non-empty
    shapes get equal results exactly when one is a rearranged translate
    of the other; the result is itself such a translate of the input,
    and normalising it again changes nothing. *)
Theorem normalize_piece_canonical (p q : shape) :
  p ≠ [] -> q ≠ [] ->
  (normalize_piece p = normalize_piece q <-> same_shape p q) /\
  (exists n, normalize_piece p = Returns n /\ same_shape p n /\
     normalize_piece n = Returns n).
Proof.
  intros Hp Hq.
  destruct (min_row_nonempty p Hp) as [pr Hpr]. destruct (min_col_nonempty p Hp) as [pc Hpc].
  destruct (min_row_nonempty q Hq) as [qr Hqr]. destruct (min_col_nonempty q Hq) as [qc Hqc].
  assert (Hinv : forall a b, same_shape a b -> a ≠ [] ->
            normalize_piece a = normalize_piece b).
  { intros a b (t1 & t2 & Hperm) Ha.
    destruct (min_row_nonempty a Ha) as [ar Har].
    destruct (min_col_nonempty a Ha) as [ac Hac].
    assert (Hbr : min_row b = Returns (ar + t1)).
    { apply (min_row_perm (translate t1 t2 a)); [done|]. by apply min_row_translate. }
    assert (Hbc : min_col b = Returns (ac + t2)).
    { apply (min_col_perm (translate t1 t2 a)); [done|]. by apply min_col_translate. }
    rewrite (normalize_piece_translate a ar ac), (normalize_piece_translate b _ _ Hbr Hbc)
      by done.
    f_equal. apply sorted_perm_eq.
    rewrite (translate_perm _ _ _ _ Hperm), translate_translate.
    by replace (t1 + - (ar + t1)) with (- ar) by lia;
       replace (t2 + - (ac + t2)) with (- ac) by lia. }
  split; [split|].
  - rewrite (normalize_piece_translate p pr pc), (normalize_piece_translate q qr qc) by done.
    intros [= Heq]. exists (qr - pr), (qc - pc).
    assert (Hperm : translate (- pr) (- pc) p ≡ₚ translate (- qr) (- qc) q).
    { by rewrite <- (sorted_perm (translate _ _ p)), Heq, sorted_perm. }
    apply (translate_perm qr qc) in Hperm. rewrite !translate_translate in Hperm.
    replace (- qr + qr) with 0 in Hperm by lia.
    replace (- qc + qc) with 0 in Hperm by lia.
    rewrite translate_0 in Hperm. rewrite <- Hperm.
    by replace (- pr + qr) with (qr - pr) by lia;
       replace (- pc + qc) with (qc - pc) by lia.
  - intros Hs. by apply Hinv.
  - exists (sorted (translate (- pr) (- pc) p)).
    assert (Hs : same_shape p (sorted (translate (- pr) (- pc) p))).
    { exists (- pr), (- pc). apply sorted_perm. }
    split; [by apply normalize_piece_translate|]. split; [done|].
    rewrite <- (Hinv _ _ Hs Hp). by apply normalize_piece_translate.
Qed.

Lemma normalize_piece_canonical_witness :
  normalize_piece [(3, 5); (2, 4); (2, 5)] = normalize_piece [(0, 0); (0, 1); (1, 1)].
Proof.
  apply normalize_piece_canonical; [discriminate|discriminate|].
  exists (-2), (-4). symmetry. apply (Permutation_cons_append [(0, 0); (0, 1)] (1, 1)).
Defined.

Lemma turn_translate a b p : quarter_turn (translate a b p) = translate b (- a) (quarter_turn p).
Proof. unfold quarter_turn, translate. rewrite !map_map. apply map_ext. intros [r c]. f_equal; lia. Qed.

Lemma mirror_translate a b p : mirror_image (translate a b p) = translate a (- b) (mirror_image p).
Proof. unfold mirror_image, translate. rewrite !map_map. apply map_ext. intros [r c]. f_equal; lia. Qed.

Lemma turn_four p : quarter_turn (quarter_turn (quarter_turn (quarter_turn p))) = p.
Proof.
  unfold quarter_turn. rewrite !map_map. rewrite <- (map_id p) at 2. apply map_ext.
  intros [r c]. f_equal; lia.
Qed.

Lemma mirror_mirror p : mirror_image (mirror_image p) = p.
Proof.
  unfold mirror_image. rewrite !map_map. rewrite <- (map_id p) at 2. apply map_ext.
  intros [r c]. f_equal; lia.
Qed.

Lemma turn_mirror p : quarter_turn (mirror_image p) = mirror_image (quarter_turn (quarter_turn (quarter_turn p))).
Proof.
  unfold quarter_turn, mirror_image. rewrite !map_map. apply map_ext. intros [r c]. f_equal; lia.
Qed.

Lemma mirror_turn p : mirror_image (quarter_turn p) = quarter_turn (quarter_turn (quarter_turn (mirror_image p))).
Proof.
  unfold quarter_turn, mirror_image. rewrite !map_map. apply map_ext. intros [r c]. f_equal; lia.
Qed.

Lemma turn_nonempty p : p ≠ [] -> quarter_turn p ≠ [].
Proof. by destruct p. Qed.

Lemma mirror_nonempty p : p ≠ [] -> mirror_image p ≠ [].
Proof. by destruct p. Qed.

Lemma turned_nonempty k m p : p ≠ [] -> oriented k m p ≠ [].
Proof.
  intros Hp. unfold oriented.
  assert (Hk : Nat.iter k quarter_turn p ≠ []).
  { induction k as [|k IH]; [done|]. simpl. by apply turn_nonempty. }
  destruct m; [by apply mirror_nonempty | done].
Qed.

Lemma same_shape_refl p : same_shape p p.
Proof. exists 0, 0. by rewrite translate_0. Qed.

Lemma same_shape_trans p q r : same_shape p q -> same_shape q r -> same_shape p r.
Proof.
  intros (a & b & Hq) (c & d & Hr). exists (a + c), (b + d).
  by rewrite Hr, (translate_perm _ _ _ _ Hq), translate_translate.
Qed.

Lemma same_shape_sym p q : same_shape p q -> same_shape q p.
Proof.
  intros (a & b & Hq). exists (- a), (- b).
  rewrite (translate_perm _ _ _ _ Hq), translate_translate.
  replace (a + - a) with 0 by lia. replace (b + - b) with 0 by lia.
  by rewrite translate_0.
Qed.

Lemma same_shape_nonempty p q : same_shape p q -> p ≠ [] -> q ≠ [].
Proof.
  intros (a & b & Hq) Hp ->. apply Permutation_nil_l in Hq.
  by apply (translate_nonempty a b p Hp).
Qed.

Lemma same_shape_turn p q : same_shape p q -> same_shape (quarter_turn p) (quarter_turn q).
Proof.
  intros (a & b & Hq). exists b, (- a). rewrite <- turn_translate.
  unfold quarter_turn. by apply fmap_Permutation.
Qed.

Lemma same_shape_mirror p q : same_shape p q -> same_shape (mirror_image p) (mirror_image q).
Proof.
  intros (a & b & Hq). exists a, (- b). rewrite <- mirror_translate.
  unfold mirror_image. by apply fmap_Permutation.
Qed.

(** [rotate_piece] and [flip_piece] are [quarter_turn] and [mirror_image] followed by
    the translation that anchors the result. *)
Lemma rotate_piece_turn piece :
  piece ≠ [] ->
  exists a b, rotate_piece piece = Returns (translate a b (quarter_turn piece)) /\
    anchored (translate a b (quarter_turn piece)).
Proof.
  intros Hne. destruct (rotate_piece_spec piece Hne) as (a & b & E & A).
  exists a, b.
  assert (Heq : map (fun '(r, c) => (c + a, - r + b)) piece = translate a b (quarter_turn piece)).
  { unfold translate, quarter_turn. rewrite map_map. apply map_ext. by intros [r c]. }
  by rewrite <- Heq.
Qed.

Lemma flip_piece_mirror piece :
  piece ≠ [] ->
  exists a b, flip_piece piece = Returns (translate a b (mirror_image piece)) /\
    anchored (translate a b (mirror_image piece)).
Proof.
  intros Hne. destruct (flip_piece_spec piece Hne) as (a & b & E & A).
  exists a, b.
  assert (Heq : map (fun '(r, c) => (r + a, - c + b)) piece = translate a b (mirror_image piece)).
  { unfold translate, mirror_image. rewrite map_map. apply map_ext. by intros [r c]. }
  by rewrite <- Heq.
Qed.

Lemma rotate_piece_same_shape p q :
  p ≠ [] -> same_shape p q ->
  exists rq, rotate_piece q = Returns rq /\ same_shape (quarter_turn p) rq.
Proof.
  intros Hp Hs. destruct (rotate_piece_turn q (same_shape_nonempty _ _ Hs Hp))
    as (a & b & -> & _).
  eexists. split; [reflexivity|].
  apply (same_shape_trans _ (quarter_turn q)); [by apply same_shape_turn|].
  by exists a, b.
Qed.

Lemma flip_piece_same_shape p q :
  p ≠ [] -> same_shape p q ->
  exists fq, flip_piece q = Returns fq /\ same_shape (mirror_image p) fq.
Proof.
  intros Hp Hs. destruct (flip_piece_mirror q (same_shape_nonempty _ _ Hs Hp))
    as (a & b & -> & _).
  eexists. split; [reflexivity|].
  apply (same_shape_trans _ (mirror_image q)); [by apply same_shape_mirror|].
  by exists a, b.
Qed.

Lemma normalize_piece_same_shape p q :
  p ≠ [] -> same_shape p q ->
  exists n, normalize_piece q = Returns n /\ normalize_piece p = Returns n /\
    same_shape p n.
Proof.
  intros Hp Hs. pose proof (same_shape_nonempty _ _ Hs Hp) as Hq.
  destruct (normalize_piece_canonical p q Hp Hq) as [Hiff (n & Hn & Hsn & _)].
  exists n. split; [|done]. rewrite <- Hn. symmetry. by apply Hiff.
Qed.

Lemma rotate_times_same_shape k p q :
  p ≠ [] -> same_shape p q ->
  exists rq, rotate_times k q = Returns rq /\ same_shape (Nat.iter k quarter_turn p) rq.
Proof.
  revert p q. induction k as [|k IH]; intros p q Hp Hs.
  - exists q. by split.
  - cbn [rotate_times].
    destruct (rotate_piece_same_shape p q Hp Hs) as (rq & -> & Hrq). cbn [obind].
    destruct (IH (quarter_turn p) rq (turn_nonempty _ Hp) Hrq) as (rq' & -> & Hrq').
    exists rq'. split; [done|].
    change (same_shape (Nat.iter (S k) quarter_turn p) rq'). by rewrite Nat.iter_succ_r.
Qed.

(** The canonical form the generator adds for [k] rounds and flag [m] is
    the canonical form of the shape turned [k] times and, when [m] is
    set, reflected. *)
Lemma canonical_form_turned k m p :
  p ≠ [] ->
  exists e, canonical_form k m p = Returns e /\
    normalize_piece (oriented k m p) = Returns e.
Proof.
  intros Hp. unfold canonical_form, oriented.
  destruct (rotate_times_same_shape k p p Hp (same_shape_refl p)) as (rq & -> & Hrq).
  cbn [obind].
  assert (Hk : Nat.iter k quarter_turn p ≠ []) by apply (turned_nonempty k false p Hp).
  destruct m.
  - destruct (flip_piece_same_shape _ rq Hk Hrq) as (fq & -> & Hfq). cbn [obind].
    destruct (normalize_piece_same_shape _ fq (mirror_nonempty _ Hk) Hfq)
      as (n & -> & Hn & _). by exists n.
  - destruct (normalize_piece_same_shape _ rq Hk Hrq) as (n & -> & Hn & _). by exists n.
Qed.

Lemma canonical_form_succ k m p :
  canonical_form (S k) m p = (let! r := rotate_piece p in canonical_form k m r).
Proof.
  unfold canonical_form. cbn [rotate_times].
  destruct (rotate_piece p); reflexivity.
Qed.

(** What the generator loop adds to its set: the canonical forms of the
    next [n] rounds, and nothing else. *)
Lemma orientations_loop_elem n :
  forall (s s' : pyset shape) (current o : shape),
    current ≠ [] ->
    orientations_loop n s current = Returns s' ->
    (o ∈ s' <-> o ∈ s \/
       exists k m, (k < n)%nat /\ canonical_form k m current = Returns o).
Proof.
  induction n as [|n IH]; intros s s' current o Hne Hloop.
  - injection Hloop as <-. split; [by left|]. intros [?|(k & m & Hk & _)]; [done|lia].
  - rewrite orientations_loop_step in Hloop.
    destruct (normalize_piece_spec current Hne) as (a & Ha & _).
    destruct (flip_piece_spec current Hne) as (fa & fb & Hflip & Hfanch).
    destruct (normalize_piece_spec _ (anchored_nonempty _ Hfanch)) as (b & Hb & _).
    destruct (rotate_piece_spec current Hne) as (ra & rb & Hrot & Hranch).
    rewrite Ha, Hflip in Hloop. cbn [obind] in Hloop.
    rewrite Hb, Hrot in Hloop. cbn [obind] in Hloop.
    rewrite (IH _ _ _ o (anchored_nonempty _ Hranch) Hloop), !set_add_elem.
    assert (H0f : canonical_form 0 false current = Returns a) by exact Ha.
    assert (H0t : canonical_form 0 true current = Returns b).
    { unfold canonical_form. cbn [rotate_times obind]. by rewrite Hflip. }
    assert (HS : forall k m, canonical_form (S k) m current
                 = canonical_form k m (map (fun '(r, c) => (c + ra, - r + rb)) current)).
    { intros k m. by rewrite canonical_form_succ, Hrot. }
    split.
    + intros [[->|[->|Hs]]|(k & m & Hk & Hform)].
      * right. exists 0%nat, true. split; [lia|done].
      * right. exists 0%nat, false. split; [lia|done].
      * by left.
      * right. exists (S k), m. split; [lia|]. by rewrite HS.
    + intros [Hs|(k & m & Hk & Hform)]; [by left; right; right|].
      destruct k as [|k].
      * left. destruct m.
        -- left. congruence.
        -- right; left. congruence.
      * right. exists k, m. split; [lia|]. by rewrite <- HS.
Qed.

Lemma turn_turned k m p :
  (k < 4)%nat -> exists k', (k' < 4)%nat /\ quarter_turn (oriented k m p) = oriented k' m p.
Proof.
  intros Hk. destruct m.
  - unfold oriented. rewrite turn_mirror.
    destruct k as [|[|[|[|k]]]]; [| | |  |lia]; cbn [Nat.iter nat_rect].
    + exists 3%nat. split; [lia|reflexivity].
    + exists 0%nat. split; [lia|]. by rewrite turn_four.
    + exists 1%nat. split; [lia|]. by rewrite turn_four.
    + exists 2%nat. split; [lia|]. by rewrite turn_four.
  - unfold oriented.
    destruct k as [|[|[|[|k]]]]; [| | |  |lia]; cbn [Nat.iter nat_rect].
    + exists 1%nat. split; [lia|reflexivity].
    + exists 2%nat. split; [lia|reflexivity].
    + exists 3%nat. split; [lia|reflexivity].
    + exists 0%nat. split; [lia|]. by rewrite turn_four.
Qed.

Lemma mirror_turned k m p : mirror_image (oriented k m p) = oriented k (negb m) p.
Proof. unfold oriented. destruct m; [apply mirror_mirror | reflexivity]. Qed.

Section Closure.
Context `{SetIteration}.

Lemma get_all_orientations_elem piece os o :
  get_all_orientations piece = Returns os ->
  (o ∈ os <-> exists k m, (k < 4)%nat /\ canonical_form k m piece = Returns o).
Proof.
  unfold get_all_orientations.
  destruct (orientations_loop 4 [] piece) as [s| |] eqn:Hloop; try discriminate.
  cbn [obind]. intros [= <-]. rewrite set_iter_perm.
  assert (Hne : piece ≠ []) by (intros ->; discriminate Hloop).
  rewrite (orientations_loop_elem 4 [] s piece o Hne Hloop).
  split; [intros [Hin|?]; [inversion Hin|done] | by right].
Qed.

(** X3. The list [get_all_orientations] returns is closed under the two
    operations it is built from: [rotate_piece] or [flip_piece] applied
    to any member, followed by [normalize_piece], gives a member again,
    in whatever order the set is iterated. *)
Theorem orientations_closed (piece : shape) (os : list shape) (o : shape) :
  get_all_orientations piece = Returns os ->
  o ∈ os ->
  exists ro fo,
    (let! r := rotate_piece o in normalize_piece r) = Returns ro /\ ro ∈ os /\
    (let! f := flip_piece o in normalize_piece f) = Returns fo /\ fo ∈ os.
Proof.
  intros Hos Ho.
  assert (Hne : piece ≠ []).
  { intros ->. unfold get_all_orientations in Hos. discriminate Hos. }
  apply (get_all_orientations_elem piece os o Hos) in Ho as (k & m & Hk & Hform).
  destruct (canonical_form_turned k m piece Hne) as (e & He & Hnorm).
  rewrite Hform in He. injection He as <-.
  pose proof (turned_nonempty k m piece Hne) as Htne.
  assert (Hsim : same_shape (oriented k m piece) o).
  { destruct (normalize_piece_same_shape _ _ Htne (same_shape_refl _))
      as (n & Hn & _ & Hs). congruence. }
  (* turning *)
  destruct (rotate_piece_same_shape _ o Htne Hsim) as (r & Hr & Hrs).
  destruct (turn_turned k m piece Hk) as (k' & Hk' & Hturn). rewrite Hturn in Hrs.
  destruct (normalize_piece_same_shape _ r (turned_nonempty k' m piece Hne) Hrs)
    as (ro & Hro & Hro' & _).
  destruct (canonical_form_turned k' m piece Hne) as (e & He & Hnorm').
  (* flipping *)
  destruct (flip_piece_same_shape _ o Htne Hsim) as (f & Hf & Hfs).
  rewrite mirror_turned in Hfs.
  destruct (normalize_piece_same_shape _ f (turned_nonempty k (negb m) piece Hne) Hfs)
    as (fo & Hfo & Hfo' & _).
  destruct (canonical_form_turned k (negb m) piece Hne) as (e' & He' & Hnorm'').
  exists ro, fo. rewrite Hr, Hf. cbn [obind]. split; [done|]. split; [|split; [done|]].
  - apply (get_all_orientations_elem piece os ro Hos). exists k', m. split; [done|].
    congruence.
  - apply (get_all_orientations_elem piece os fo Hos). exists k, (negb m). split; [done|].
    congruence.
Qed.
End Closure.

Lemma orientations_closed_witness :
  exists ro fo,
    (let! r := rotate_piece [(0, 0); (0, 1); (1, 1); (2, 1); (2, 2)] in normalize_piece r)
      = Returns ro /\
    ro ∈ @set_iter insertion_order _
           [ [(0, 0); (0, 1); (1, 1); (2, 1); (2, 2)];
             [(0, 1); (0, 2); (1, 1); (2, 0); (2, 1)];
             [(0, 2); (1, 0); (1, 1); (1, 2); (2, 0)];
             [(0, 0); (1, 0); (1, 1); (1, 2); (2, 2)] ] /\
    (let! f := flip_piece [(0, 0); (0, 1); (1, 1); (2, 1); (2, 2)] in normalize_piece f)
      = Returns fo /\
    fo ∈ @set_iter insertion_order _
           [ [(0, 0); (0, 1); (1, 1); (2, 1); (2, 2)];
             [(0, 1); (0, 2); (1, 1); (2, 0); (2, 1)];
             [(0, 2); (1, 0); (1, 1); (1, 2); (2, 0)];
             [(0, 0); (1, 0); (1, 1); (1, 2); (2, 2)] ].
Proof.
  apply (@orientations_closed insertion_order [(0, 0); (0, 1); (1, 1); (2, 1); (2, 2)]).
  - vm_compute. reflexivity.
  - apply list_elem_of_here.
Defined.

Lemma rotate_piece_of_translate a b x :
  x ≠ [] ->
  exists a' b', rotate_piece (translate a b x) = Returns (translate a' b' (quarter_turn x)) /\
    anchored (translate a' b' (quarter_turn x)).
Proof.
  intros Hx. destruct (rotate_piece_turn _ (translate_nonempty a b x Hx)) as (c & d & E & A).
  rewrite turn_translate, translate_translate in E, A. eauto.
Qed.

Lemma flip_piece_of_translate a b x :
  x ≠ [] ->
  exists a' b', flip_piece (translate a b x) = Returns (translate a' b' (mirror_image x)) /\
    anchored (translate a' b' (mirror_image x)).
Proof.
  intros Hx. destruct (flip_piece_mirror _ (translate_nonempty a b x Hx)) as (c & d & E & A).
  rewrite mirror_translate, translate_translate in E, A. eauto.
Qed.

(** X4. On every non-empty shape, [rotate_piece] followed by
    [flip_piece] returns the same list as [flip_piece] followed by three
    applications of [rotate_piece]. *)
Theorem flip_rotate_piece (piece : shape) :
  piece ≠ [] ->
  exists q,
    (let! r := rotate_piece piece in flip_piece r) = Returns q /\
    (let! f := flip_piece piece in rotate_times 3 f) = Returns q.
Proof.
  intros Hne.
  destruct (rotate_piece_turn piece Hne) as (a1 & b1 & -> & _).
  destruct (flip_piece_of_translate a1 b1 (quarter_turn piece) (turn_nonempty _ Hne))
    as (a2 & b2 & E2 & A2).
  destruct (flip_piece_mirror piece Hne) as (c0 & d0 & -> & _).
  pose proof (mirror_nonempty _ Hne) as Hm.
  destruct (rotate_piece_of_translate c0 d0 _ Hm) as (c1 & d1 & E3 & _).
  destruct (rotate_piece_of_translate c1 d1 _ (turn_nonempty _ Hm)) as (c2 & d2 & E4 & _).
  destruct (rotate_piece_of_translate c2 d2 _ (turn_nonempty _ (turn_nonempty _ Hm)))
    as (c3 & d3 & E5 & A5).
  cbn [obind rotate_times]. rewrite E2, E3. cbn [obind]. rewrite E4. cbn [obind].
  rewrite E5. cbn [obind].
  rewrite <- mirror_turn in E5, A5 |- *.
  destruct (anchored_translate_unique _ _ _ _ _ A2 A5) as [-> ->].
  by eexists.
Qed.

Lemma flip_rotate_piece_witness :
  exists q,
    (let! r := rotate_piece [(0, 0); (1, 0); (2, 0); (3, 0); (3, 1)] in flip_piece r)
      = Returns q /\
    (let! f := flip_piece [(0, 0); (1, 0); (2, 0); (3, 0); (3, 1)] in rotate_times 3 f)
      = Returns q.
Proof. apply flip_rotate_piece. discriminate. Defined.

(** X5. [rotate_piece], [flip_piece] and [normalize_piece] raise
    ValueError on the empty shape and only there; on any other shape
    each returns a shape with as many cells as the input, no negative
    offset, least row 0 and least column 0. *)
Theorem shape_operations_total (piece : shape) :
  (piece = [] ->
   rotate_piece piece = Raises ValueError /\ flip_piece piece = Raises ValueError /\
   normalize_piece piece = Raises ValueError) /\
  (piece ≠ [] ->
   exists ro fl no,
     rotate_piece piece = Returns ro /\ flip_piece piece = Returns fl /\
     normalize_piece piece = Returns no /\
     forall q, q ∈ [ro; fl; no] ->
       length q = length piece /\
       min_row q = Returns 0 /\ min_col q = Returns 0 /\
       forall rc, rc ∈ q -> 0 <= rc.1 /\ 0 <= rc.2).
Proof.
  split; [by intros ->|]. intros Hne.
  destruct (rotate_piece_spec piece Hne) as (a & b & Hro & Aro).
  destruct (flip_piece_spec piece Hne) as (c & d & Hfl & Afl).
  destruct (normalize_piece_spec piece Hne) as (no & Hno & Ano & Lno).
  eexists _, _, no. do 3 (split; [done|]).
  intros q Hq.
  assert (Hcases : length q = length piece /\ anchored q).
  { apply elem_of_cons in Hq as [->|Hq]; [by rewrite length_map|].
    apply elem_of_cons in Hq as [->|Hq]; [by rewrite length_map|].
    apply list_elem_of_singleton in Hq as ->. done. }
  destruct Hcases as [Hlen Hanch]. split; [done|].
  split; [apply Hanch|]. split; [apply Hanch|].
  intros rc Hrc. by apply (anchored_nonneg q).
Qed.

Lemma shape_operations_total_witness :
  exists ro fl no,
    rotate_piece [(0, 1); (1, 0); (1, 1)] = Returns ro /\
    flip_piece [(0, 1); (1, 0); (1, 1)] = Returns fl /\
    normalize_piece [(0, 1); (1, 0); (1, 1)] = Returns no /\
    forall q, q ∈ [ro; fl; no] ->
      length q = length [(0, 1); (1, 0); (1, 1)] /\
      min_row q = Returns 0 /\ min_col q = Returns 0 /\
      forall rc, rc ∈ q -> 0 <= rc.1 /\ 0 <= rc.2.
Proof. apply shape_operations_total. discriminate. Defined.

(** ** [find_first_empty]: reading order *)

(** The scan stops at the first coordinate pair that is playable and
    empty. *)

Lemma first_empty_in_split ix valid coords b rc :
  first_empty_in ix coords b valid = Returns (Some rc) ->
  exists pre post,
    coords = pre ++ rc :: post /\
    rc ∈ valid /\ board_get ix b rc.1 rc.2 = Returns (-1) /\
    forall rc', rc' ∈ pre ->
      rc' ∈ valid -> board_get ix b rc'.1 rc'.2 ≠ Returns (-1).
Proof.
  induction coords as [|[r c] coords IH]; cbn [first_empty_in]; [discriminate|].
  destruct (decide ((r, c) ∈ valid)) as [Hv|Hv].
  - destruct (board_get ix b r c) as [v| |] eqn:Hget; cbn [obind]; try discriminate.
    destruct (decide (v = -1)) as [->|Hne].
    + intros [= <-]. exists [], coords. split; [done|]. split; [done|]. split; [done|].
      intros rc' Hrc'. inversion Hrc'.
    + intros Hrest. destruct (IH Hrest) as (pre & post & -> & ? & ? & Hpre).
      exists ((r, c) :: pre), post. split; [done|]. split; [done|]. split; [done|].
      intros rc' Hrc' Hvalid. apply elem_of_cons in Hrc' as [->|Hrc']; [|by apply Hpre].
      cbn [fst snd]. rewrite Hget. congruence.
  - intros Hrest. destruct (IH Hrest) as (pre & post & -> & ? & ? & Hpre).
    exists ((r, c) :: pre), post. split; [done|]. split; [done|]. split; [done|].
    intros rc' Hrc' Hvalid. apply elem_of_cons in Hrc' as [->|Hrc']; [done|by apply Hpre].
Qed.

Lemma all_coords_sorted : StronglySorted cell_le all_coords.
Proof. apply (bool_decide_unpack _). vm_compute. exact I. Qed.

(** X6. On a 7x7 array, with playable cells inside the board,
    [find_first_empty] returns None exactly when no playable cell holds
    -1, and otherwise the playable empty cell that comes first in
    reading order: no other playable empty cell has a smaller row, or
    the same row and a smaller column. *)
Theorem find_first_empty_reading_order (ix : indexing) (valid_cells : pyset cell)
    (b : ndarray) :
  (forall rc, rc ∈ valid_cells -> in_bounds rc) ->
  length b = 49%nat ->
  (find_first_empty ix b valid_cells = Returns None /\
   forall rc, rc ∈ valid_cells -> board_get ix b rc.1 rc.2 ≠ Returns (-1))
  \/
  (exists rc,
     find_first_empty ix b valid_cells = Returns (Some rc) /\
     rc ∈ valid_cells /\ board_get ix b rc.1 rc.2 = Returns (-1) /\
     forall rc', rc' ∈ valid_cells -> board_get ix b rc'.1 rc'.2 = Returns (-1) ->
       cell_le rc rc').
Proof.
  intros Hbounds Hlen.
  destruct (find_first_empty_spec ix valid_cells Hbounds b Hlen)
    as [[Hnone Hfull]|(rc & Hfind & Hvalid & Hempty)].
  - left. split; [done|]. intros rc Hrc Hget.
    apply board_get_offset in Hget; [|by apply Hbounds]. by apply (Hfull rc).
  - right. exists rc. split; [done|].
    destruct (first_empty_in_split _ _ _ _ _ Hfind) as (pre & post & Hsplit & _ & Hget & Hpre).
    do 2 (split; [done|]).
    intros rc' Hvalid' Hget'.
    assert (Hin : rc' ∈ all_coords) by (by apply all_coords_in_bounds, Hbounds).
    pose proof all_coords_sorted as Hsorted.
    unfold all_coords in Hin, Hsorted. rewrite Hsplit in Hin, Hsorted.
    apply elem_of_app in Hin as [Hin|Hin]; [by destruct (Hpre rc' Hin Hvalid')|].
    apply elem_of_cons in Hin as [->|Hin].
    + right. split; [done|lia].
    + apply StronglySorted_app_1_r, StronglySorted_inv in Hsorted as [_ Hall].
      rewrite Forall_forall in Hall. by apply Hall.
Qed.

Lemma find_first_empty_reading_order_witness :
  (find_first_empty numpy_indexing (write_all (-1) [9; 3; 20]%nat (np_full (-2)))
     [(1, 2); (0, 3); (2, 6)] = Returns None /\
   forall rc, rc ∈ [(1, 2); (0, 3); (2, 6)] ->
     board_get numpy_indexing (write_all (-1) [9; 3; 20]%nat (np_full (-2))) rc.1 rc.2
     ≠ Returns (-1))
  \/
  (exists rc,
     find_first_empty numpy_indexing (write_all (-1) [9; 3; 20]%nat (np_full (-2)))
       [(1, 2); (0, 3); (2, 6)] = Returns (Some rc) /\
     rc ∈ [(1, 2); (0, 3); (2, 6)] /\
     board_get numpy_indexing (write_all (-1) [9; 3; 20]%nat (np_full (-2))) rc.1 rc.2
       = Returns (-1) /\
     forall rc', rc' ∈ [(1, 2); (0, 3); (2, 6)] ->
       board_get numpy_indexing (write_all (-1) [9; 3; 20]%nat (np_full (-2))) rc'.1 rc'.2
         = Returns (-1) ->
       cell_le rc rc').
Proof.
  apply find_first_empty_reading_order; [|reflexivity].
  apply Forall_forall. apply (bool_decide_unpack _). vm_compute. exact I.
Defined.

(** ** [can_place_piece], [place_piece] and [remove_piece] *)

(** X7. On a 7x7 array, with playable cells inside the board,
    [can_place_piece] never raises, wherever the anchor lies, and it
    returns True exactly when every cell the piece would cover is
    playable and holds -1. *)
Theorem can_place_piece_decides (ix : indexing) (valid_cells : pyset cell)
    (b : ndarray) (piece : shape) (start_row start_col : Z) :
  (forall rc, rc ∈ valid_cells -> in_bounds rc) ->
  length b = 49%nat ->
  exists ok,
    can_place_piece ix b piece start_row start_col valid_cells = Returns ok /\
    (ok = true <->
     forall dr dc, (dr, dc) ∈ piece ->
       (start_row + dr, start_col + dc) ∈ valid_cells /\
       board_get ix b (start_row + dr) (start_col + dc) = Returns (-1)).
Proof.
  intros Hbounds Hlen.
  destruct (can_place_piece_spec ix valid_cells Hbounds b piece start_row start_col Hlen)
    as (ok & Hok & Hiff).
  exists ok. split; [done|]. rewrite Hiff. unfold cells_at.
  rewrite Forall_fmap, Forall_forall. split.
  - intros Hall dr dc Hin. specialize (Hall _ Hin). cbn in Hall.
    destruct Hall as [Hv He]. split; [done|].
    by apply (board_get_offset ix b (start_row + dr, start_col + dc)); [apply Hbounds|].
  - intros Hall [dr dc] Hin. destruct (Hall dr dc Hin) as [Hv He]. cbn. split; [done|].
    by apply (board_get_offset ix b (start_row + dr, start_col + dc)) in He;
      [|apply Hbounds].
Qed.

Lemma can_place_piece_decides_witness :
  exists ok,
    can_place_piece numpy_indexing (write_all (-1) [0; 1; 7]%nat (np_full (-2)))
      [(0, 1); (1, 0); (1, 1)] (-1) 0 [(0, 0); (0, 1); (1, 0)] = Returns ok /\
    (ok = true <->
     forall dr dc, (dr, dc) ∈ [(0, 1); (1, 0); (1, 1)] ->
       (-1 + dr, 0 + dc) ∈ [(0, 0); (0, 1); (1, 0)] /\
       board_get numpy_indexing (write_all (-1) [0; 1; 7]%nat (np_full (-2)))
         (-1 + dr) (0 + dc) = Returns (-1)).
Proof.
  apply can_place_piece_decides; [|reflexivity].
  apply Forall_forall. apply (bool_decide_unpack _). vm_compute. exact I.
Defined.



(** ** Writes that are not guarded by the feasibility check *)

Lemma axis_index_numpy n i :
  0 < n ->
  axis_index numpy_indexing n i =
  if decide (- n <= i < n) then Returns (i mod n) else Raises IndexError.
Proof.
  intros Hn. unfold axis_index.
  destruct (decide (0 <= i < n)) as [Hi|Hi].
  - rewrite decide_True by lia. by rewrite Z.mod_small.
  - destruct (decide (- n <= i < 0)) as [Hi'|Hi'].
    + rewrite decide_True by lia. f_equal.
      rewrite <- (Z.mod_small (i + n) n) by lia.
      rewrite <- (Z.mul_1_l n) at 1. by rewrite Z.mod_add by lia.
    + rewrite decide_False by lia. done.
Qed.

Lemma flat_index_numpy rc :
  flat_index numpy_indexing rc.1 rc.2 =
  if decide (addressable rc) then Returns (offset (wrapped rc)) else Raises IndexError.
Proof.
  destruct rc as [r c]. unfold flat_index, addressable, wrapped. cbn [fst snd].
  rewrite !axis_index_numpy by done.
  destruct (decide (- BOARD_ROWS <= r < BOARD_ROWS)) as [Hr|Hr]; cbn [obind].
  - destruct (decide (- BOARD_COLS <= c < BOARD_COLS)) as [Hc|Hc]; cbn [obind].
    + by rewrite decide_True.
    + rewrite decide_False; [done|]. by intros [_ ?].
  - rewrite decide_False; [done|]. by intros [? _].
Qed.

Lemma wrapped_in_bounds rc : in_bounds (wrapped rc).
Proof.
  unfold in_bounds, wrapped, BOARD_ROWS, BOARD_COLS. cbn [fst snd].
  pose proof (Z.mod_pos_bound rc.1 7). pose proof (Z.mod_pos_bound rc.2 7). lia.
Qed.



(** ** The lookup tables *)

Lemma get_all_valid_cells_filter :
  get_all_valid_cells = filter (fun rc => rc ∉ BLOCKED) all_coords.
Proof. vm_compute. reflexivity. Qed.

(** X10. [get_all_valid_cells] holds exactly the coordinates of the 7x7
    grid that are not in BLOCKED, each once and in reading order: 49
    less the number of blocked cells. *)
Theorem get_all_valid_cells_spec (rc : cell) :
  (rc ∈ get_all_valid_cells <-> in_bounds rc /\ rc ∉ BLOCKED) /\
  NoDup get_all_valid_cells /\
  StronglySorted cell_le get_all_valid_cells /\
  length get_all_valid_cells = (49 - length BLOCKED)%nat.
Proof.
  split; [|split; [|split]].
  - rewrite get_all_valid_cells_filter, list_elem_of_filter, all_coords_in_bounds. tauto.
  - apply get_all_valid_cells_facts.
  - apply (bool_decide_unpack _). vm_compute. exact I.
  - vm_compute. reflexivity.
Qed.

Lemma dict_get_missing {K V} `{EqDecision K} (k : K) (d : pydict K V) :
  k ∉ d.*1 -> dict_get k d = Raises KeyError.
Proof.
  induction d as [|[k' v'] d IH]; [done|]. cbn [dict_get fmap list_fmap fst].
  intros Hk. apply not_elem_of_cons in Hk as [Hne Hk].
  rewrite decide_False by done. by apply IH.
Qed.

Lemma dict_get_Returns {K V} `{EqDecision K} (k : K) (v : V) (d : pydict K V) :
  NoDup d.*1 -> dict_get k d = Returns v <-> (k, v) ∈ d.
Proof.
  induction d as [|[k' v'] d IH]; cbn [dict_get fmap list_fmap fst].
  - intros _. split; [discriminate|]. intros Hin. inversion Hin.
  - intros Hnd. apply NoDup_cons in Hnd as [Hk' Hnd].
    destruct (decide (k = k')) as [->|Hne].
    + split.
      * intros [= ->]. left.
      * intros Hin. apply elem_of_cons in Hin as [[= ->]|Hin]; [done|].
        destruct Hk'. apply list_elem_of_fmap. by exists (k', v).
    + rewrite IH by done. split.
      * intros Hin. by right.
      * intros Hin. apply elem_of_cons in Hin as [[= -> ->]|Hin]; done.
Qed.

Lemma dict_set_fresh {K V} `{EqDecision K} (k : K) (v : V) (d : pydict K V) :
  k ∉ d.*1 -> dict_set k v d = d ++ [(k, v)].
Proof.
  induction d as [|[k' v'] d IH]; [done|]. cbn [dict_set fmap list_fmap fst].
  intros Hk. apply not_elem_of_cons in Hk as [Hne Hk].
  rewrite decide_False by done. by rewrite IH.
Qed.

Lemma dict_invert_fold {K V} `{EqDecision V} (d : pydict K V) (acc : pydict V K) :
  NoDup (acc.*1 ++ d.*2) ->
  fold_left (fun acc kv => dict_set kv.2 kv.1 acc) d acc = acc ++ (prod_swap <$> d).
Proof.
  revert acc. induction d as [|[k v] d IH]; intros acc Hnd; cbn [fold_left fst snd].
  - by rewrite app_nil_r.
  - cbn [fmap list_fmap snd] in Hnd. rewrite dict_set_fresh.
    + rewrite IH.
      * by rewrite <- app_assoc.
      * rewrite fmap_app, <- app_assoc. exact Hnd.
    + apply NoDup_app in Hnd as (_ & Hdisj & _). intros Hin.
      apply (Hdisj v Hin). left.
Qed.

(** X11. The dictionary comprehension that builds MONTH_TO_POS and
    DAY_TO_POS, on any dictionary with distinct values: the result
    holds the swapped items in the same order, and looking a value up in
    it gives the key exactly when the key maps to that value. *)
Theorem dict_invert_round_trip {K V} `{EqDecision K} `{EqDecision V}
    (d : pydict K V) (k : K) (v : V) :
  NoDup d.*1 -> NoDup d.*2 ->
  dict_invert d = prod_swap <$> d /\
  (dict_get v (dict_invert d) = Returns k <-> dict_get k d = Returns v).
Proof.
  intros Hkeys Hvals.
  assert (Heq : dict_invert d = prod_swap <$> d).
  { unfold dict_invert. by rewrite dict_invert_fold. }
  split; [done|]. rewrite Heq.
  rewrite !dict_get_Returns; [| done |].
  - rewrite list_elem_of_fmap. split.
    + intros ([k' v'] & [= -> ->] & Hin). done.
    + intros Hin. by exists (k, v).
  - rewrite <- list_fmap_compose.
    by replace (fst ∘ prod_swap) with (@snd K V) by done.
Qed.

Lemma dict_invert_round_trip_witness :
  dict_invert MONTHS = prod_swap <$> MONTHS /\
  (dict_get "Apr"%string (dict_invert MONTHS) = Returns (0, 3)
   <-> dict_get (0, 3) MONTHS = Returns "Apr"%string).
Proof.
  apply dict_invert_round_trip; apply (bool_decide_unpack _); vm_compute; exact I.
Defined.

Lemma month_cell_table :
  Forall (fun month => month_cell month = Returns ((month - 1) / 6, (month - 1) mod 6))
    (range 1 13).
Proof. apply (bool_decide_unpack _). vm_compute. exact I. Qed.

Lemma day_cell_table :
  Forall (fun day => day_cell day = Returns ((day - 1) / 7 + 2, (day - 1) mod 7))
    (range 1 32).
Proof. apply (bool_decide_unpack _). vm_compute. exact I. Qed.

Lemma list_index_negative {A} (xs : list A) (i : Z) :
  - Z.of_nat (length xs) <= i < 0 ->
  list_index xs i = list_index xs (i + Z.of_nat (length xs)).
Proof.
  intros Hi. unfold list_index.
  rewrite (decide_True (P := i < 0)) by lia.
  by rewrite (decide_False (P := i + Z.of_nat (length xs) < 0)) by lia.
Qed.

Lemma list_index_out_of_range {A} (xs : list A) (i : Z) :
  i < - Z.of_nat (length xs) \/ Z.of_nat (length xs) <= i ->
  list_index xs i = Raises IndexError.
Proof.
  intros Hi. unfold list_index.
  destruct (decide (i < 0)); by rewrite decide_False by lia.
Qed.

(** X12. The cell of a month: month m of 1..12 lies at row (m-1)/6,
    column (m-1) mod 6; a month of -11..0 is read as month m+12, since
    MONTH_NAMES is indexed from its end; any other month raises
    IndexError. *)
Theorem month_cell_closed_form (month : Z) :
  (1 <= month <= 12 ->
   month_cell month = Returns ((month - 1) / 6, (month - 1) mod 6)) /\
  (-11 <= month <= 0 -> month_cell month = month_cell (month + 12)) /\
  (month < -11 \/ 12 < month -> month_cell month = Raises IndexError).
Proof.
  split; [|split].
  - intros Hm. pose proof month_cell_table as Htable.
    rewrite Forall_forall in Htable. apply Htable, range_elem. lia.
  - intros Hm. unfold month_cell.
    rewrite (list_index_negative MONTH_NAMES (month - 1)) by (cbn; lia).
    do 2 f_equal. cbn. lia.
  - intros Hm. unfold month_cell.
    by rewrite (list_index_out_of_range MONTH_NAMES (month - 1)) by (cbn; lia).
Qed.

Lemma month_cell_closed_form_witness :
  month_cell 9 = Returns ((9 - 1) / 6, (9 - 1) mod 6) /\
  month_cell (-2) = month_cell (-2 + 12) /\
  month_cell 13 = Raises IndexError.
Proof.
  split; [|split].
  - apply month_cell_closed_form. lia.
  - apply month_cell_closed_form. lia.
  - apply month_cell_closed_form. lia.
Defined.

Lemma DAY_TO_POS_keys : DAY_TO_POS.*1 = range 1 32.
Proof. vm_compute. reflexivity. Qed.

(** X13. The cell of a day, as numbered by the loop that fills DAYS:
    day d of 1..31 lies at row (d-1)/7 + 2, column (d-1) mod 7; any
    other day raises KeyError. *)
Theorem day_cell_closed_form (day : Z) :
  (1 <= day <= 31 ->
   day_cell day = Returns ((day - 1) / 7 + 2, (day - 1) mod 7)) /\
  (day < 1 \/ 31 < day -> day_cell day = Raises KeyError).
Proof.
  split.
  - intros Hd. pose proof day_cell_table as Htable.
    rewrite Forall_forall in Htable. apply Htable, range_elem. lia.
  - intros Hd. unfold day_cell. apply dict_get_missing.
    rewrite DAY_TO_POS_keys, range_elem. lia.
Qed.

Lemma day_cell_closed_form_witness :
  day_cell 17 = Returns ((17 - 1) / 7 + 2, (17 - 1) mod 7) /\
  day_cell 0 = Raises KeyError.
Proof.
  split.
  - apply day_cell_closed_form. lia.
  - apply day_cell_closed_form. lia.
Defined.

Lemma labelled_table :
  Forall (fun rc : cell =>
            (rc.1 < 2 ->
             dict_get rc MONTHS = list_index MONTH_NAMES (6 * rc.1 + rc.2) /\
             month_cell (6 * rc.1 + rc.2 + 1) = Returns rc /\
             rc ∉ DAYS.*1) /\
            (2 <= rc.1 ->
             dict_get rc DAYS = Returns (7 * (rc.1 - 2) + rc.2 + 1) /\
             day_cell (7 * (rc.1 - 2) + rc.2 + 1) = Returns rc /\
             rc ∉ MONTHS.*1))
    get_all_valid_cells.
Proof. apply (bool_decide_unpack _). vm_compute. exact I. Qed.

(** X14. Every cell of the grid that is not blocked carries exactly one
    label: in rows 0 and 1 the name of month 6r+c+1, which
    MONTH_TO_POS maps back to the cell, and no day; from row 2 on day
    7(r-2)+c+1, which DAY_TO_POS maps back to the cell, and no month. *)
Theorem board_cells_labelled (r c : Z) :
  in_bounds (r, c) -> (r, c) ∉ BLOCKED ->
  (r < 2 ->
   dict_get (r, c) MONTHS = list_index MONTH_NAMES (6 * r + c) /\
   month_cell (6 * r + c + 1) = Returns (r, c) /\
   (r, c) ∉ DAYS.*1) /\
  (2 <= r ->
   dict_get (r, c) DAYS = Returns (7 * (r - 2) + c + 1) /\
   day_cell (7 * (r - 2) + c + 1) = Returns (r, c) /\
   (r, c) ∉ MONTHS.*1).
Proof.
  intros Hin Hfree. pose proof labelled_table as Htable.
  rewrite Forall_forall in Htable. apply (Htable (r, c)).
  rewrite get_all_valid_cells_filter, list_elem_of_filter, all_coords_in_bounds. done.
Qed.

Lemma board_cells_labelled_witness :
  (4 < 2 ->
   dict_get (4, 5) MONTHS = list_index MONTH_NAMES (6 * 4 + 5) /\
   month_cell (6 * 4 + 5 + 1) = Returns (4, 5) /\
   (4, 5) ∉ DAYS.*1) /\
  (2 <= 4 ->
   dict_get (4, 5) DAYS = Returns (7 * (4 - 2) + 5 + 1) /\
   day_cell (7 * (4 - 2) + 5 + 1) = Returns (4, 5) /\
   (4, 5) ∉ MONTHS.*1).
Proof.
  apply board_cells_labelled; apply (bool_decide_unpack _); vm_compute; exact I.
Defined.

(** ** Dates outside the calendar *)

(** X15. [solve_puzzle] outside the calendar: a month outside -11..12
    raises IndexError whatever the day; a month of -11..12 with a day
    outside 1..31 raises KeyError; and a month of -11..0 gives what
    month+12 gives. *)
Theorem solve_puzzle_outside_calendar `{SetIteration} (ix : indexing) (fuel : nat)
    (month day : Z) :
  (month < -11 \/ 12 < month -> solve_puzzle ix fuel month day = Raises IndexError) /\
  (-11 <= month <= 12 -> day < 1 \/ 31 < day ->
   solve_puzzle ix fuel month day = Raises KeyError) /\
  (-11 <= month <= 0 ->
   solve_puzzle ix fuel month day = solve_puzzle ix fuel (month + 12) day).
Proof.
  split; [|split].
  - intros Hm. unfold solve_puzzle.
    by rewrite (list_index_out_of_range MONTH_NAMES (month - 1)) by (cbn; lia).
  - intros Hm Hd.
    assert (Hcell : exists pos, month_cell month = Returns pos).
    { destruct (decide (1 <= month)) as [H1|H1].
      - eexists. apply month_cell_closed_form. lia.
      - destruct (month_cell_closed_form month) as (_ & Halias & _).
        rewrite Halias by lia. eexists. apply month_cell_closed_form. lia. }
    destruct Hcell as [pos Hpos]. unfold month_cell in Hpos. unfold solve_puzzle.
    destruct (list_index MONTH_NAMES (month - 1)) as [name| |]; try discriminate.
    cbn [obind] in Hpos |- *. rewrite Hpos. cbn [obind].
    destruct (day_cell_closed_form day) as [_ Hday]. unfold day_cell in Hday.
    by rewrite Hday.
  - intros Hm. unfold solve_puzzle.
    rewrite (list_index_negative MONTH_NAMES (month - 1)) by (cbn; lia).
    by replace (month - 1 + Z.of_nat (length MONTH_NAMES)) with (month + 12 - 1)
      by (cbn; lia).
Qed.

Lemma solve_puzzle_outside_calendar_witness :
  @solve_puzzle numpy_indexing insertion_order 9 13 1 = Raises IndexError /\
  @solve_puzzle numpy_indexing insertion_order 9 0 32 = Raises KeyError /\
  @solve_puzzle numpy_indexing insertion_order 9 (-11) 1
  = @solve_puzzle numpy_indexing insertion_order 9 (-11 + 12) 1.
Proof.
  split; [|split].
  - apply (proj1 (solve_puzzle_outside_calendar numpy_indexing 9 13 1)). lia.
  - apply (proj1 (proj2 (solve_puzzle_outside_calendar numpy_indexing 9 0 32))); lia.
  - apply (proj2 (proj2 (solve_puzzle_outside_calendar numpy_indexing 9 (-11) 1))). lia.
Defined.

(** ** The search and the tilings of the board *)

Section Tilings.
Variable ix : indexing.
Variable pieces_orientations : list (list shape).
Variable valid_cells : pyset cell.
Hypothesis valid_in_bounds : forall rc, rc ∈ valid_cells -> in_bounds rc.
Hypothesis orientations_NoDup :
  forall piece_id orientations piece,
    pieces_orientations !! piece_id = Some orientations ->
    piece ∈ orientations -> NoDup piece.
Local Abbreviation completes := (completes pieces_orientations valid_cells).
Local Abbreviation solve := (solve ix).

(** A feasible placement of an unused piece, put before a tiling that
    completes the state it leads to, gives a tiling of the state it was
    made in. *)
Lemma completes_cons piece_id piece sr sc tiling st orientations :
  length (board st) = 49%nat ->
  pieces_orientations !! piece_id = Some orientations ->
  piece ∈ orientations ->
  used_pieces st !! piece_id = Some false ->
  placeable valid_cells st piece sr sc ->
  completes tiling (placed piece_id piece sr sc st) ->
  completes ({| frame_piece_id := piece_id; frame_piece := piece;
                frame_row := sr; frame_col := sc |} :: tiling) st.
Proof.
  intros Hlen Hpo Hin Hunused Hpl (Hids & Hcells & Hpieces & Hcover).
  destruct (placeable_cells valid_cells valid_in_bounds _ _ _ _ Hpl)
    as (Hvalid & Hbounds & Hempty).
  unfold placeable in Hpl. rewrite Forall_forall in Hpl.
  assert (Hpid : (piece_id < length (used_pieces st))%nat) by (by eapply lookup_lt_Some).
  split; [|split; [|split]].
  - rewrite fmap_cons. apply NoDup_cons. split; [|done]. cbn [frame_piece_id].
    intros Hmem. apply list_elem_of_fmap in Hmem as (g & Hg & Hgin).
    destruct (Hpieces g Hgin) as [Hu _]. cbn [placed used_pieces] in Hu.
    rewrite <- Hg, list_lookup_insert_eq in Hu by done. discriminate.
  - rewrite bind_cons. apply NoDup_app. split; [|split; [|done]].
    + apply cells_at_NoDup. by eapply orientations_NoDup.
    + intros rc Hrc Hrc'. apply Hcover in Hrc' as [Hrcv Hv].
      unfold frame_cells in Hrc. cbn [frame_piece frame_row frame_col] in Hrc.
      rewrite placed_lookup in Hv by auto.
      rewrite decide_True in Hv by done. injection Hv. lia.
  - intros g Hg. apply elem_of_cons in Hg as [->|Hg].
    + cbn [frame_piece_id frame_piece]. split; [done|]. by exists orientations.
    + destruct (Hpieces g Hg) as [Hu Hos]. split; [|done].
      cbn [placed used_pieces] in Hu.
      destruct (decide (frame_piece_id g = piece_id)) as [Heq|Hne].
      * rewrite Heq, list_lookup_insert_eq in Hu by done. discriminate.
      * by rewrite list_lookup_insert_ne in Hu.
  - intros rc. rewrite bind_cons, elem_of_app. split.
    + intros [Hv He].
      destruct (decide (rc ∈ cells_at piece sr sc)) as [Hrc|Hrc]; [by left|].
      right. apply Hcover. split; [done|].
      rewrite placed_lookup by auto. by rewrite decide_False.
    + intros [Hrc|Hrc].
      * by apply Hpl.
      * apply Hcover in Hrc as [Hv He]. split; [done|].
        rewrite placed_lookup in He by auto.
        case_decide; [injection He; lia|done].
Qed.

(** When [solve] returns True, the state it leaves is the one it was
    called in with the placements of a tiling committed. *)
Lemma solve_true_tiling fuel :
  forall st st',
    well_shaped pieces_orientations st ->
    solve fuel pieces_orientations valid_cells st = Returns (true, st') ->
    exists tiling, completes tiling st /\ st' = place_all tiling st.
Proof.
  induction fuel as [|fuel IH]; intros st st' Hws; [discriminate|].
  destruct (solve_cases ix pieces_orientations valid_cells valid_in_bounds fuel st Hws)
    as [[-> Hfull]|(row & col & _ & _ & _ &
                    [[-> _]|(pid & piece & off & Hcand & Hpl & -> & _)])].
  - intros [= <-]. exists []. split; [|done].
    split; [constructor|]. split; [constructor|]. split.
    + intros f Hf. inversion Hf.
    + intros rc. split; [|intros Hrc; inversion Hrc].
      intros [Hv He]. by destruct (Hfull rc Hv).
  - discriminate.
  - intros Hsolve. destruct Hcand as (os & Hpo & Hunused & Hin & Hoff).
    destruct (IH _ _ (placed_well_shaped _ _ _ _ _ _ Hws) Hsolve) as (tiling & Hcomp & ->).
    exists ({| frame_piece_id := pid; frame_piece := piece;
               frame_row := row - off.1; frame_col := col - off.2 |} :: tiling).
    split; [|reflexivity].
    by eapply completes_cons; [apply Hws|..].
Qed.

Lemma place_all_cons f tiling st :
  place_all (f :: tiling) st
  = place_all tiling
      (placed (frame_piece_id f) (frame_piece f) (frame_row f) (frame_col f) st).
Proof. reflexivity. Qed.

Lemma place_all_length tiling st :
  length (board (place_all tiling st)) = length (board st) /\
  length (used_pieces (place_all tiling st)) = length (used_pieces st).
Proof.
  revert st. induction tiling as [|f tiling IH]; intros st; [done|].
  rewrite place_all_cons. destruct (IH (placed (frame_piece_id f) (frame_piece f)
    (frame_row f) (frame_col f) st)) as [-> ->]. cbn [placed board used_pieces].
  by rewrite write_all_length, length_insert.
Qed.

(** Committing placements changes no cell outside them and clears no
    flag. *)
Lemma place_all_outside tiling st rc :
  length (board st) = 49%nat ->
  Forall in_bounds (tiling ≫= frame_cells) ->
  in_bounds rc ->
  rc ∉ tiling ≫= frame_cells ->
  board (place_all tiling st) !! offset rc = board st !! offset rc.
Proof.
  revert st. induction tiling as [|f tiling IH]; intros st Hlen Hall Hrc Hout; [done|].
  rewrite bind_cons in Hall, Hout. apply Forall_app in Hall as [Hf Hall].
  apply not_elem_of_app in Hout as [Hout1 Hout2].
  rewrite place_all_cons, IH; [|by cbn; rewrite write_all_length|done..].
  rewrite placed_lookup by done. by rewrite decide_False.
Qed.

Lemma place_all_used tiling st piece_id :
  used_pieces st !! piece_id = Some true ->
  used_pieces (place_all tiling st) !! piece_id = Some true.
Proof.
  revert st. induction tiling as [|f tiling IH]; intros st Hu; [done|].
  rewrite place_all_cons. apply IH. cbn [placed used_pieces].
  destruct (decide (piece_id = frame_piece_id f)) as [->|Hne].
  - apply list_lookup_insert_eq. by eapply lookup_lt_Some.
  - by rewrite list_lookup_insert_ne.
Qed.
(** When [solve] returns True it has committed a sequence of placements,
    all of them on cells that were playable and empty when it was
    called. *)
Lemma solve_true_places fuel :
  forall st st',
    well_shaped pieces_orientations st ->
    solve fuel pieces_orientations valid_cells st = Returns (true, st') ->
    exists tiling,
      st' = place_all tiling st /\
      Forall (fun rc => rc ∈ valid_cells /\ board st !! offset rc = Some (-1))
        (tiling ≫= frame_cells).
Proof.
  induction fuel as [|fuel IH]; intros st st' Hws; [discriminate|].
  destruct (solve_cases ix pieces_orientations valid_cells valid_in_bounds fuel st Hws)
    as [[-> _]|(row & col & _ & _ & _ &
                [[-> _]|(pid & piece & off & _ & Hpl & -> & _)])].
  - intros [= <-]. exists []. split; [done|constructor].
  - discriminate.
  - intros Hsolve.
    destruct (IH _ _ (placed_well_shaped _ _ _ _ _ _ Hws) Hsolve) as (tiling & -> & Hall).
    exists ({| frame_piece_id := pid; frame_piece := piece;
               frame_row := row - off.1; frame_col := col - off.2 |} :: tiling).
    split; [reflexivity|].
    rewrite bind_cons. apply Forall_app. split; [exact Hpl|].
    destruct (placeable_cells valid_cells valid_in_bounds _ _ _ _ Hpl) as (_ & Hin & _).
    eapply Forall_impl; [exact Hall|]. intros rc [Hv He]. split; [done|].
    rewrite placed_lookup in He by (done || apply Hws || auto).
    case_decide; [injection He; lia|done].
Qed.
End Tilings.

(** X16. [solve] decides whether the state can be tiled. On a 7x7 array
    with a flag per piece, playable cells inside the board, orientations
    without repeated cells and a sufficient budget: when [solve] returns
    True, the state it leaves is the state it was called in with the
    placements of a tiling committed, distinct unused pieces that
    cover exactly the playable empty cells without overlap; when such a
    tiling exists, [solve] returns True; when none exists, it returns
    False and leaves the state as it was. *)
Theorem solve_true_iff_tiling (ix : indexing) (pieces_orientations : list (list shape))
    (valid_cells : pyset cell) (fuel : nat) (st : state) :
  Forall in_bounds valid_cells ->
  Forall (Forall (NoDup (A:=cell))) pieces_orientations ->
  well_shaped pieces_orientations st ->
  (unused_count (used_pieces st) < fuel)%nat ->
  (forall st',
     solve ix fuel pieces_orientations valid_cells st = Returns (true, st') ->
     exists tiling,
       completes pieces_orientations valid_cells tiling st /\
       st' = place_all tiling st) /\
  ((exists tiling, completes pieces_orientations valid_cells tiling st) ->
   exists st', solve ix fuel pieces_orientations valid_cells st = Returns (true, st')) /\
  ((forall tiling, ~ completes pieces_orientations valid_cells tiling st) ->
   solve ix fuel pieces_orientations valid_cells st = Returns (false, st)).
Proof.
  intros Hbounds Hnd Hws Hfuel. rewrite Forall_forall in Hbounds.
  assert (Hnd' : forall piece_id orientations piece,
             pieces_orientations !! piece_id = Some orientations ->
             piece ∈ orientations -> NoDup piece).
  { intros pid os piece Hpo Hin. apply list_elem_of_lookup_2 in Hpo.
    rewrite Forall_forall in Hnd. specialize (Hnd os Hpo).
    rewrite Forall_forall in Hnd. by apply Hnd. }
  split; [|split].
  - intros st' Hsolve. by eapply solve_true_tiling.
  - intros [tiling Hcomp]. by eapply solve_complete.
  - intros Hnone.
    destruct (solve_total ix pieces_orientations valid_cells Hbounds fuel st Hws Hfuel)
      as ([|] & st' & Hsolve & _).
    + destruct (solve_true_tiling ix _ _ Hbounds Hnd' fuel st st' Hws Hsolve)
        as (tiling & Hcomp & _).
      by destruct (Hnone tiling).
    + rewrite Hsolve. by apply solve_restores in Hsolve as ->.
Qed.

Lemma solve_true_iff_tiling_witness :
  let po := [[[(0, 0); (0, 1)]]; [[(0, 0); (1, 0)]]] in
  let valid := [(0, 0); (0, 1); (1, 0); (2, 0)] in
  let st := {| board := write_all (-1) [0; 1; 7; 14]%nat (np_full (-2));
               used_pieces := [false; false] |} in
  (forall st',
     solve numpy_indexing 3 po valid st = Returns (true, st') ->
     exists tiling, completes po valid tiling st /\ st' = place_all tiling st) /\
  ((exists tiling, completes po valid tiling st) ->
   exists st', solve numpy_indexing 3 po valid st = Returns (true, st')) /\
  ((forall tiling, ~ completes po valid tiling st) ->
   solve numpy_indexing 3 po valid st = Returns (false, st)).
Proof.
  apply solve_true_iff_tiling.
  - apply (bool_decide_unpack _). vm_compute. exact I.
  - apply (bool_decide_unpack _). vm_compute. exact I.
  - split; reflexivity.
  - cbn. lia.
Defined.



(** ** The verdict does not depend on the iteration order of sets *)

Lemma completes_reordered (po1 po2 : list (list shape)) valid tiling st :
  Forall2 (≡ₚ) po1 po2 ->
  completes po1 valid tiling st -> completes po2 valid tiling st.
Proof.
  intros Hperm (Hids & Hcells & Hpieces & Hcover).
  split; [done|]. split; [done|]. split; [|done].
  intros f Hf. destruct (Hpieces f Hf) as (Hu & os & Hpo & Hin). split; [done|].
  destruct (Forall2_lookup_l _ _ _ _ _ Hperm Hpo) as (os' & Hpo' & Hos).
  exists os'. split; [done|]. by rewrite <- Hos.
Qed.

Lemma orientation_sets_reordered (H1 H2 : SetIteration) :
  Forall2 (≡ₚ) (@set_iter H1 _ <$> orientation_sets) (@set_iter H2 _ <$> orientation_sets).
Proof.
  apply Forall2_fmap, Forall_Forall2_diag, Forall_forall. intros s _.
  by rewrite !set_iter_perm.
Qed.

Lemma initial_state_reordered (H1 H2 : SetIteration) month_pos day_pos :
  @initial_state H1 month_pos day_pos = @initial_state H2 month_pos day_pos.
Proof.
  unfold initial_state. f_equal. apply list_eq. intros j.
  rewrite !write_all_lookup.
  assert (Hiff : j ∈ offset <$> @set_iter H1 _ (playable month_pos day_pos)
                 <-> j ∈ offset <$> @set_iter H2 _ (playable month_pos day_pos)).
  { by rewrite !set_iter_perm. }
  destruct (decide (j ∈ offset <$> @set_iter H1 _ (playable month_pos day_pos) /\ _))
    as [[Hj ?]|Hj].
  - rewrite decide_True; [done|]. split; [by apply Hiff|done].
  - rewrite decide_False; [done|]. intros [Hj' ?]. apply Hj. split; [by apply Hiff|done].
Qed.

Lemma solve_puzzle_some_reordered (ix : indexing) (H1 H2 : SetIteration)
    (fuel : nat) (month day : Z) (b1 : ndarray) :
  1 <= month <= 12 -> 1 <= day <= 31 -> (9 <= fuel)%nat ->
  @solve_puzzle ix H1 fuel month day = Returns (Some b1) ->
  exists b2, @solve_puzzle ix H2 fuel month day = Returns (Some b2).
Proof.
  intros Hm Hd Hfuel Hsome.
  destruct (target_cells_spec month day Hm Hd) as (mp & dp & Hmp & Hdp & Hmv & Hdv & Hne).
  destruct (playable_facts mp dp Hmv Hdv Hne) as (_ & _ & _ & Hbounds).
  rewrite (@solve_puzzle_unfold H1 ix fuel month day mp dp) in Hsome by done.
  rewrite (@solve_puzzle_unfold H2 ix fuel month day mp dp) by done.
  destruct (solve ix fuel (@set_iter H1 _ <$> orientation_sets) (playable mp dp)
              (@initial_state H1 mp dp)) as [[[|] st1]| |] eqn:Hsolve; try discriminate.
  destruct (solve_true_tiling ix _ _ Hbounds
              (fun pid os piece Hpo Hin =>
                 proj1 (@precomputed_sized H1 pid os piece Hpo Hin))
              fuel _ _ (@initial_state_well_shaped H1 mp dp) Hsolve)
    as (tiling & Hcomp & _).
  apply (completes_reordered _ _ _ _ _ (orientation_sets_reordered H1 H2)) in Hcomp.
  rewrite (initial_state_reordered H1 H2) in Hcomp.
  destruct (solve_complete ix _ _ Hbounds fuel _ tiling
              (@initial_state_well_shaped H2 mp dp) Hcomp) as [st2 ->].
  { cbn. lia. }
  cbn [obind]. eauto.
Qed.

(** X18. Whether [solve_puzzle] finds a board does not depend on the
    order in which Python iterates over sets: for a date of the
    calendar, two iteration orders both give a board or both give
    None. *)
Theorem solve_puzzle_verdict_any_order (H1 H2 : SetIteration)
    (fuel : nat) (month day : Z) :
  1 <= month <= 12 -> 1 <= day <= 31 -> (9 <= fuel)%nat ->
  ((exists b, @solve_puzzle numpy_indexing H1 fuel month day = Returns (Some b))
   <-> (exists b, @solve_puzzle numpy_indexing H2 fuel month day = Returns (Some b))) /\
  (@solve_puzzle numpy_indexing H1 fuel month day = Returns None
   <-> @solve_puzzle numpy_indexing H2 fuel month day = Returns None).
Proof.
  intros Hm Hd Hfuel.
  assert (Hsome : forall Ha Hb : SetIteration,
             (exists b, @solve_puzzle numpy_indexing Ha fuel month day = Returns (Some b)) ->
             exists b, @solve_puzzle numpy_indexing Hb fuel month day = Returns (Some b)).
  { intros Ha Hb [b Hb1].
    exact (solve_puzzle_some_reordered numpy_indexing Ha Hb fuel month day b
             Hm Hd Hfuel Hb1). }
  assert (Hnone : forall Ha Hb : SetIteration,
             @solve_puzzle numpy_indexing Ha fuel month day = Returns None ->
             @solve_puzzle numpy_indexing Hb fuel month day = Returns None).
  { intros Ha Hb Hnone.
    destruct (@solve_puzzle_total Hb numpy_indexing month day Hm Hd) as [[r Hr] _].
    rewrite (Hr fuel Hfuel). destruct r as [b|]; [|done].
    destruct (Hsome Hb Ha) as [b' Hb']; [by exists b; apply Hr|].
    congruence. }
  split; split; [apply Hsome|apply Hsome|apply Hnone|apply Hnone].
Qed.

Lemma solve_puzzle_verdict_any_order_witness :
  let backwards :=
    {| set_iter := fun A s => reverse s;
       set_iter_perm := fun A s => reverse_Permutation s |} in
  ((exists b, @solve_puzzle numpy_indexing insertion_order 9 6 15 = Returns (Some b))
   <-> (exists b, @solve_puzzle numpy_indexing backwards 9 6 15 = Returns (Some b))) /\
  (@solve_puzzle numpy_indexing insertion_order 9 6 15 = Returns None
   <-> @solve_puzzle numpy_indexing backwards 9 6 15 = Returns None).
Proof. apply solve_puzzle_verdict_any_order; lia. Defined.

(** ** Pieces that cannot fill the board *)

Section Area.
Variable ix : indexing.
Variable pieces_orientations : list (list shape).
Variable valid_cells : pyset cell.
Variable sizes : list nat.
Hypothesis valid_in_bounds : forall rc, rc ∈ valid_cells -> in_bounds rc.
Hypothesis orientations_sized :
  forall piece_id orientations piece,
    pieces_orientations !! piece_id = Some orientations ->
    piece ∈ orientations ->
    NoDup piece /\ sizes !! piece_id = Some (length piece).

Local Abbreviation too_few_pieces :=
  (too_few_pieces pieces_orientations valid_cells sizes).

Lemma placed_too_few_pieces st piece_id piece off row col :
  too_few_pieces st ->
  candidate pieces_orientations st piece_id piece off ->
  placeable valid_cells st piece (row - off.1) (col - off.2) ->
  too_few_pieces (placed piece_id piece (row - off.1) (col - off.2) st).
Proof.
  intros (Hws & Hout & Harea) (os & Hpo & Hunused & Hin & Hoff) Hpl.
  set (sr := row - off.1) in *. set (sc := col - off.2) in *.
  destruct (placeable_cells valid_cells valid_in_bounds _ _ _ _ Hpl)
    as (Hvalid & Hbounds & Hempty).
  destruct (orientations_sized _ _ _ Hpo Hin) as [Hnd Hsize].
  split; [by apply placed_well_shaped|]. split.
  - intros rc Hrc Hnv. rewrite placed_lookup by (done || apply Hws).
    rewrite decide_False; [by apply Hout|].
    intros Hmem. apply Hnv. rewrite Forall_forall in Hvalid. by apply Hvalid.
  - cbn [placed board used_pieces].
    pose proof (count_empty_write_all (Z.of_nat piece_id)
                  (offset <$> cells_at piece sr sc) (board st) ltac:(lia)
                  (offsets_NoDup _ Hbounds (cells_at_NoDup _ sr sc Hnd)) Hempty) as Hcnt.
    pose proof (unused_area_insert _ _ _ _ Hunused Hsize) as Huse.
    rewrite length_fmap, cells_at_length in Hcnt. lia.
Qed.

Lemma solve_too_few_pieces fuel :
  forall st st',
    too_few_pieces st ->
    solve ix fuel pieces_orientations valid_cells st ≠ Returns (true, st').
Proof.
  induction fuel as [|fuel IH]; intros st st' Htoo; [discriminate|].
  destruct (solve_cases ix pieces_orientations valid_cells valid_in_bounds
              fuel st (proj1 Htoo))
    as [[_ Hfull]|(row & col & _ & _ & _ &
                   [[-> _]|(pid & piece & off & Hcand & Hpl & -> & _)])].
  - exfalso. destruct Htoo as ([Hlen _] & Hout & Harea).
    assert (Hzero : count_empty (board st) = 0%nat); [|lia].
    apply count_empty_zero. intros i Hi.
    pose proof (lookup_lt_Some _ _ _ Hi) as Hlt. rewrite Hlen in Hlt.
    destruct (offset_surj i Hlt) as (rc & Hrc & <-).
    destruct (decide (rc ∈ valid_cells)) as [Hv|Hv].
    + by apply (Hfull rc Hv).
    + by apply (Hout rc Hrc Hv).
  - discriminate.
  - apply IH. by eapply placed_too_few_pieces.
Qed.
End Area.



(** ** Rendering *)

Lemma dict_get_present {K V} `{EqDecision K} (k : K) (d : pydict K V) :
  k ∈ d.*1 -> exists v, dict_get k d = Returns v /\ (k, v) ∈ d.
Proof.
  induction d as [|[k' v'] d IH]; cbn [dict_get fmap list_fmap fst].
  - intros Hin. inversion Hin.
  - intros Hin. destruct (decide (k = k')) as [->|Hne].
    + exists v'. split; [done|]. left.
    + apply elem_of_cons in Hin as [?|Hin]; [done|].
      destruct (IH Hin) as (v & ? & ?). exists v. split; [done|]. by right.
Qed.

Lemma list_index_Returns {A} (xs : list A) (i : Z) :
  0 <= i < Z.of_nat (length xs) ->
  exists x, list_index xs i = Returns x /\ xs !! Z.to_nat i = Some x.
Proof.
  intros Hi. unfold list_index.
  rewrite (decide_False (P := i < 0)) by lia. rewrite decide_True by lia.
  destruct (lookup_lt_is_Some_2 xs (Z.to_nat i)) as [x Hx]; [lia|].
  exists x. by rewrite Hx.
Qed.

Lemma labelled_cell_html_returns board r c is_target label :
  renderable board -> in_bounds (r, c) ->
  exists chunk, labelled_cell_html board r c is_target label = Returns chunk.
Proof.
  intros Hboard Hrc. unfold labelled_cell_html.
  destruct is_target; [by eexists|].
  destruct board as [b|]; [|by eexists].
  destruct Hboard as [Hlen Hvals].
  destruct (board_get_in_bounds numpy_indexing b (r, c) Hrc Hlen) as (v & Hv & Hget).
  cbn [fst snd] in Hget. rewrite Hget. cbn [obind].
  destruct (decide (v >= 0)) as [Hpos|Hneg]; [|by eexists].
  rewrite Forall_forall in Hvals.
  pose proof (Hvals v (list_elem_of_lookup_2 _ _ _ Hv)) as Hlt.
  destruct (list_index_Returns PIECE_COLORS v) as (color & -> & _); [lia|].
  cbn [obind]. by eexists.
Qed.

Lemma cell_html_returns board month_name day r c :
  renderable board -> in_bounds (r, c) ->
  exists chunk, cell_html board month_name day r c = Returns chunk.
Proof.
  intros Hboard Hrc. unfold cell_html.
  destruct (decide ((r, c) ∈ BLOCKED)); [by eexists|].
  destruct (decide ((r, c) ∈ MONTHS.*1)) as [Hm|Hm].
  { destruct (dict_get_present _ _ Hm) as (name & -> & _). cbn [obind].
    by apply labelled_cell_html_returns. }
  destruct (decide ((r, c) ∈ DAYS.*1)) as [Hd|Hd]; [|by eexists].
  destruct (dict_get_present _ _ Hd) as (d & -> & _). cbn [obind].
  by apply labelled_cell_html_returns.
Qed.

Lemma render_cells_returns board month_name day r cols html :
  renderable board -> Forall (fun c => in_bounds (r, c)) cols ->
  exists html', render_cells board month_name day r cols html = Returns html'.
Proof.
  intros Hboard Hcols. revert html.
  induction Hcols as [|c cols Hc _ IH]; intros html; cbn [render_cells]; [by eexists|].
  destruct (cell_html_returns board month_name day r c Hboard Hc) as [chunk ->].
  cbn [obind]. apply IH.
Qed.

Lemma render_rows_returns board month_name day rows html :
  renderable board -> Forall (fun r => 0 <= r < BOARD_ROWS) rows ->
  exists html', render_rows board month_name day rows html = Returns html'.
Proof.
  intros Hboard Hrows. revert html.
  induction Hrows as [|r rows Hr _ IH]; intros html; cbn [render_rows]; [by eexists|].
  destruct (render_cells_returns board month_name day r (range 0 BOARD_COLS)
              (html +:+ row_open_html) Hboard) as [html' ->].
  { apply Forall_forall. intros c Hc. apply range_elem in Hc. by split. }
  cbn [obind]. apply IH.
Qed.

(** X20. [render_board] returns its text for every month of -11..12,
    every day, and every board that is None or a 7x7 array with all
    cells below 8, the number of colours; for any other month it raises
    IndexError. *)
Theorem render_board_returns (board : option ndarray) (month day : Z) :
  renderable board ->
  (-11 <= month <= 12 -> exists html, render_board board month day = Returns html) /\
  (month < -11 \/ 12 < month -> render_board board month day = Raises IndexError).
Proof.
  intros Hboard. unfold render_board. split.
  - intros Hm.
    assert (Hname : exists name, list_index MONTH_NAMES (month - 1) = Returns name).
    { destruct (decide (month - 1 < 0)).
      - rewrite list_index_negative by (cbn; lia).
        destruct (list_index_Returns MONTH_NAMES (month - 1 + Z.of_nat (length MONTH_NAMES)))
          as (name & -> & _); [cbn; lia|]. by eexists.
      - destruct (list_index_Returns MONTH_NAMES (month - 1))
          as (name & -> & _); [cbn; lia|]. by eexists. }
    destruct Hname as [name ->]. cbn [obind].
    destruct (render_rows_returns board name day (range 0 BOARD_ROWS) board_style Hboard)
      as [html ->].
    { apply Forall_forall. intros r Hr. by apply range_elem in Hr. }
    cbn [obind]. by eexists.
  - intros Hm. by rewrite list_index_out_of_range by (cbn; lia).
Qed.

Lemma render_board_returns_witness :
  (exists html, render_board None (-3) 40 = Returns html) /\
  render_board (Some (np_full 7)) 13 1 = Raises IndexError.
Proof.
  split.
  - apply (proj1 (render_board_returns None (-3) 40 I)). lia.
  - refine (proj2 (render_board_returns (Some (np_full 7)) 13 1 _) _); [|lia].
    split; [reflexivity|]. apply (bool_decide_unpack _). vm_compute. exact I.
Defined.

(** ** Rendering what [solve_puzzle] returns *)

Lemma solve_puzzle_renderable `{SetIteration} (fuel : nat) (month day : Z)
    (result : option ndarray) :
  1 <= month <= 12 -> 1 <= day <= 31 ->
  solve_puzzle numpy_indexing fuel month day = Returns result ->
  renderable result.
Proof.
  intros Hm Hd Hsolve.
  destruct (target_cells_spec month day Hm Hd) as (mp & dp & Hmp & Hdp & Hmv & Hdv & Hne).
  destruct (playable_facts mp dp Hmv Hdv Hne) as (_ & _ & _ & Hbounds).
  rewrite (solve_puzzle_unfold numpy_indexing fuel month day mp dp) in Hsolve by done.
  destruct (solve numpy_indexing fuel (set_iter <$> orientation_sets) (playable mp dp)
              (initial_state mp dp)) as [[[|] st]| |] eqn:Hsearch; try discriminate;
    cbn [obind] in Hsolve; injection Hsolve as <-; [|exact I].
  destruct (solve_sound numpy_indexing _ _ piece_sizes Hbounds precomputed_sized
              fuel _ _ (initial_state_consistent mp dp Hmv Hdv Hne) Hsearch) as [Hc _].
  destruct Hc as [[Hlen Hused] Hvals _ _ _ _].
  split; [done|]. apply Forall_forall. intros v Hv.
  apply list_elem_of_lookup_1 in Hv as [i Hi].
  destruct (Hvals i v Hi) as [->|[->|(pid & -> & Hu)]]; [done|done|].
  apply lookup_lt_Some in Hu. rewrite Hused in Hu.
  rewrite length_fmap in Hu. cbn in Hu |- *. lia.
Qed.

(** X21. Whatever [solve_puzzle] returns for a date of the calendar,
    a board or None, [render_board] renders it for that date without
    raising. *)
Theorem render_board_of_solve_puzzle `{SetIteration} (fuel : nat) (month day : Z)
    (solution : option ndarray) :
  1 <= month <= 12 -> 1 <= day <= 31 ->
  solve_puzzle numpy_indexing fuel month day = Returns solution ->
  exists html, render_board solution month day = Returns html.
Proof.
  intros Hm Hd Hsolve.
  pose proof (solve_puzzle_renderable fuel month day solution Hm Hd Hsolve) as Hr.
  apply (render_board_returns solution month day Hr). lia.
Qed.

Lemma render_board_of_solve_puzzle_witness :
  exists solution,
    @solve_puzzle numpy_indexing insertion_order 9 1 1 = Returns solution /\
    exists html, render_board solution 1 1 = Returns html.
Proof.
  eexists. split; [vm_compute; reflexivity|].
  eapply (@render_board_of_solve_puzzle insertion_order 9 1 1); [lia|lia|].
  vm_compute. reflexivity.
Defined.

(** ** The cells rendered as targets *)

Lemma month_marks_table :
  Forall (fun rc : cell =>
    Forall (fun month =>
      (rc ∈ BLOCKED -> month_cell month ≠ Returns rc) /\
      (rc ∉ BLOCKED -> rc ∈ MONTHS.*1 ->
       (dict_get rc MONTHS = list_index MONTH_NAMES (month - 1)
        <-> month_cell month = Returns rc)) /\
      (rc ∉ BLOCKED -> rc ∉ MONTHS.*1 ->
       rc ∈ DAYS.*1 /\ month_cell month ≠ Returns rc))
      (range 1 13))
    all_coords.
Proof. apply (bool_decide_unpack _). vm_compute. exact I. Qed.

Lemma day_marks_table :
  Forall (fun rc : cell =>
    Forall (fun day =>
      (rc ∈ BLOCKED -> day_cell day ≠ Returns rc) /\
      (rc ∉ BLOCKED -> rc ∈ MONTHS.*1 -> day_cell day ≠ Returns rc) /\
      (rc ∉ BLOCKED -> rc ∉ MONTHS.*1 ->
       (dict_get rc DAYS = Returns day <-> day_cell day = Returns rc)))
      (range 1 32))
    all_coords.
Proof. apply (bool_decide_unpack _). vm_compute. exact I. Qed.

Lemma blocked_not_target : ~ is_target_html blocked_cell_html.
Proof. intros [label Heq]. discriminate Heq. Qed.

Lemma piece_not_target color label : ~ is_target_html (piece_cell_html color label).
Proof. intros [label' Heq]. discriminate Heq. Qed.

Lemma empty_not_target label : ~ is_target_html (empty_cell_html label).
Proof. intros [label' Heq]. discriminate Heq. Qed.

Lemma labelled_cell_html_target board r c is_target label chunk :
  labelled_cell_html board r c is_target label = Returns chunk ->
  is_target_html chunk <-> is_target = true.
Proof.
  unfold labelled_cell_html. destruct is_target.
  - intros [= <-]. split; [done|]. intros _. by exists label.
  - assert (Hno : forall chunk', ~ is_target_html chunk' ->
                    is_target_html chunk' <-> false = true) by (intros; split; done).
    destruct board as [b|]; [|intros [= <-]; apply Hno, empty_not_target].
    destruct (board_get numpy_indexing b r c) as [v| |]; cbn [obind]; try discriminate.
    destruct (decide (v >= 0)); [|intros [= <-]; apply Hno, empty_not_target].
    destruct (list_index PIECE_COLORS v) as [color| |]; cbn [obind]; try discriminate.
    intros [= <-]. apply Hno, piece_not_target.
Qed.

(** X22. [render_board] marks the cells [solve_puzzle] leaves uncovered:
    for a date of the calendar and any board, the text appended for a
    cell of the grid is that of a target cell exactly when the cell is
    the cell of the month or the cell of the day. *)
Theorem cell_html_marks_targets (board : option ndarray) (month day r c : Z)
    (month_name : string) (month_pos day_pos : cell) (chunk : string) :
  1 <= month <= 12 -> 1 <= day <= 31 ->
  list_index MONTH_NAMES (month - 1) = Returns month_name ->
  month_cell month = Returns month_pos ->
  day_cell day = Returns day_pos ->
  in_bounds (r, c) ->
  cell_html board month_name day r c = Returns chunk ->
  is_target_html chunk <-> (r, c) = month_pos \/ (r, c) = day_pos.
Proof.
  intros Hm Hd Hname Hmp Hdp Hrc.
  pose proof month_marks_table as Hmt. pose proof day_marks_table as Hdt.
  rewrite Forall_forall in Hmt. rewrite Forall_forall in Hdt.
  specialize (Hmt (r, c) (proj2 (all_coords_in_bounds _) Hrc)).
  specialize (Hdt (r, c) (proj2 (all_coords_in_bounds _) Hrc)).
  rewrite Forall_forall in Hmt. rewrite Forall_forall in Hdt.
  destruct (Hmt month) as (Hm1 & Hm2 & Hm3); [apply range_elem; lia|].
  destruct (Hdt day) as (Hd1 & Hd2 & Hd3); [apply range_elem; lia|].
  rewrite Hmp in Hm1, Hm2, Hm3. rewrite Hdp in Hd1, Hd2, Hd3.
  assert (Hinj : forall p q : cell, Returns p = Returns q <-> q = p).
  { intros p q. split; [by intros [= ->]|by intros ->]. }
  unfold cell_html.
  destruct (decide ((r, c) ∈ BLOCKED)) as [Hb|Hb].
  { intros [= <-]. split; [by intros ?%blocked_not_target|].
    intros [Heq|Heq]; [destruct (Hm1 Hb)|destruct (Hd1 Hb)]; by rewrite Heq. }
  destruct (decide ((r, c) ∈ MONTHS.*1)) as [Hin|Hin].
  { destruct (dict_get (r, c) MONTHS) as [cell_month| |] eqn:Hget;
      cbn [obind]; try discriminate.
    intros Hchunk. rewrite (labelled_cell_html_target _ _ _ _ _ _ Hchunk).
    rewrite bool_decide_eq_true. specialize (Hm2 Hb Hin). rewrite Hname in Hm2.
    split.
    - intros ->. left. by apply Hinj, Hm2.
    - intros [Heq|Heq].
      + assert (Hret : Returns cell_month = Returns month_name)
          by (by apply Hm2, Hinj). by injection Hret.
      + destruct (Hd2 Hb Hin). by rewrite Heq. }
  destruct (Hm3 Hb Hin) as [Hdays Hnm].
  rewrite decide_True by done.
  destruct (dict_get (r, c) DAYS) as [cell_day| |] eqn:Hget;
    cbn [obind]; try discriminate.
  intros Hchunk. rewrite (labelled_cell_html_target _ _ _ _ _ _ Hchunk).
  rewrite bool_decide_eq_true. specialize (Hd3 Hb Hin).
  split.
  - intros ->. right. by apply Hinj, Hd3.
  - intros [Heq|Heq].
    + destruct Hnm. by rewrite Heq.
    + assert (Hret : Returns cell_day = Returns day) by (by apply Hd3, Hinj).
      by injection Hret.
Qed.

Lemma cell_html_marks_targets_witness :
  is_target_html (target_cell_html "Mai") <-> (0, 4) = (0, 4) \/ (0, 4) = (3, 1).
Proof.
  apply (cell_html_marks_targets None 5 9 0 4 "Mai" (0, 4) (3, 1)
           (target_cell_html "Mai")); try lia; try reflexivity.
  apply (bool_decide_unpack _). vm_compute. exact I.
Defined.
